(** * whspr: the streaming session orchestrator

    A shallow embedding of [server/streamingService.ts], of the batch
    generator and the cleanup of [server/musicGeneration.ts], of the
    streaming routes of [server/routes.ts] and of the sample files of the
    mock services, with the properties of the session registry, the buffer
    manager, the affirmation scheduler and the retention sweeper.

    Conventions of the embedding.
    - A JavaScript [number] holding seconds, milliseconds, a count or an index
      is an integer ([Z]); a [Date] is its [getTime()] value in milliseconds.
    - An optional field ([x?: number]) is an [option]; [a || d] on a number is
      [d] when [a] is missing or [0], and [a] otherwise.
    - Session objects are shared and mutated in place: they live in a store
      ([heap]) and are named by references; the [sessions] map and the
      suspended asynchronous calls hold references, never copies.
    - The [sessions] map is a finite map from ids to references.  The code
      iterates over it in insertion order, which a finite map does not
      record: a list obtained by iterating is given in the order of the keys,
      and the statements about such a list speak of membership or hold up to
      a permutation.
    - An [async] method runs up to the point where it waits for a generation
      adapter; what follows that point is a separate [_resume] function that
      receives the adapter's answer.  [updateSessionPosition] awaits
      [generateNextSegment]: the function of that name is the call up to that
      wait, and [updateSessionPosition_await] is the call up to its
      settlement.
    - File removals ([fs.unlink]) are recorded in the order they are
      requested.  [stopSession] is the awaited call, from its start to its
      settlement; the sweeper and [destroy] start it and do not await it, and
      for them the call is split at its first wait into [stopSession_start]
      and [stopSession_resume].
    - [this.emit] appends to the log of outbound notifications.  The code
      registers no listener on the service, and an [EventEmitter] throws on
      an [error] notification without listener: the throw rejects the call
      that awaits the emitting method ([updateSessionPosition_await]); what
      the process does with the rejection of a call that nobody awaits is
      outside the model.
    - Values the code draws from its environment ([uuidv4()], [new Date()],
      [Math.random()], the outcome of an external process) are arguments. *)

From Stdlib Require Import ZArith Lia.
From stdpp Require Import base strings pretty list sorting gmap.

Local Open Scope Z_scope.

(** ** Data model *)

Inductive TrackType := meditation | sleep.

(** [interface MusicGenerationOptions] *)
Module MusicGenerationOptions.
Record t := mk {
  prompt : string;
  duration : Z;
  trackType : TrackType;
  moodTags : list string;
  outputPath : option string
}.
End MusicGenerationOptions.

(** [interface GeneratedSegment] *)
Module GeneratedSegment.
Record t := mk {
  id : string;
  audioPath : string;
  duration : Z;
  prompt : string;
  generatedAt : Z
}.
End GeneratedSegment.

(** [interface SynthesizedAudio] *)
Module SynthesizedAudio.
Record t := mk {
  id : string;
  audioPath : string;
  text : string;
  duration : Z;
  synthesizedAt : Z
}.
End SynthesizedAudio.

(** The fields of [trackData: any] that the service reads. *)
Module TrackData.
Record t := mk {
  duration : Z;                      (* minutes *)
  trackType : TrackType;
  moodTags : option (list string);
  affirmations : list string
}.
End TrackData.

(** [interface StreamingOptions] *)
Module StreamingOptions.
Record t := mk {
  trackId : Z;
  userId : string;
  affirmationInterval : option Z;
  bufferSize : option Z;
  segmentDuration : option Z
}.
End StreamingOptions.

(** [interface StreamingSession] *)
Module StreamingSession.
Record t := mk {
  id : string;
  userId : string;
  trackId : Z;
  isActive : bool;
  startTime : Z;
  currentPosition : Z;
  totalDuration : Z;
  affirmationInterval : Z;
  lastAffirmationTime : Z;
  musicSegments : list GeneratedSegment.t;
  affirmations : list SynthesizedAudio.t;
  currentSegmentIndex : Z;
  bufferSize : Z
}.

Definition set_isActive (b : bool) (s : t) : t :=
  mk (id s) (userId s) (trackId s) b (startTime s) (currentPosition s)
     (totalDuration s) (affirmationInterval s) (lastAffirmationTime s)
     (musicSegments s) (affirmations s) (currentSegmentIndex s) (bufferSize s).

Definition set_currentPosition (p : Z) (s : t) : t :=
  mk (id s) (userId s) (trackId s) (isActive s) (startTime s) p
     (totalDuration s) (affirmationInterval s) (lastAffirmationTime s)
     (musicSegments s) (affirmations s) (currentSegmentIndex s) (bufferSize s).

Definition set_lastAffirmationTime (p : Z) (s : t) : t :=
  mk (id s) (userId s) (trackId s) (isActive s) (startTime s) (currentPosition s)
     (totalDuration s) (affirmationInterval s) p
     (musicSegments s) (affirmations s) (currentSegmentIndex s) (bufferSize s).

Definition set_musicSegments (l : list GeneratedSegment.t) (s : t) : t :=
  mk (id s) (userId s) (trackId s) (isActive s) (startTime s) (currentPosition s)
     (totalDuration s) (affirmationInterval s) (lastAffirmationTime s)
     l (affirmations s) (currentSegmentIndex s) (bufferSize s).

Definition set_affirmations (l : list SynthesizedAudio.t) (s : t) : t :=
  mk (id s) (userId s) (trackId s) (isActive s) (startTime s) (currentPosition s)
     (totalDuration s) (affirmationInterval s) (lastAffirmationTime s)
     (musicSegments s) l (currentSegmentIndex s) (bufferSize s).
End StreamingSession.

(** [a || d] for an optional number. *)
Definition or_default (a : option Z) (d : Z) : Z :=
  match a with
  | Some v => if decide (v = 0) then d else v
  | None => d
  end.

(** [arr[i]] for a JavaScript index: [undefined] below zero and past the end. *)
Definition js_index {A} (arr : list A) (i : Z) : option A :=
  if decide (0 <= i) then arr !! Z.to_nat i else None.

(** [Math.ceil(a / b)] on integers, for [b <> 0]. *)
Definition ceil_div (a b : Z) : Z := - ((- a) / b).

(** ** The music generator ([musicGeneration.ts]) *)

(** What one call of [generateMusicSegment] draws from its environment: the
    fresh [uuidv4()], the prompt text picked by the prompt builder, the
    clock, and whether initialisation and the external generation process
    succeeded. *)
Module SegmentDraw.
Record t := mk {
  segmentId : string;
  prompt : string;
  now : Z;
  succeeded : bool
}.
End SegmentDraw.

Definition outputDir : string := "/tmp/generated_music".

(** [path.join(dir, name)] for a plain file name. *)
Definition path_join (dir name : string) : string := dir +:+ "/" +:+ name.

(** [generateMusicSegment]: [None] when the call throws. *)
Definition generateMusicSegment
    (options : MusicGenerationOptions.t) (d : SegmentDraw.t)
    : option GeneratedSegment.t :=
  let segmentId := SegmentDraw.segmentId d in
  let outputPath :=
    match MusicGenerationOptions.outputPath options with
    | Some p => if decide (p = "") then path_join outputDir (segmentId +:+ ".wav") else p
    | None => path_join outputDir (segmentId +:+ ".wav")
    end in
  if SegmentDraw.succeeded d then
    Some (GeneratedSegment.mk segmentId outputPath
            (MusicGenerationOptions.duration options)
            (SegmentDraw.prompt d) (SegmentDraw.now d))
  else None.

(** The draws of the [i]-th turn of the loop of [generateStreamingSegments]:
    the [uuidv4()] of the output path and the draws of the generation call. *)
Module BatchDraw.
Record t := mk {
  pathId : string;
  segment : SegmentDraw.t
}.
End BatchDraw.

Definition with_segment_options
    (options : MusicGenerationOptions.t) (segmentDuration : Z) (outputPath : string)
    : MusicGenerationOptions.t :=
  MusicGenerationOptions.mk
    (MusicGenerationOptions.prompt options) segmentDuration
    (MusicGenerationOptions.trackType options)
    (MusicGenerationOptions.moodTags options) (Some outputPath).

(** The body of [for (let i = 0; i < segmentCount; i++)], from turn [i] on
    with [n] turns left; a failed turn is skipped. *)
Fixpoint generateStreamingSegments_loop
    (options : MusicGenerationOptions.t) (segmentDuration : Z)
    (draws : nat -> BatchDraw.t) (i n : nat) : list GeneratedSegment.t :=
  match n with
  | O => []
  | S n' =>
      let segmentOptions :=
        with_segment_options options segmentDuration
          (path_join outputDir
             (BatchDraw.pathId (draws i) +:+ "_segment_" +:+ pretty i +:+ ".wav")) in
      match generateMusicSegment segmentOptions (BatchDraw.segment (draws i)) with
      | Some segment => segment :: generateStreamingSegments_loop options segmentDuration draws (S i) n'
      | None => generateStreamingSegments_loop options segmentDuration draws (S i) n'
      end
  end.

(** [generateStreamingSegments(options, segmentCount)] *)
Definition generateStreamingSegments
    (options : MusicGenerationOptions.t) (segmentCount : Z)
    (draws : nat -> BatchDraw.t) : list GeneratedSegment.t :=
  let segmentDuration := ceil_div (MusicGenerationOptions.duration options) segmentCount in
  generateStreamingSegments_loop options segmentDuration draws 0 (Z.to_nat segmentCount).

(** ** The streaming service ([streamingService.ts]) *)

(** The notifications of the [EventEmitter]. *)
Module Event.
Inductive t :=
| segmentsReady (sessionId : string) (segments : list GeneratedSegment.t)
| affirmationsReady (sessionId : string) (synthesized : list SynthesizedAudio.t)
| playAffirmation (sessionId : string) (selected : SynthesizedAudio.t)
| newSegmentReady (sessionId : string) (newSegment : GeneratedSegment.t)
| sessionStopped (sessionId : string)
| error (sessionId : string).
End Event.

(** An asynchronous call of the service that waits for a generation adapter.
    [session] is the reference it captured when it was started. *)
Inductive Task :=
| InitialSegments (session : nat) (trackData : TrackData.t) (segmentDuration : Z)
| AffirmationsForSession (session : nat) (affirmationTexts : list string)
| NextSegment (session : nat).

(** The errors the service throws. *)
Inductive Failure :=
| Session_not_found
| Session_not_found_or_inactive
| Segment_not_found
| Affirmation_not_found
| Unhandled_error.

Inductive Result (A : Type) :=
| Ok (a : A)
| Throw (e : Failure).
Arguments Ok {A} a.
Arguments Throw {A} e.

(** A call of [stopSession] that has been started and waits, inside
    [cleanupSession], for a removal to settle: the id it was given and the
    paths its loops have still to hand to [fs.unlink]. *)
Module StopCall.
Record t := mk {
  sessionId : string;
  remaining : list string
}.
End StopCall.

(** [class StreamingService]: the [sessions] map, the store of session
    objects, the suspended calls, and the two outbound logs. *)
Module StreamingService.
Record t := mk {
  sessions : gmap string nat;
  heap : list StreamingSession.t;
  pending : list Task;
  emitted : list Event.t;
  unlinked : list string
}.

Definition init : t := mk ∅ [] [] [] [].

Definition set_sessions (m : gmap string nat) (st : t) : t :=
  mk m (heap st) (pending st) (emitted st) (unlinked st).
Definition set_heap (h : list StreamingSession.t) (st : t) : t :=
  mk (sessions st) h (pending st) (emitted st) (unlinked st).
Definition set_pending (p : list Task) (st : t) : t :=
  mk (sessions st) (heap st) p (emitted st) (unlinked st).

(** Writes to the object behind reference [r]. *)
Definition store (r : nat) (s : StreamingSession.t) (st : t) : t :=
  set_heap (<[r := s]> (heap st)) st.
(** [this.emit(...)] *)
Definition emit (evs : list Event.t) (st : t) : t :=
  mk (sessions st) (heap st) (pending st) (emitted st ++ evs) (unlinked st).
(** [fs.unlink(path)], whatever its outcome. *)
Definition unlink (paths : list string) (st : t) : t :=
  mk (sessions st) (heap st) (pending st) (emitted st) (unlinked st ++ paths).
(** Starts an asynchronous call that will wait for an adapter. *)
Definition spawn (ts : list Task) (st : t) : t :=
  set_pending (pending st ++ ts) st.
End StreamingService.

Import StreamingService (sessions, heap, pending, emitted, unlinked).

Abbreviation Service := StreamingService.t.

(** [createStreamingSession(options, trackData)]; [sessionId] is the
    [uuidv4()] it draws and [now] its [new Date()].  Returns the reference
    of the new session object. *)
Definition createStreamingSession
    (options : StreamingOptions.t) (trackData : TrackData.t)
    (sessionId : string) (now : Z) (st : Service) : nat * Service :=
  let session :=
    StreamingSession.mk sessionId
      (StreamingOptions.userId options)
      (StreamingOptions.trackId options)
      true
      now
      0
      (TrackData.duration trackData * 60)
      (or_default (StreamingOptions.affirmationInterval options) 30)
      0
      []
      []
      0
      (or_default (StreamingOptions.bufferSize options) 3) in
  let r := length (heap st) in
  let st := StreamingService.set_heap (heap st ++ [session]) st in
  let st := StreamingService.set_sessions (<[sessionId := r]> (sessions st)) st in
  let st := StreamingService.spawn
              [InitialSegments r trackData
                 (or_default (StreamingOptions.segmentDuration options) 60)] st in
  let st := StreamingService.spawn
              [AffirmationsForSession r (TrackData.affirmations trackData)] st in
  (r, st).

(** The rest of [generateInitialSegments] once the adapter answers.
    [answer = None]: [getServices()] was rejected. *)
Definition generateInitialSegments_resume
    (r : nat) (trackData : TrackData.t) (segmentDuration : Z)
    (answer : option (nat -> BatchDraw.t)) (st : Service) : Service :=
  match heap st !! r with
  | None => st
  | Some session =>
      match answer with
      | Some draws =>
          let musicOptions :=
            MusicGenerationOptions.mk "" segmentDuration
              (TrackData.trackType trackData)
              (default ["peaceful"; "calm"] (TrackData.moodTags trackData))
              None in
          let segments :=
            generateStreamingSegments musicOptions
              (StreamingSession.bufferSize session) draws in
          StreamingService.emit
            [Event.segmentsReady (StreamingSession.id session) segments]
            (StreamingService.store r
               (StreamingSession.set_musicSegments segments session) st)
      | None =>
          StreamingService.emit [Event.error (StreamingSession.id session)] st
      end
  end.

(** The rest of [generateAffirmationsForSession]; the answer is the result
    of [synthesizeAffirmationSequence], [None] when the call is rejected. *)
Definition generateAffirmationsForSession_resume
    (r : nat) (affirmationTexts : list string)
    (answer : option (list SynthesizedAudio.t)) (st : Service) : Service :=
  match heap st !! r with
  | None => st
  | Some session =>
      match answer with
      | Some synthesizedAffirmations =>
          StreamingService.emit
            [Event.affirmationsReady (StreamingSession.id session) synthesizedAffirmations]
            (StreamingService.store r
               (StreamingSession.set_affirmations synthesizedAffirmations session) st)
      | None =>
          StreamingService.emit [Event.error (StreamingSession.id session)] st
      end
  end.

(** [triggerAffirmation(session)]: the session as it leaves the call and
    what was emitted.  [rnd] stands for the draw of [Math.random()]; the
    index [Math.floor(Math.random() * length)] is some index below
    [length], here [rnd mod length]. *)
Definition triggerAffirmation (session : StreamingSession.t) (rnd : nat)
    : StreamingSession.t * list Event.t :=
  match StreamingSession.affirmations session with
  | [] => (session, [])
  | first :: _ =>
      let randomIndex := (rnd mod length (StreamingSession.affirmations session))%nat in
      let selectedAffirmation := nth randomIndex (StreamingSession.affirmations session) first in
      (StreamingSession.set_lastAffirmationTime
         (StreamingSession.currentPosition session) session,
       [Event.playAffirmation (StreamingSession.id session) selectedAffirmation])
  end.

(** [segmentEndTime] as [updateSessionPosition] computes it. *)
Definition segmentEndTime (session : StreamingSession.t) : Z :=
  let currentSegmentDuration :=
    or_default
      (GeneratedSegment.duration <$>
         js_index (StreamingSession.musicSegments session)
                  (StreamingSession.currentSegmentIndex session))
      60 in
  StreamingSession.currentSegmentIndex session * currentSegmentDuration
  + currentSegmentDuration.

(** [generateNextSegment(session)] up to its wait for the adapter. *)
Definition generateNextSegment (r : nat) (st : Service) : Service :=
  StreamingService.spawn [NextSegment r] st.

(** [updateSessionPosition(sessionId, position)], from the call to the point
    where it waits for [generateNextSegment], or to its return when it
    starts no generation.  [Ok st'] is the service at that point, not the
    settlement of the call: the generation it waits for is the [NextSegment]
    task it has added to [pending st'], and the call settles when that task
    resumes ([updateSessionPosition_await]). *)
Definition updateSessionPosition
    (sessionId : string) (position : Z) (rnd : nat) (st : Service)
    : Result Service :=
  match sessions st !! sessionId ≫= (λ r, pair r <$> heap st !! r) with
  | None => Throw Session_not_found_or_inactive
  | Some (r, session) =>
      if negb (StreamingSession.isActive session) then
        Throw Session_not_found_or_inactive
      else
        let session := StreamingSession.set_currentPosition position session in
        let '(session, events) :=
          if decide (StreamingSession.affirmationInterval session
                     <= position - StreamingSession.lastAffirmationTime session)
          then triggerAffirmation session rnd
          else (session, []) in
        let st := StreamingService.emit events (StreamingService.store r session st) in
        if decide (segmentEndTime session - 30 <= position)
        then Ok (generateNextSegment r st)
        else Ok st
  end.

Definition nextSegmentOptions : MusicGenerationOptions.t :=
  MusicGenerationOptions.mk "" 60 sleep ["peaceful"; "calm"] None.

(** The rest of [generateNextSegment] once the adapter answers.
    [answer = None]: [getServices()] was rejected. *)
Definition generateNextSegment_resume
    (r : nat) (answer : option SegmentDraw.t) (st : Service) : Service :=
  match heap st !! r with
  | None => st
  | Some session =>
      match answer ≫= generateMusicSegment nextSegmentOptions with
      | Some newSegment =>
          let pushed := StreamingSession.musicSegments session ++ [newSegment] in
          let st :=
            if decide (StreamingSession.bufferSize session + 2 < Z.of_nat (length pushed))
            then
              match pushed with
              | oldSegment :: rest =>
                  StreamingService.unlink [GeneratedSegment.audioPath oldSegment]
                    (StreamingService.store r
                       (StreamingSession.set_musicSegments rest session) st)
              | [] =>
                  StreamingService.store r
                    (StreamingSession.set_musicSegments pushed session) st
              end
            else
              StreamingService.store r
                (StreamingSession.set_musicSegments pushed session) st in
          StreamingService.emit
            [Event.newSegmentReady (StreamingSession.id session) newSegment] st
      | None =>
          StreamingService.emit [Event.error (StreamingSession.id session)] st
      end
  end.

(** The [catch] of [generateNextSegment] is entered: [getServices()] was
    rejected or [generateMusicSegment] has thrown. *)
Definition generateNextSegment_rejects (answer : option SegmentDraw.t) : bool :=
  match answer ≫= generateMusicSegment nextSegmentOptions with
  | Some _ => false
  | None => true
  end.

(** How an awaited call settles, and the service at that point. *)
Inductive Settled :=
| Resolved (st : Service)
| Rejected (e : Failure) (st : Service).

(** [await updateSessionPosition(sessionId, position)], from the call to its
    settlement, nothing else running while it waits; [answer] is what the
    adapter gives the generation it starts, if it starts one.  The [catch]
    of [generateNextSegment] ends in [this.emit('error', ...)], which throws
    for want of a listener, so that the awaited generation, and with it the
    update, is rejected. *)
Definition updateSessionPosition_await
    (sessionId : string) (position : Z) (rnd : nat) (answer : option SegmentDraw.t)
    (st : Service) : Settled :=
  match sessions st !! sessionId ≫= (λ r, pair r <$> heap st !! r) with
  | None => Rejected Session_not_found_or_inactive st
  | Some (r, session) =>
      if negb (StreamingSession.isActive session) then
        Rejected Session_not_found_or_inactive st
      else
        let session := StreamingSession.set_currentPosition position session in
        let '(session, events) :=
          if decide (StreamingSession.affirmationInterval session
                     <= position - StreamingSession.lastAffirmationTime session)
          then triggerAffirmation session rnd
          else (session, []) in
        let st := StreamingService.emit events (StreamingService.store r session st) in
        if decide (segmentEndTime session - 30 <= position) then
          let st := generateNextSegment_resume r answer st in
          if generateNextSegment_rejects answer then Rejected Unhandled_error st
          else Resolved st
        else Resolved st
  end.

(** The service when the call settles. *)
Definition settled_state (outcome : Settled) : Service :=
  match outcome with
  | Resolved st => st
  | Rejected _ st => st
  end.

(** [getSession(sessionId)] *)
Definition getSession (sessionId : string) (st : Service) : option StreamingSession.t :=
  sessions st !! sessionId ≫= (λ r, heap st !! r).

(** The paths [cleanupSession(session)] hands to [fs.unlink], in order. *)
Definition cleanupSession (session : StreamingSession.t) : list string :=
  (GeneratedSegment.audioPath <$> StreamingSession.musicSegments session)
  ++ (SynthesizedAudio.audioPath <$> StreamingSession.affirmations session).

(** [await stopSession(sessionId)], from the call to its settlement, nothing
    else running while it waits for its removals. *)
Definition stopSession (sessionId : string) (st : Service) : Result Service :=
  match sessions st !! sessionId with
  | None => Throw Session_not_found
  | Some r =>
      let st := StreamingService.set_heap
                  (alter (StreamingSession.set_isActive false) r (heap st)) st in
      let st := StreamingService.emit [Event.sessionStopped sessionId] st in
      let st := StreamingService.unlink
                  (from_option cleanupSession [] (heap st !! r)) st in
      Ok (StreamingService.set_sessions (delete sessionId (sessions st)) st)
  end.

Definition maxInactiveTime : Z := 30 * 60 * 1000.

(** The test of the sweep on one entry of [sessions]. *)
Definition sweep_selects (now : Z) (st : Service) (r : nat) : bool :=
  match heap st !! r with
  | Some session =>
      negb (StreamingSession.isActive session)
      || bool_decide (maxInactiveTime < now - StreamingSession.startTime session)
  | None => false
  end.

(** [stopSession(sessionId)] from the call to its first wait: the session is
    flagged, [sessionStopped] is emitted, and [cleanupSession] has handed
    the first of its paths to [fs.unlink] and waits for that removal.  The
    session is still registered. *)
Definition stopSession_start (sessionId : string) (st : Service)
    : Result (StopCall.t * Service) :=
  match sessions st !! sessionId with
  | None => Throw Session_not_found
  | Some r =>
      let st := StreamingService.set_heap
                  (alter (StreamingSession.set_isActive false) r (heap st)) st in
      let st := StreamingService.emit [Event.sessionStopped sessionId] st in
      let paths := from_option cleanupSession [] (heap st !! r) in
      Ok (StopCall.mk sessionId (drop 1 paths),
          StreamingService.unlink (take 1 paths) st)
  end.

(** The rest of a started [stopSession]: the remaining removals, one after
    the other, then [this.sessions.delete(sessionId)].  The removals of one
    call are taken together, as one step, and their paths are those the
    session held when the call started: what another call stores in the
    session while this one waits is not looked at, and the statements
    settle started calls with nothing else running in between. *)
Definition stopSession_resume (call : StopCall.t) (st : Service) : Service :=
  let st := StreamingService.unlink (StopCall.remaining call) st in
  StreamingService.set_sessions (delete (StopCall.sessionId call) (sessions st)) st.

(** [this.stopSession(sessionId).catch(...)]: the call is started and not
    awaited; when it throws at once, the [catch] logs it.  The started
    calls are collected in the order they were started. *)
Definition stopSession_started (started : list StopCall.t * Service) (sessionId : string)
    : list StopCall.t * Service :=
  match stopSession_start sessionId started.2 with
  | Ok (call, st') => (started.1 ++ [call], st')
  | Throw _ => started
  end.

(** The service once the started calls have settled, in the given order,
    nothing else having run in the meantime. *)
Definition settle (calls : list StopCall.t) (st : Service) : Service :=
  foldl (λ st call, stopSession_resume call st) st calls.

(** The ids [cleanupInactiveSessions] collects in [sessionsToCleanup];
    [now] is its [Date.now()].  The list is in the order of the keys, the
    code collects in insertion order. *)
Definition sessionsToCleanup (now : Z) (st : Service) : list string :=
  fst <$> filter (λ kr, sweep_selects now st (snd kr) = true) (map_to_list (sessions st)).

(** [cleanupInactiveSessions()]: the service when the pass returns, and the
    stops it has started and left to settle. *)
Definition cleanupInactiveSessions (now : Z) (st : Service) : list StopCall.t * Service :=
  foldl stopSession_started ([], st) (sessionsToCleanup now st).

(** The paths [cleanupSession] hands to [fs.unlink] for the session
    registered under [sessionId]. *)
Definition session_files (sessionId : string) (st : Service) : list string :=
  from_option cleanupSession [] (getSession sessionId st).

(** [getUserSessions(userId)]; the list is in the order of the keys, the
    code lists in insertion order. *)
Definition getUserSessions (userId : string) (st : Service) : list StreamingSession.t :=
  filter (λ session, StreamingSession.userId session = userId
                     ∧ StreamingSession.isActive session = true)
         (omap (λ kr, heap st !! snd kr) (map_to_list (sessions st))).

(** [getStreamingUrl(sessionId, segmentIndex)] *)
Definition getStreamingUrl (sessionId : string) (segmentIndex : Z) (st : Service)
    : Result string :=
  match getSession sessionId st with
  | None => Throw Session_not_found_or_inactive
  | Some session =>
      if negb (StreamingSession.isActive session) then
        Throw Session_not_found_or_inactive
      else
        match js_index (StreamingSession.musicSegments session) segmentIndex with
        | None => Throw Segment_not_found
        | Some segment => Ok (GeneratedSegment.audioPath segment)
        end
  end.

(** [getAffirmationUrl(sessionId, affirmationId)] *)
Definition getAffirmationUrl (sessionId affirmationId : string) (st : Service)
    : Result string :=
  match getSession sessionId st with
  | None => Throw Session_not_found_or_inactive
  | Some session =>
      if negb (StreamingSession.isActive session) then
        Throw Session_not_found_or_inactive
      else
        match list_find (λ a, SynthesizedAudio.id a = affirmationId)
                        (StreamingSession.affirmations session) with
        | None => Throw Affirmation_not_found
        | Some (_, affirmation) => Ok (SynthesizedAudio.audioPath affirmation)
        end
  end.

(** ** The service as a transition system *)

(** The answer of the adapters to a suspended call; each kind of call reads
    its own field. *)
Module Answer.
Record t := mk {
  batch : option (nat -> BatchDraw.t);
  voices : option (list SynthesizedAudio.t);
  segment : option SegmentDraw.t
}.
End Answer.

(** What can happen to the service: a call of one of its methods, a timer
    tick of the sweeper, or the resumption of the [k]-th suspended call.  A
    stop is a transition as a whole: [Stop] is the awaited call from start
    to settlement, [Sweep] a pass of the sweeper together with the
    settlement of the stops it has started. *)
Inductive Input :=
| Create (options : StreamingOptions.t) (trackData : TrackData.t)
         (sessionId : string) (now : Z)
| UpdatePosition (sessionId : string) (position : Z) (rnd : nat)
| Stop (sessionId : string)
| Sweep (now : Z)
| Resume (k : nat) (answer : Answer.t).

Definition resume_task (t : Task) (answer : Answer.t) (st : Service) : Service :=
  match t with
  | InitialSegments r trackData segmentDuration =>
      generateInitialSegments_resume r trackData segmentDuration (Answer.batch answer) st
  | AffirmationsForSession r affirmationTexts =>
      generateAffirmationsForSession_resume r affirmationTexts (Answer.voices answer) st
  | NextSegment r =>
      generateNextSegment_resume r (Answer.segment answer) st
  end.

Definition resume (k : nat) (answer : Answer.t) (st : Service) : Service :=
  match pending st !! k with
  | Some t => resume_task t answer (StreamingService.set_pending (delete k (pending st)) st)
  | None => st
  end.

(** A call that throws leaves the service as it was. *)
Definition or_unchanged (st : Service) (res : Result Service) : Service :=
  match res with
  | Ok st' => st'
  | Throw _ => st
  end.

Definition step (i : Input) (st : Service) : Service :=
  match i with
  | Create options trackData sessionId now =>
      snd (createStreamingSession options trackData sessionId now st)
  | UpdatePosition sessionId position rnd =>
      or_unchanged st (updateSessionPosition sessionId position rnd st)
  | Stop sessionId => or_unchanged st (stopSession sessionId st)
  | Sweep now =>
      settle (cleanupInactiveSessions now st).1 (cleanupInactiveSessions now st).2
  | Resume k answer => resume k answer st
  end.

Definition run (inputs : list Input) (st : Service) : Service :=
  foldl (λ st i, step i st) st inputs.

Inductive reachable : Service -> Prop :=
| reachable_init : reachable StreamingService.init
| reachable_step i st : reachable st -> reachable (step i st).

(** ** Measures used in the statements *)

Definition sum_durations (segments : list GeneratedSegment.t) : Z :=
  foldr (λ segment acc, GeneratedSegment.duration segment + acc) 0 segments.

(** The notifications emitted between two states of the service. *)
Definition emitted_since (st st' : Service) : list Event.t :=
  drop (length (emitted st)) (emitted st').

(** The paths handed to [fs.unlink] between two states of the service. *)
Definition unlinked_since (st st' : Service) : list string :=
  drop (length (unlinked st)) (unlinked st').

Definition is_playAffirmation (e : Event.t) : bool :=
  match e with
  | Event.playAffirmation _ _ => true
  | _ => false
  end.

Definition count_playAffirmation (events : list Event.t) : nat :=
  length (filter (λ e, is_playAffirmation e = true) events).

Definition is_NextSegment_of (r : nat) (t : Task) : bool :=
  match t with
  | NextSegment r' => bool_decide (r' = r)
  | _ => false
  end.

(** The number of generation calls of [generateNextSegment] in flight for
    the session object [r]. *)
Definition in_flight (r : nat) (st : Service) : nat :=
  length (filter (λ t, is_NextSegment_of r t = true) (pending st)).

(** ** The effect of the methods on one session object *)

(** The session object as [updateSessionPosition] leaves it, and what the
    call emits. *)
Definition after_update (session : StreamingSession.t) (position : Z) (rnd : nat)
    : StreamingSession.t * list Event.t :=
  let session := StreamingSession.set_currentPosition position session in
  if decide (StreamingSession.affirmationInterval session
             <= position - StreamingSession.lastAffirmationTime session)
  then triggerAffirmation session rnd
  else (session, []).

(** The session object [createStreamingSession] allocates. *)
Definition new_session
    (options : StreamingOptions.t) (trackData : TrackData.t)
    (sessionId : string) (now : Z) : StreamingSession.t :=
  StreamingSession.mk sessionId
    (StreamingOptions.userId options) (StreamingOptions.trackId options)
    true now 0 (TrackData.duration trackData * 60)
    (or_default (StreamingOptions.affirmationInterval options) 30)
    0 [] [] 0
    (or_default (StreamingOptions.bufferSize options) 3).

(** The session object after [generateNextSegment] has pushed [newSegment]
    and evicted, and the path it handed to [fs.unlink]. *)
Definition push_segment (session : StreamingSession.t) (newSegment : GeneratedSegment.t)
    : StreamingSession.t * list string :=
  let pushed := StreamingSession.musicSegments session ++ [newSegment] in
  if decide (StreamingSession.bufferSize session + 2 < Z.of_nat (length pushed))
  then
    match pushed with
    | oldSegment :: rest =>
        (StreamingSession.set_musicSegments rest session,
         [GeneratedSegment.audioPath oldSegment])
    | [] => (StreamingSession.set_musicSegments pushed session, [])
    end
  else (StreamingSession.set_musicSegments pushed session, []).

(** The ways a method rewrites a session object in place. *)
Inductive mutator : (StreamingSession.t -> StreamingSession.t) -> Prop :=
| mutator_stop : mutator (StreamingSession.set_isActive false)
| mutator_update position rnd :
    mutator (λ session, (after_update session position rnd).1)
| mutator_initial options draws :
    mutator (λ session,
               StreamingSession.set_musicSegments
                 (generateStreamingSegments options
                    (StreamingSession.bufferSize session) draws) session)
| mutator_affirmations synthesized :
    mutator (StreamingSession.set_affirmations synthesized)
| mutator_next newSegment :
    mutator (λ session, (push_segment session newSegment).1).

(** One change of the store: an object rewritten in place, or a new object
    allocated by [createStreamingSession]. *)
Inductive heap_step : list StreamingSession.t -> list StreamingSession.t -> Prop :=
| heap_alter h f r : mutator f -> heap_step h (alter f r h)
| heap_alloc h options trackData sessionId now :
    heap_step h (h ++ [new_session options trackData sessionId now]).

(** ** The segment end from cumulative offsets *)

(** The end offset as the spec describes it: every segment has a stored
    start offset, the sum of the durations before it, and the end of the
    segment at [currentSegmentIndex] is its start offset plus its own
    duration. *)
Fixpoint cumulative_start_offsets (start : Z) (segments : list GeneratedSegment.t) : list Z :=
  match segments with
  | [] => []
  | segment :: rest =>
      start :: cumulative_start_offsets (start + GeneratedSegment.duration segment) rest
  end.

Definition cumulative_segment_end (session : StreamingSession.t) : option Z :=
  let segments := StreamingSession.musicSegments session in
  let index := StreamingSession.currentSegmentIndex session in
  start ← js_index (cumulative_start_offsets 0 segments) index;
  segment ← js_index segments index;
  Some (start + GeneratedSegment.duration segment).

(** ** Invariants of the reachable states *)

(** The bound of the buffer, for sessions whose [bufferSize] allows it. *)
Definition buffer_bounded (session : StreamingSession.t) : Prop :=
  -2 <= StreamingSession.bufferSize session ->
  Z.of_nat (length (StreamingSession.musicSegments session))
  <= StreamingSession.bufferSize session + 2.

(** Every key of [sessions] names the object created under that id. *)
Definition registry_ids (st : Service) : Prop :=
  forall k r, sessions st !! k = Some r ->
              (StreamingSession.id <$> heap st) !! r = Some k.

(** The input creates a session under [sessionId]. *)
Definition creates (sessionId : string) (i : Input) : Prop :=
  match i with
  | Create _ _ k _ => k = sessionId
  | _ => False
  end.

(** ** Stops that are started and left to settle *)

Definition is_sessionStopped_of (sessionId : string) (e : Event.t) : bool :=
  match e with
  | Event.sessionStopped k => bool_decide (k = sessionId)
  | _ => false
  end.

(** The number of [sessionStopped] notifications for [sessionId]. *)
Definition count_sessionStopped (sessionId : string) (events : list Event.t) : nat :=
  length (filter (λ e, is_sessionStopped_of sessionId e = true) events).

(** [started] is what the sweeper or [destroy] returns on [st], and it has
    started a stop of the session registered under [sessionId], whose object
    [r] held [session].  When it returns, the session is still registered,
    its object is flagged inactive and otherwise as it was, one
    [sessionStopped] has been emitted for it, the first of its files has
    been handed to [fs.unlink] and the one started call for it holds the
    others.  Once the started calls have settled, the session is no longer
    registered and every file of it has been handed to [fs.unlink]. *)
Definition stop_started
    (st : Service) (started : list StopCall.t * Service)
    (sessionId : string) (r : nat) (session : StreamingSession.t) : Prop :=
  let calls := started.1 in
  let returned := started.2 in
  let settled := settle calls returned in
  sessions returned !! sessionId = Some r
  /\ heap returned !! r = Some (StreamingSession.set_isActive false session)
  /\ count_sessionStopped sessionId (emitted_since st returned) = 1%nat
  /\ filter (λ call, StopCall.sessionId call = sessionId) calls
     = [StopCall.mk sessionId (drop 1 (cleanupSession session))]
  /\ (forall path, path ∈ take 1 (cleanupSession session) ->
                   path ∈ unlinked_since st returned)
  /\ sessions settled !! sessionId = None
  /\ heap settled !! r = Some (StreamingSession.set_isActive false session)
  /\ (forall path, path ∈ cleanupSession session -> path ∈ unlinked_since st settled).

(** [started] has started no stop of that session: it is registered and its
    object is as it was, when [started] is returned and once the started
    calls have settled, and no [sessionStopped] has been emitted for it. *)
Definition stop_not_started
    (st : Service) (started : list StopCall.t * Service)
    (sessionId : string) (r : nat) (session : StreamingSession.t) : Prop :=
  let calls := started.1 in
  let returned := started.2 in
  let settled := settle calls returned in
  sessions returned !! sessionId = Some r
  /\ heap returned !! r = Some session
  /\ count_sessionStopped sessionId (emitted_since st returned) = 0%nat
  /\ filter (λ call, StopCall.sessionId call = sessionId) calls = []
  /\ sessions settled !! sessionId = Some r
  /\ heap settled !! r = Some session.

(** ** The affirmation schedule along a sequence of updates *)

(** The number of [playAffirmation] notifications of each of a sequence of
    position updates of one session. *)
Fixpoint play_counts (sessionId : string) (updates : list (Z * nat)) (st : Service)
    : list nat :=
  match updates with
  | [] => []
  | (position, rnd) :: rest =>
      let st' := step (UpdatePosition sessionId position rnd) st in
      count_playAffirmation (emitted_since st st') :: play_counts sessionId rest st'
  end.

(** The positions, among a sequence of position updates of one session, at
    which [playAffirmation] was emitted. *)
Fixpoint firings (sessionId : string) (updates : list (Z * nat)) (st : Service)
    : list Z :=
  match updates with
  | [] => []
  | (position, rnd) :: rest =>
      let st' := step (UpdatePosition sessionId position rnd) st in
      (if decide (0 < count_playAffirmation (emitted_since st st'))%nat
       then [position] else [])
      ++ firings sessionId rest st'
  end.

(** The session is registered, active, and has the given schedule. *)
Definition scheduled (sessionId : string) (r : nat) (interval last : Z) (st : Service) : Prop :=
  exists session,
    sessions st !! sessionId = Some r
    /\ heap st !! r = Some session
    /\ StreamingSession.isActive session = true
    /\ StreamingSession.affirmationInterval session = interval
    /\ StreamingSession.lastAffirmationTime session = last.

(** As [scheduled], with a non-empty pool of affirmations. *)
Definition scheduled_pool (sessionId : string) (r : nat) (interval last : Z) (st : Service)
    : Prop :=
  exists session,
    sessions st !! sessionId = Some r
    /\ heap st !! r = Some session
    /\ StreamingSession.isActive session = true
    /\ StreamingSession.affirmations session <> []
    /\ StreamingSession.affirmationInterval session = interval
    /\ StreamingSession.lastAffirmationTime session = last.

(** ** Sample values *)

Definition sample_draw (name : string) (ok : bool) : BatchDraw.t :=
  BatchDraw.mk name (SegmentDraw.mk name "ambient" 0 ok).

Definition all_succeed : nat -> BatchDraw.t :=
  λ i, sample_draw ("seg" +:+ pretty i) true.

Definition second_fails : nat -> BatchDraw.t :=
  λ i, sample_draw ("seg" +:+ pretty i) (negb (Nat.eqb i 1)).

Definition sample_track : TrackData.t :=
  TrackData.mk 5 sleep None ["I am calm"; "I am safe"].

Definition sample_options : StreamingOptions.t :=
  StreamingOptions.mk 7 "alice" (Some 30) (Some 3) None.

Definition sample_voice (name : string) : SynthesizedAudio.t :=
  SynthesizedAudio.mk name ("/tmp/synthesized_voice/" +:+ name +:+ ".wav") name 4 0.

Definition batch_answer (draws : nat -> BatchDraw.t) : Answer.t :=
  Answer.mk (Some draws) None None.
Definition voices_answer (l : list SynthesizedAudio.t) : Answer.t :=
  Answer.mk None (Some l) None.
Definition segment_answer (name : string) : Answer.t :=
  Answer.mk None None (Some (SegmentDraw.mk name "ambient" 0 true)).

(** A session created with [segmentDuration = -1], its initial batch
    generated: three segments of [Math.ceil(-1 / 3)], that is 0, seconds. *)
Definition zero_duration_state : Service :=
  run [Create (StreamingOptions.mk 7 "alice" (Some 30) (Some 3) (Some (-1)))
         sample_track "s1" 1000;
       Resume 0 (batch_answer all_succeed)]
      StreamingService.init.

(** The session of the sample options, its initial batch generated: three
    segments of 20 seconds. *)
Definition populated_state : Service :=
  run [Create sample_options sample_track "s1" 1000;
       Resume 0 (batch_answer all_succeed)]
      StreamingService.init.

(** A generation call whose external process fails. *)
Definition failed_draw : SegmentDraw.t := SegmentDraw.mk "x" "ambient" 0 false.

(** A session with [bufferSize = 1] after four generated segments. *)
Definition busy_state : Service :=
  run [Create (StreamingOptions.mk 7 "alice" None (Some 1) None) sample_track "s1" 1000;
       UpdatePosition "s1" 40 0; UpdatePosition "s1" 41 0;
       UpdatePosition "s1" 42 0; UpdatePosition "s1" 43 0;
       Resume 2 (segment_answer "n1"); Resume 2 (segment_answer "n2");
       Resume 2 (segment_answer "n3"); Resume 2 (segment_answer "n4")]
      StreamingService.init.

(** The segment of a generation call that resolves after the stop. *)
Definition late_segment : GeneratedSegment.t :=
  GeneratedSegment.mk "late" "/tmp/generated_music/late.wav" 60 "ambient" 0.

(** The session of the scenario: created with [affirmationInterval = 30],
    its two affirmations synthesized. *)
Definition scenario_state : Service :=
  run [Create sample_options sample_track "s1" 1000;
       Resume 1 (voices_answer [sample_voice "a1"; sample_voice "a2"])]
      StreamingService.init.

(** The session of the scenario after its affirmation at position 60. *)
Definition seek_state : Service :=
  run [UpdatePosition "s1" 60 0] scenario_state.

(** ** The rest of the streaming service *)

(** [destroy()]: the timer it clears is the environment's (no [Sweep]
    follows); what it does to the service is to start a stop for every id of
    [Array.from(this.sessions.keys())], without awaiting any.  The result
    is the service when [destroy] returns and the stops it has started, in
    the order of the keys (the code goes through them in insertion
    order). *)
Definition destroy (st : Service) : list StopCall.t * Service :=
  foldl stopSession_started ([], st) (fst <$> map_to_list (sessions st)).

(** The session object a suspended call captured. *)
Definition task_session (t : Task) : nat :=
  match t with
  | InitialSegments r _ _ => r
  | AffirmationsForSession r _ => r
  | NextSegment r => r
  end.

(** No two ids of [sessions] share a session object. *)
Definition registry_injective (st : Service) : Prop :=
  forall k1 k2 r, sessions st !! k1 = Some r -> sessions st !! k2 = Some r -> k1 = k2.

(** Two sessions of two users, their generation calls still in flight. *)
Definition two_sessions : Service :=
  run [Create sample_options sample_track "s1" 1000;
       Create (StreamingOptions.mk 8 "bob" None None None) sample_track "s2" 2000]
      StreamingService.init.

(** Two sessions created five minutes apart. *)
Definition staggered_sessions : Service :=
  run [Create sample_options sample_track "s1" 1000;
       Create (StreamingOptions.mk 8 "bob" None None None) sample_track "s2" 300000]
      StreamingService.init.

(** The segment of a successful [segment_answer]. *)
Definition sample_late (name : string) : GeneratedSegment.t :=
  GeneratedSegment.mk name (path_join outputDir (name +:+ ".wav")) 60 "ambient" 0.

(** The busy session with one more generation call in flight. *)
Definition full_state : Service :=
  run [UpdatePosition "s1" 50 0] busy_state.

(** The final state of a sequence of position updates of one session. *)
Definition run_updates (sessionId : string) (updates : list (Z * nat)) (st : Service)
    : Service :=
  run ((λ u, UpdatePosition sessionId u.1 u.2) <$> updates) st.

(** ** The batch of [generateStreamingSegments], turn by turn *)

(** The segment the [i]-th turn of the loop produces when its call
    succeeds. *)
Definition batch_segment
    (options : MusicGenerationOptions.t) (segmentCount : Z)
    (draws : nat -> BatchDraw.t) (i : nat) : GeneratedSegment.t :=
  GeneratedSegment.mk
    (SegmentDraw.segmentId (BatchDraw.segment (draws i)))
    (path_join outputDir
       (BatchDraw.pathId (draws i) +:+ "_segment_" +:+ pretty i +:+ ".wav"))
    (ceil_div (MusicGenerationOptions.duration options) segmentCount)
    (SegmentDraw.prompt (BatchDraw.segment (draws i)))
    (SegmentDraw.now (BatchDraw.segment (draws i))).

(** The turns of a loop of [n] turns whose generation call succeeds. *)
Definition successful_turns (draws : nat -> BatchDraw.t) (n : nat) : list nat :=
  filter (λ i, SegmentDraw.succeeded (BatchDraw.segment (draws i)) = true) (seq 0 n).

(** ** Removing old files ([cleanup] of [musicGeneration.ts]) *)

(** An entry of [fs.readdir(outputDir)] with what the file system answers
    for it: the [mtime] of [fs.stat] ([None] when [fs.stat] rejects) and
    whether [fs.unlink] succeeds. *)
Module DirEntry.
Record t := mk {
  file : string;
  mtime : option Z;
  unlinks : bool
}.
End DirEntry.

Definition oneHour : Z := 60 * 60 * 1000.

(** The loop of [cleanup], giving the paths it has removed; a rejected
    [fs.stat] or [fs.unlink] throws to the [catch] around the loop. *)
Fixpoint cleanup_loop (now : Z) (files : list DirEntry.t) : list string :=
  match files with
  | [] => []
  | entry :: rest =>
      let filePath := path_join outputDir (DirEntry.file entry) in
      match DirEntry.mtime entry with
      | None => []
      | Some mtime =>
          if decide (oneHour < now - mtime) then
            if DirEntry.unlinks entry then filePath :: cleanup_loop now rest else []
          else cleanup_loop now rest
      end
  end.

(** [cleanup()]; [readdir = None] when [fs.readdir] rejects, [now] is its
    [Date.now()]. *)
Definition cleanup (readdir : option (list DirEntry.t)) (now : Z) : list string :=
  match readdir with
  | Some files => cleanup_loop now files
  | None => []
  end.

(** The file is more than one hour old at [now]. *)
Definition is_old (now : Z) (entry : DirEntry.t) : bool :=
  match DirEntry.mtime entry with
  | Some mtime => bool_decide (oneHour < now - mtime)
  | None => false
  end.

(** The turn of the loop on this entry throws. *)
Definition cleanup_fails (now : Z) (entry : DirEntry.t) : bool :=
  match DirEntry.mtime entry with
  | Some mtime => bool_decide (oneHour < now - mtime) && negb (DirEntry.unlinks entry)
  | None => true
  end.

Definition sample_directory : list DirEntry.t :=
  [DirEntry.mk "a.wav" (Some 0) true;
   DirEntry.mk "b.wav" (Some (10000000 - 3600000)) true;
   DirEntry.mk "c.wav" (Some 0) false;
   DirEntry.mk "d.wav" (Some 0) true].

(** ** The cleanup of the mock voice service *)

(** [s.endsWith(suffix)], on the characters of the two strings. *)
Definition endsWith (s suffix : string) : bool :=
  bool_decide (String.list_ascii_of_string suffix
               `suffix_of` String.list_ascii_of_string s).

Module MockVoiceSynthesisService.

(** [this.sampleVoiceFiles.some(sample => sample.endsWith(file))] *)
Definition is_sample (sampleVoiceFiles : list string) (file : string) : bool :=
  existsb (λ sample, endsWith sample file) sampleVoiceFiles.

(** The loop of [cleanup] of the mock voice service in directory [dir],
    giving the paths it has removed: an entry that a sample file ends with
    is skipped before its [fs.stat]. *)
Fixpoint cleanup_loop
    (dir : string) (sampleVoiceFiles : list string) (now : Z) (files : list DirEntry.t)
    : list string :=
  match files with
  | [] => []
  | entry :: rest =>
      if is_sample sampleVoiceFiles (DirEntry.file entry) then
        cleanup_loop dir sampleVoiceFiles now rest
      else
        let filePath := path_join dir (DirEntry.file entry) in
        match DirEntry.mtime entry with
        | None => []
        | Some mtime =>
            if decide (oneHour < now - mtime) then
              if DirEntry.unlinks entry then
                filePath :: cleanup_loop dir sampleVoiceFiles now rest
              else []
            else cleanup_loop dir sampleVoiceFiles now rest
        end
  end.

Definition cleanup
    (dir : string) (sampleVoiceFiles : list string)
    (readdir : option (list DirEntry.t)) (now : Z) : list string :=
  match readdir with
  | Some files => cleanup_loop dir sampleVoiceFiles now files
  | None => []
  end.

End MockVoiceSynthesisService.

(** ** The sample files of the mock services ([createWavHeader]) *)

(** A [Buffer] is the list of its bytes. *)
Definition ascii_bytes (s : string) : list Z :=
  (λ a, Z.of_nat (Ascii.nat_of_ascii a)) <$> String.list_ascii_of_string s.

(** [Buffer.alloc(size)] *)
Definition Buffer_alloc (size : Z) : list Z := replicate (Z.to_nat size) 0.

(** [buf.write(s, offset)] for an ASCII string: the bytes that fit. *)
Definition Buffer_write (s : string) (offset : nat) (buf : list Z) : list Z :=
  list_inserts offset (ascii_bytes s) buf.

(** The [i]-th byte of [v], least significant first. *)
Definition le_byte (v : Z) (i : nat) : Z := (v / 256 ^ Z.of_nat i) mod 256.

(** [buf.writeUInt16LE] and [buf.writeUInt32LE]: [None] is the [RangeError]
    thrown for a value or an offset out of range. *)
Definition writeUIntLE (width : nat) (value : Z) (offset : nat) (buf : list Z)
    : option (list Z) :=
  if decide (0 <= value <= 2 ^ (8 * Z.of_nat width) - 1) then
    if decide (offset + width <= length buf)%nat then
      Some (list_inserts offset (le_byte value <$> seq 0 width) buf)
    else None
  else None.

Definition writeUInt16LE := writeUIntLE 2.
Definition writeUInt32LE := writeUIntLE 4.

(** [buf.readUInt16LE] and [buf.readUInt32LE], for an offset in range. *)
Definition readUIntLE (width : nat) (offset : nat) (buf : list Z) : Z :=
  foldr (λ b acc, b + 256 * acc) 0 (take width (drop offset buf)).

(** [createWavHeader(durationSeconds)] *)
Definition createWavHeader (durationSeconds : Z) : option (list Z) :=
  let sampleRate := 44100 in
  let numChannels := 2 in
  let bitsPerSample := 16 in
  let dataSize := durationSeconds * sampleRate * numChannels * (bitsPerSample / 8) in
  let fileSize := 36 + dataSize in
  let header := Buffer_alloc 44 in
  let header := Buffer_write "RIFF" 0 header in
  header ← writeUInt32LE fileSize 4 header;
  let header := Buffer_write "WAVE" 8 header in
  let header := Buffer_write "fmt " 12 header in
  header ← writeUInt32LE 16 16 header;
  header ← writeUInt16LE 1 20 header;
  header ← writeUInt16LE numChannels 22 header;
  header ← writeUInt32LE sampleRate 24 header;
  header ← writeUInt32LE (sampleRate * numChannels * (bitsPerSample / 8)) 28 header;
  header ← writeUInt16LE (numChannels * (bitsPerSample / 8)) 32 header;
  header ← writeUInt16LE bitsPerSample 34 header;
  let header := Buffer_write "data" 36 header in
  writeUInt32LE dataSize 40 header.

(** The 44 bytes of the header of a file with [dataSize] bytes of samples,
    written out. *)
Definition wav_header_bytes (dataSize : Z) : list Z :=
  [82; 73; 70; 70;
   le_byte (36 + dataSize) 0; le_byte (36 + dataSize) 1;
   le_byte (36 + dataSize) 2; le_byte (36 + dataSize) 3;
   87; 65; 86; 69;
   102; 109; 116; 32;
   16; 0; 0; 0;
   1; 0;
   2; 0;
   68; 172; 0; 0;
   16; 177; 2; 0;
   4; 0;
   16; 0;
   100; 97; 116; 97;
   le_byte dataSize 0; le_byte dataSize 1; le_byte dataSize 2; le_byte dataSize 3].

(** The [wavFile] that [createSampleAudioFiles] writes for a sample of
    [duration] seconds; [Buffer.alloc] is taken to succeed (the sizes stay
    below 2^32). *)
Definition wavFile (duration : Z) : option (list Z) :=
  wavHeader ← createWavHeader duration;
  let silentAudio := Buffer_alloc (duration * 44100 * 2 * 2) in
  Some (wavHeader ++ silentAudio).

(** ** The streaming routes ([routes.ts]) *)

(** The entry of [GET /api/stream/sessions] for one session. *)
Module SessionSummary.
Record t := mk {
  id : string;
  trackId : Z;
  startTime : Z;
  currentPosition : Z;
  totalDuration : Z;
  isActive : bool
}.
End SessionSummary.

(** The JSON bodies of the streaming routes. *)
Inductive Body :=
| Message (message : string)
| Success
| Started (sessionId : string) (affirmationInterval totalDuration : Z)
| Sessions (entries : list SessionSummary.t).

(** A response: its status and its body. *)
Definition Reply : Type := nat * Body.

(** A track row of the storage: its owner and what the service reads. *)
Module Track.
Record t := mk {
  userId : string;
  data : TrackData.t
}.
End Track.

(** [POST /api/stream/start] for the authenticated [userId].  [fetched] is
    the answer of [storage.getTrack(trackId)]: [None] when it rejects,
    [Some None] for [undefined]. *)
Definition stream_start
    (userId : string) (trackId affirmationInterval bufferSize segmentDuration : option Z)
    (fetched : option (option Track.t)) (uuid : string) (now : Z) (st : Service)
    : Reply * Service :=
  match trackId with
  | None => ((400%nat, Message "Track ID is required"), st)
  | Some trackId =>
      if decide (trackId = 0) then ((400%nat, Message "Track ID is required"), st)
      else
        match fetched with
        | None => ((500%nat, Message "Failed to start streaming session"), st)
        | Some None => ((403%nat, Message "Access denied"), st)
        | Some (Some track) =>
            if decide (Track.userId track = userId) then
              let '(r, st') :=
                createStreamingSession
                  (StreamingOptions.mk trackId userId affirmationInterval bufferSize
                     segmentDuration)
                  (Track.data track) uuid now st in
              match heap st' !! r with
              | Some session =>
                  ((200%nat,
                    Started (StreamingSession.id session)
                      (StreamingSession.affirmationInterval session)
                      (StreamingSession.totalDuration session)), st')
              | None => ((500%nat, Message "Failed to start streaming session"), st')
              end
            else ((403%nat, Message "Access denied"), st)
        end
  end.

(** The guard shared by the routes of one session:
    [!session || session.userId !== userId]. *)
Definition access_denied (userId sessionId : string) (st : Service) : bool :=
  match getSession sessionId st with
  | Some session => negb (bool_decide (StreamingSession.userId session = userId))
  | None => true
  end.

(** [POST /api/stream/:sessionId/position]: the route awaits the update and
    answers when it settles; [answer] is what the adapter gives the
    generation the update starts, if it starts one. *)
Definition stream_position
    (userId sessionId : string) (position : Z) (rnd : nat)
    (answer : option SegmentDraw.t) (st : Service)
    : Reply * Service :=
  if access_denied userId sessionId st then ((403%nat, Message "Access denied"), st)
  else
    match updateSessionPosition_await sessionId position rnd answer st with
    | Resolved st' => ((200%nat, Success), st')
    | Rejected _ st' => ((500%nat, Message "Failed to update position"), st')
    end.

(** [POST /api/stream/:sessionId/stop]: the route awaits the stop. *)
Definition stream_stop (userId sessionId : string) (st : Service) : Reply * Service :=
  if access_denied userId sessionId st then ((403%nat, Message "Access denied"), st)
  else
    match stopSession sessionId st with
    | Ok st' => ((200%nat, Message "Streaming session stopped"), st')
    | Throw _ => ((500%nat, Message "Failed to stop streaming session"), st)
    end.

Definition summary (session : StreamingSession.t) : SessionSummary.t :=
  SessionSummary.mk
    (StreamingSession.id session) (StreamingSession.trackId session)
    (StreamingSession.startTime session) (StreamingSession.currentPosition session)
    (StreamingSession.totalDuration session) (StreamingSession.isActive session).

(** [GET /api/stream/sessions] *)
Definition stream_sessions (userId : string) (st : Service) : Reply :=
  (200%nat, Sessions (summary <$> getUserSessions userId st)).

(** ** The batch generator *)

Section BatchGenerator.
Variable options : MusicGenerationOptions.t.
Variable segmentDuration : Z.
Variable draws : nat -> BatchDraw.t.

Local Abbreviation loop := (generateStreamingSegments_loop options segmentDuration draws).

Lemma generateMusicSegment_duration opts d segment :
  generateMusicSegment opts d = Some segment ->
  GeneratedSegment.duration segment = MusicGenerationOptions.duration opts.
Proof.
  unfold generateMusicSegment.
  destruct (SegmentDraw.succeeded d); [|discriminate].
  intros [= <-]. reflexivity.
Qed.

Lemma generateMusicSegment_succeeds opts d :
  SegmentDraw.succeeded d = true -> is_Some (generateMusicSegment opts d).
Proof. unfold generateMusicSegment. intros ->. eauto. Qed.

Lemma loop_length i n : (length (loop i n) <= n)%nat.
Proof.
  revert i. induction n as [|n IH]; intros i; simpl; [lia|].
  destruct (generateMusicSegment _ _); simpl; specialize (IH (S i)); lia.
Qed.

Lemma loop_durations i n :
  Forall (λ segment, GeneratedSegment.duration segment = segmentDuration) (loop i n).
Proof.
  revert i. induction n as [|n IH]; intros i; simpl; [constructor|].
  destruct (generateMusicSegment _ _) as [segment|] eqn:E; [|apply IH].
  constructor; [|apply IH].
  apply generateMusicSegment_duration in E. exact E.
Qed.

Lemma loop_all_succeed i n :
  (forall j, (i <= j < i + n)%nat ->
             SegmentDraw.succeeded (BatchDraw.segment (draws j)) = true) ->
  length (loop i n) = n.
Proof.
  revert i. induction n as [|n IH]; intros i Hok; simpl; [reflexivity|].
  destruct (generateMusicSegment_succeeds
              (with_segment_options options segmentDuration
                 (path_join outputDir
                    (BatchDraw.pathId (draws i) +:+ "_segment_" +:+ pretty i +:+ ".wav")))
              (BatchDraw.segment (draws i))) as [segment ->].
  { apply Hok. lia. }
  simpl. f_equal. apply IH. intros j Hj. apply Hok. lia.
Qed.
End BatchGenerator.

Lemma sum_durations_uniform d segments :
  Forall (λ segment, GeneratedSegment.duration segment = d) segments ->
  sum_durations segments = Z.of_nat (length segments) * d.
Proof.
  induction 1 as [|segment segments Hd _ IH]; simpl; [lia|].
  rewrite IH, Hd. lia.
Qed.

(** Rounding up loses nothing: [count] pieces of [ceil_div total count]
    cover [total]. *)
Lemma ceil_div_covers total count :
  0 < count -> total <= count * ceil_div total count.
Proof.
  intros Hc. unfold ceil_div.
  pose proof (Z.mul_div_le (- total) count Hc). lia.
Qed.

Lemma generateStreamingSegments_length options segmentCount draws :
  (length (generateStreamingSegments options segmentCount draws) <= Z.to_nat segmentCount)%nat.
Proof. apply loop_length. Qed.

Lemma generateStreamingSegments_durations options segmentCount draws :
  Forall (λ segment, GeneratedSegment.duration segment
                     = ceil_div (MusicGenerationOptions.duration options) segmentCount)
         (generateStreamingSegments options segmentCount draws).
Proof. apply loop_durations. Qed.

Lemma generateStreamingSegments_all_succeed options segmentCount draws :
  (forall j, (j < Z.to_nat segmentCount)%nat ->
             SegmentDraw.succeeded (BatchDraw.segment (draws j)) = true) ->
  length (generateStreamingSegments options segmentCount draws) = Z.to_nat segmentCount.
Proof. intros H. apply loop_all_succeed. intros j Hj. apply H. lia. Qed.

(** What [generateInitialSegments] leaves in the session. *)
Lemma generateInitialSegments_resume_segments r trackData segmentDuration draws st session :
  heap st !! r = Some session ->
  heap (generateInitialSegments_resume r trackData segmentDuration (Some draws) st) !! r
  = Some (StreamingSession.set_musicSegments
            (generateStreamingSegments
               (MusicGenerationOptions.mk "" segmentDuration
                  (TrackData.trackType trackData)
                  (default ["peaceful"; "calm"] (TrackData.moodTags trackData)) None)
               (StreamingSession.bufferSize session) draws)
            session).
Proof.
  intros Hs. unfold generateInitialSegments_resume. rewrite Hs. simpl.
  apply list_lookup_insert_eq. eapply lookup_lt_Some; eauto.
Qed.

(** C1, as the spec states it, fails: a session with [bufferSize = 3] on a
    five-minute track ([totalDuration = 300]) whose three generation calls
    all succeed holds three segments of 20 seconds, 60 seconds in all; and
    when one of the calls fails it holds two segments. *)
Lemma initial_segments_fall_short :
  (exists session,
      getSession "s1"
        (run [Create sample_options sample_track "s1" 1000;
              Resume 0 (batch_answer all_succeed)] StreamingService.init)
      = Some session
      /\ StreamingSession.bufferSize session = 3
      /\ StreamingSession.totalDuration session = 300
      /\ length (StreamingSession.musicSegments session) = 3%nat
      /\ sum_durations (StreamingSession.musicSegments session) = 60
      /\ ~ (StreamingSession.totalDuration session
            <= sum_durations (StreamingSession.musicSegments session)))
  /\ (exists session,
      getSession "s1"
        (run [Create sample_options sample_track "s1" 1000;
              Resume 0 (batch_answer second_fails)] StreamingService.init)
      = Some session
      /\ StreamingSession.bufferSize session = 3
      /\ StreamingSession.totalDuration session = 300
      /\ length (StreamingSession.musicSegments session) = 2%nat).
Proof.
  split.
  - eexists. split; [vm_compute; reflexivity|].
    repeat split; try reflexivity. vm_compute. intros H. apply H. reflexivity.
  - eexists. split; [vm_compute; reflexivity|].
    repeat split; reflexivity.
Qed.

(** C1 (amended): for a session with [bufferSize = 3] the initial population
    asks the batch generator for three segments of [ceil_div D 3] seconds
    each, [D] being the duration it hands to the generator; the session then
    holds at most three segments, each of that duration, and when the three
    generation calls succeed it holds exactly three, whose recorded
    durations sum to at least [D]. *)
Theorem initial_segments_cover_requested_duration
    (st : Service) (r : nat) (session : StreamingSession.t)
    (trackData : TrackData.t) (D : Z) (draws : nat -> BatchDraw.t) :
  heap st !! r = Some session ->
  StreamingSession.bufferSize session = 3 ->
  exists session',
    heap (generateInitialSegments_resume r trackData D (Some draws) st) !! r = Some session'
    /\ (length (StreamingSession.musicSegments session') <= 3)%nat
    /\ Forall (λ segment, GeneratedSegment.duration segment = ceil_div D 3)
              (StreamingSession.musicSegments session')
    /\ ((forall j, (j < 3)%nat -> SegmentDraw.succeeded (BatchDraw.segment (draws j)) = true) ->
        length (StreamingSession.musicSegments session') = 3%nat
        /\ D <= sum_durations (StreamingSession.musicSegments session')).
Proof.
  intros Hs Hb.
  eexists. split; [apply generateInitialSegments_resume_segments; exact Hs|].
  rewrite Hb. simpl.
  set (opts := MusicGenerationOptions.mk _ _ _ _ _).
  pose proof (generateStreamingSegments_length opts 3 draws) as Hlen.
  pose proof (generateStreamingSegments_durations opts 3 draws) as Hdur.
  split; [exact Hlen|]. split; [exact Hdur|].
  intros Hok.
  pose proof (generateStreamingSegments_all_succeed opts 3 draws Hok) as Hthree.
  split; [exact Hthree|].
  rewrite (sum_durations_uniform _ _ Hdur), Hthree.
  change (MusicGenerationOptions.duration opts) with D.
  pose proof (ceil_div_covers D 3). lia.
Qed.

(** An instance: the session of the sample track, whose three generation
    calls succeed, ends up with three segments covering the 60 seconds asked
    for. *)
Lemma initial_segments_cover_requested_duration_witness :
  exists session',
    heap (generateInitialSegments_resume 0 sample_track 60 (Some all_succeed)
            (snd (createStreamingSession sample_options sample_track "s1" 1000
                    StreamingService.init))) !! 0%nat = Some session'
    /\ length (StreamingSession.musicSegments session') = 3%nat
    /\ 60 <= sum_durations (StreamingSession.musicSegments session').
Proof.
  destruct (initial_segments_cover_requested_duration
              (snd (createStreamingSession sample_options sample_track "s1" 1000
                      StreamingService.init))
              0 _ sample_track 60 all_succeed eq_refl eq_refl)
    as (session' & Hs & _ & _ & Hok).
  exists session'. split; [exact Hs|].
  apply Hok. intros j Hj. reflexivity.
Defined.

(** ** Position updates *)

Lemma triggerAffirmation_segments session rnd :
  StreamingSession.musicSegments (triggerAffirmation session rnd).1
  = StreamingSession.musicSegments session
  /\ StreamingSession.currentSegmentIndex (triggerAffirmation session rnd).1
     = StreamingSession.currentSegmentIndex session.
Proof.
  unfold triggerAffirmation.
  destruct (StreamingSession.affirmations session); split; reflexivity.
Qed.

Lemma after_update_segmentEndTime session position rnd :
  segmentEndTime (after_update session position rnd).1 = segmentEndTime session.
Proof.
  unfold after_update. case_decide; [|reflexivity].
  unfold segmentEndTime.
  destruct (triggerAffirmation_segments
              (StreamingSession.set_currentPosition position session) rnd) as [-> ->].
  reflexivity.
Qed.

(** The effect of a position update on a registered, active session, field
    by field. *)
Lemma updateSessionPosition_active st sessionId r session position rnd :
  sessions st !! sessionId = Some r ->
  heap st !! r = Some session ->
  StreamingSession.isActive session = true ->
  exists st',
    updateSessionPosition sessionId position rnd st = Ok st'
    /\ sessions st' = sessions st
    /\ heap st' = <[r := (after_update session position rnd).1]> (heap st)
    /\ pending st' = pending st ++
                     (if decide (segmentEndTime session - 30 <= position)
                      then [NextSegment r] else [])
    /\ emitted st' = emitted st ++ (after_update session position rnd).2
    /\ unlinked st' = unlinked st.
Proof.
  intros Hreg Hobj Hact.
  unfold updateSessionPosition. rewrite Hreg. simpl. rewrite Hobj. simpl.
  rewrite Hact. simpl.
  pose proof (after_update_segmentEndTime session position rnd) as Hend.
  unfold after_update in *. simpl in *.
  destruct (if decide _ then _ else _) as [session' events]. simpl in *.
  rewrite Hend.
  case_decide; eexists; (split; [reflexivity|]); simpl;
    rewrite ?app_nil_r; repeat split; reflexivity.
Qed.

(** *** The segment end *)

Lemma cumulative_start_offsets_lookup start segments n :
  (n < length segments)%nat ->
  cumulative_start_offsets start segments !! n
  = Some (start + sum_durations (take n segments)).
Proof.
  revert start n. induction segments as [|segment rest IH]; intros start n Hn; simpl in *.
  - lia.
  - destruct n as [|n]; simpl.
    + f_equal. lia.
    + rewrite IH by lia. f_equal. lia.
Qed.

Lemma segmentEndTime_cumulative session segment :
  js_index (StreamingSession.musicSegments session)
           (StreamingSession.currentSegmentIndex session) = Some segment ->
  GeneratedSegment.duration segment <> 0 ->
  Forall (λ earlier, GeneratedSegment.duration earlier = GeneratedSegment.duration segment)
         (take (Z.to_nat (StreamingSession.currentSegmentIndex session))
               (StreamingSession.musicSegments session)) ->
  cumulative_segment_end session = Some (segmentEndTime session).
Proof.
  intros Hseg Hnz Huniform.
  unfold cumulative_segment_end, segmentEndTime. rewrite Hseg. simpl.
  unfold js_index in *. case_decide as Hidx; [|discriminate].
  pose proof (lookup_lt_Some _ _ _ Hseg) as Hlt.
  rewrite (cumulative_start_offsets_lookup 0 _ _ Hlt). simpl.
  rewrite (sum_durations_uniform _ _ Huniform).
  rewrite length_take, Nat.min_l by lia.
  unfold or_default. case_decide; [contradiction|].
  f_equal. lia.
Qed.

(** ** Suspended calls *)

Lemma reachable_run inputs st : reachable st -> reachable (run inputs st).
Proof.
  revert st. induction inputs as [|i inputs IH]; intros st Hst; simpl; [exact Hst|].
  apply IH. constructor. exact Hst.
Qed.

Ltac unfold_resume :=
  unfold generateInitialSegments_resume, generateAffirmationsForSession_resume,
    generateNextSegment_resume;
  repeat match goal with
    | |- context [match ?x with _ => _ end] => destruct x; simpl
    end.

(** Resuming a call only removes that call from the suspended ones. *)
Lemma resume_task_pending t answer st :
  pending (resume_task t answer st) = pending st.
Proof. destruct t; simpl; unfold_resume; reflexivity. Qed.

Lemma resume_task_sessions t answer st :
  sessions (resume_task t answer st) = sessions st.
Proof. destruct t; simpl; unfold_resume; reflexivity. Qed.

Lemma resume_pending k answer st t :
  pending st !! k = Some t ->
  pending (resume k answer st) = delete k (pending st).
Proof.
  intros Hk. unfold resume. rewrite Hk. rewrite resume_task_pending. reflexivity.
Qed.

Lemma filter_delete_length {A} (P : A -> Prop) `{forall x, Decision (P x)} (l : list A) k x :
  l !! k = Some x ->
  length (filter P l)
  = (length (filter P (delete k l)) + (if decide (P x) then 1 else 0))%nat.
Proof.
  revert k. induction l as [|y l IH]; intros k Hk; [discriminate|].
  destruct k as [|k]; simpl in *.
  - injection Hk as ->. rewrite filter_cons. case_decide; simpl; lia.
  - rewrite !filter_cons. specialize (IH k Hk).
    destruct (decide (P y)); simpl; lia.
Qed.

(** C3, as the spec states it, fails: in the state reached by creating a
    session and reporting position 40, one generation call is in flight;
    the update to position 45 issues a second one. *)
Lemma second_generation_call_in_flight :
  let st1 := run [Create sample_options sample_track "s1" 1000;
                  UpdatePosition "s1" 40 0] StreamingService.init in
  reachable st1
  /\ sessions st1 !! "s1" = Some 0%nat
  /\ in_flight 0 st1 = 1%nat
  /\ exists st2, updateSessionPosition "s1" 45 0 st1 = Ok st2
                 /\ in_flight 0 st2 = 2%nat.
Proof.
  cbv zeta. split; [apply reachable_run; constructor|].
  split; [reflexivity|]. split; [reflexivity|].
  eexists. split; [vm_compute; reflexivity|]. reflexivity.
Qed.

(** C3 (amended): the service has no single-flight guard.  Every position
    update of an active session that crosses the growth trigger issues one
    more generation call, whatever the number of calls already in flight for
    the session, and an update that does not cross it issues none; a call
    leaves the calls in flight when it resumes. *)
Theorem every_crossing_update_issues_a_call
    (st : Service) (sessionId : string) (r : nat) (session : StreamingSession.t)
    (position : Z) (rnd : nat) :
  sessions st !! sessionId = Some r ->
  heap st !! r = Some session ->
  StreamingSession.isActive session = true ->
  (exists st',
      updateSessionPosition sessionId position rnd st = Ok st'
      /\ in_flight r st'
         = (in_flight r st
            + (if decide (segmentEndTime session - 30 <= position)%Z then 1 else 0))%nat)
  /\ (forall k answer,
        pending st !! k = Some (NextSegment r) ->
        in_flight r st = S (in_flight r (resume k answer st))).
Proof.
  intros Hreg Hobj Hact. split.
  - destruct (updateSessionPosition_active st sessionId r session position rnd Hreg Hobj Hact)
      as (st' & Hup & _ & _ & Hpend & _).
    exists st'. split; [exact Hup|].
    unfold in_flight. rewrite Hpend, filter_app, length_app. f_equal.
    case_decide; [|reflexivity].
    rewrite filter_cons. simpl. rewrite bool_decide_true by reflexivity.
    case_decide; [reflexivity|congruence].
  - intros k answer Hk. unfold in_flight.
    rewrite (resume_pending k answer st _ Hk).
    rewrite (filter_delete_length _ (pending st) k _ Hk).
    simpl. rewrite bool_decide_true by reflexivity.
    case_decide; [lia|congruence].
Qed.

(** An instance: the second crossing update of the counterexample adds a
    call to the one in flight. *)
Lemma every_crossing_update_issues_a_call_witness :
  let st1 := run [Create sample_options sample_track "s1" 1000;
                  UpdatePosition "s1" 40 0] StreamingService.init in
  exists st2, updateSessionPosition "s1" 45 0 st1 = Ok st2
              /\ in_flight 0 st2 = (in_flight 0 st1 + 1)%nat.
Proof.
  cbv zeta.
  destruct (every_crossing_update_issues_a_call
              (run [Create sample_options sample_track "s1" 1000;
                    UpdatePosition "s1" 40 0] StreamingService.init)
              "s1" 0
              (StreamingSession.mk "s1" "alice" 7 true 1000 40 300 30 0 [] [] 0 3)
              45 0 eq_refl eq_refl eq_refl) as ((st2 & Hup & Hcount) & _).
  exists st2. split; [exact Hup|]. exact Hcount.
Defined.

(** ** How the session objects evolve *)

Lemma createStreamingSession_fields options trackData sessionId now st :
  let st' := snd (createStreamingSession options trackData sessionId now st) in
  fst (createStreamingSession options trackData sessionId now st) = length (heap st)
  /\ sessions st' = <[sessionId := length (heap st)]> (sessions st)
  /\ heap st' = heap st ++ [new_session options trackData sessionId now]
  /\ pending st' = pending st ++
                   [InitialSegments (length (heap st)) trackData
                      (or_default (StreamingOptions.segmentDuration options) 60);
                    AffirmationsForSession (length (heap st))
                      (TrackData.affirmations trackData)]
  /\ emitted st' = emitted st
  /\ unlinked st' = unlinked st.
Proof.
  simpl. repeat split; try reflexivity.
  rewrite <- app_assoc. reflexivity.
Qed.

Lemma generateNextSegment_resume_success r answer st session newSegment :
  heap st !! r = Some session ->
  answer ≫= generateMusicSegment nextSegmentOptions = Some newSegment ->
  let st' := generateNextSegment_resume r answer st in
  sessions st' = sessions st
  /\ heap st' = <[r := (push_segment session newSegment).1]> (heap st)
  /\ pending st' = pending st
  /\ emitted st' = emitted st ++ [Event.newSegmentReady (StreamingSession.id session) newSegment]
  /\ unlinked st' = unlinked st ++ (push_segment session newSegment).2.
Proof.
  intros Hobj Hgen. unfold generateNextSegment_resume, push_segment.
  rewrite Hobj, Hgen.
  case_decide; [destruct (StreamingSession.musicSegments session ++ [newSegment])|];
    simpl; rewrite ?app_nil_r; repeat split; reflexivity.
Qed.

Lemma stopSession_registered sessionId st r :
  sessions st !! sessionId = Some r ->
  exists st',
    stopSession sessionId st = Ok st'
    /\ sessions st' = delete sessionId (sessions st)
    /\ heap st' = alter (StreamingSession.set_isActive false) r (heap st)
    /\ pending st' = pending st
    /\ emitted st' = emitted st ++ [Event.sessionStopped sessionId]
    /\ unlinked st' = unlinked st ++ from_option cleanupSession [] (heap st !! r).
Proof.
  intros Hreg. unfold stopSession. rewrite Hreg.
  eexists. split; [reflexivity|]. simpl. repeat split.
  f_equal. rewrite list_lookup_alter.
  case_decide; [|congruence].
  destruct (heap st !! r); reflexivity.
Qed.

Lemma stopSession_unregistered sessionId st :
  sessions st !! sessionId = None ->
  stopSession sessionId st = Throw Session_not_found.
Proof. intros Hreg. unfold stopSession. rewrite Hreg. reflexivity. Qed.

Lemma list_insert_alter {A} (f : A -> A) (l : list A) i x :
  l !! i = Some x -> <[i := f x]> l = alter f i l.
Proof.
  revert i. induction l as [|y l IH]; intros i Hi; [discriminate|].
  destruct i as [|i]; simpl in *.
  - injection Hi as ->. reflexivity.
  - f_equal. apply IH. exact Hi.
Qed.

Lemma heap_store_step st r session f :
  heap st !! r = Some session -> mutator f ->
  heap_step (heap st) (<[r := f session]> (heap st)).
Proof.
  intros Hobj Hf. rewrite (list_insert_alter f _ _ _ Hobj). constructor. exact Hf.
Qed.

Lemma resume_task_heap t answer st :
  heap (resume_task t answer st) = heap st
  \/ heap_step (heap st) (heap (resume_task t answer st)).
Proof.
  destruct t as [r trackData segmentDuration | r texts | r]; simpl.
  - unfold generateInitialSegments_resume.
    destruct (heap st !! r) as [session|] eqn:Hobj; [|left; reflexivity].
    destruct (Answer.batch answer) as [draws|]; [|left; reflexivity].
    right. simpl.
    apply (heap_store_step st r session
             (λ session, StreamingSession.set_musicSegments
                           (generateStreamingSegments _ (StreamingSession.bufferSize session) draws)
                           session) Hobj).
    constructor.
  - unfold generateAffirmationsForSession_resume.
    destruct (heap st !! r) as [session|] eqn:Hobj; [|left; reflexivity].
    destruct (Answer.voices answer) as [synthesized|]; [|left; reflexivity].
    right. simpl.
    apply (heap_store_step st r session (StreamingSession.set_affirmations synthesized) Hobj).
    constructor.
  - destruct (heap st !! r) as [session|] eqn:Hobj.
    + destruct (Answer.segment answer ≫= generateMusicSegment nextSegmentOptions)
        as [newSegment|] eqn:Hgen.
      * right.
        destruct (generateNextSegment_resume_success r _ st session newSegment Hobj Hgen)
          as (_ & -> & _).
        apply (heap_store_step st r session
                 (λ session, (push_segment session newSegment).1) Hobj).
        constructor.
      * left. unfold generateNextSegment_resume. rewrite Hobj, Hgen. reflexivity.
    + left. unfold generateNextSegment_resume. rewrite Hobj. reflexivity.
Qed.

Lemma updateSessionPosition_heap sessionId position rnd st st' :
  updateSessionPosition sessionId position rnd st = Ok st' ->
  sessions st' = sessions st /\ heap_step (heap st) (heap st').
Proof.
  intros Hup.
  destruct (sessions st !! sessionId) as [r|] eqn:Hreg;
    [|unfold updateSessionPosition in Hup; rewrite Hreg in Hup; discriminate].
  destruct (heap st !! r) as [session|] eqn:Hobj;
    [|unfold updateSessionPosition in Hup; rewrite Hreg in Hup; simpl in Hup;
      rewrite Hobj in Hup; discriminate].
  destruct (StreamingSession.isActive session) eqn:Hact;
    [|unfold updateSessionPosition in Hup; rewrite Hreg in Hup; simpl in Hup;
      rewrite Hobj in Hup; simpl in Hup; rewrite Hact in Hup; discriminate].
  destruct (updateSessionPosition_active st sessionId r session position rnd Hreg Hobj Hact)
    as (st'' & Hup' & Hsess & Hheap & _).
  rewrite Hup in Hup'. injection Hup' as <-.
  split; [exact Hsess|]. rewrite Hheap.
  apply (heap_store_step st r session (λ session, (after_update session position rnd).1) Hobj).
  constructor.
Qed.

Lemma stopSession_step_sessions st sessionId :
  sessions (or_unchanged st (stopSession sessionId st)) = delete sessionId (sessions st).
Proof.
  destruct (sessions st !! sessionId) as [r|] eqn:Hreg.
  - destruct (stopSession_registered sessionId st r Hreg) as (st' & -> & Hs & _). exact Hs.
  - rewrite (stopSession_unregistered _ _ Hreg). symmetry. apply delete_id. exact Hreg.
Qed.

Lemma stopSession_step_heap st sessionId :
  heap (or_unchanged st (stopSession sessionId st)) = heap st
  \/ heap_step (heap st) (heap (or_unchanged st (stopSession sessionId st))).
Proof.
  destruct (sessions st !! sessionId) as [r|] eqn:Hreg.
  - destruct (stopSession_registered sessionId st r Hreg) as (st' & -> & _ & Hh & _).
    right. simpl. rewrite Hh. constructor. constructor.
  - rewrite (stopSession_unregistered _ _ Hreg). left. reflexivity.
Qed.

(** ** Stops that are started and not awaited *)

Lemma session_files_registered sessionId st r :
  sessions st !! sessionId = Some r ->
  session_files sessionId st = from_option cleanupSession [] (heap st !! r).
Proof. intros Hreg. unfold session_files, getSession. rewrite Hreg. reflexivity. Qed.

(** Flagging a session leaves the files of every session. *)
Lemma session_files_flagged sessionId st st' r :
  sessions st' = sessions st ->
  heap st' = alter (StreamingSession.set_isActive false) r (heap st) ->
  session_files sessionId st' = session_files sessionId st.
Proof.
  intros Hs Hh. unfold session_files, getSession. rewrite Hs, Hh.
  destruct (sessions st !! sessionId) as [r'|]; simpl; [|reflexivity].
  rewrite list_lookup_alter. case_decide; [|reflexivity].
  subst r'. destruct (heap st !! r); reflexivity.
Qed.

Lemma stopSession_start_registered sessionId st r :
  sessions st !! sessionId = Some r ->
  exists st',
    stopSession_start sessionId st
    = Ok (StopCall.mk sessionId (drop 1 (session_files sessionId st)), st')
    /\ sessions st' = sessions st
    /\ heap st' = alter (StreamingSession.set_isActive false) r (heap st)
    /\ pending st' = pending st
    /\ emitted st' = emitted st ++ [Event.sessionStopped sessionId]
    /\ unlinked st' = unlinked st ++ take 1 (session_files sessionId st).
Proof.
  intros Hreg. unfold stopSession_start.
  rewrite (session_files_registered _ _ _ Hreg), Hreg. simpl.
  rewrite list_lookup_alter. case_decide; [|congruence].
  destruct (heap st !! r); eexists; (split; [reflexivity|]); repeat split.
Qed.

(** The awaited stop is the started stop followed by its resumption. *)
Lemma stopSession_split sessionId st :
  stopSession sessionId st
  = match stopSession_start sessionId st with
    | Ok (call, st') => Ok (stopSession_resume call st')
    | Throw e => Throw e
    end.
Proof.
  unfold stopSession, stopSession_start.
  destruct (sessions st !! sessionId) as [r|]; [|reflexivity].
  unfold stopSession_resume, StreamingService.unlink, StreamingService.set_sessions.
  simpl. rewrite <- app_assoc, take_drop. reflexivity.
Qed.

(** The stops of registered sessions, started one after the other. *)
Lemma stopSession_started_fold ids : forall calls st,
  Forall (λ sessionId, is_Some (sessions st !! sessionId)) ids ->
  let started := foldl stopSession_started (calls, st) ids in
  started.1
  = calls ++ ((λ sessionId,
                 StopCall.mk sessionId (drop 1 (session_files sessionId st))) <$> ids)
  /\ sessions started.2 = sessions st
  /\ pending started.2 = pending st
  /\ emitted started.2 = emitted st ++ (Event.sessionStopped <$> ids)
  /\ unlinked started.2
     = unlinked st ++ concat ((λ sessionId, take 1 (session_files sessionId st)) <$> ids)
  /\ (forall r,
        heap started.2 !! r
        = if decide (Exists (λ sessionId, sessions st !! sessionId = Some r) ids)
          then StreamingSession.set_isActive false <$> heap st !! r
          else heap st !! r)
  /\ rtc heap_step (heap st) (heap started.2).
Proof.
  induction ids as [|sessionId ids IH]; intros calls st Hall; cbv zeta.
  - simpl. rewrite !app_nil_r. repeat split; reflexivity.
  - apply Forall_cons in Hall as [[r Hreg] Hall].
    destruct (stopSession_start_registered sessionId st r Hreg)
      as (st1 & Hstart & Hs & Hh & Hp & He & Hu).
    assert (Forall (λ sessionId, is_Some (sessions st1 !! sessionId)) ids) as Hall1.
    { rewrite Hs. exact Hall. }
    specialize (IH (calls ++ [StopCall.mk sessionId (drop 1 (session_files sessionId st))])
                  st1 Hall1).
    cbv zeta in IH.
    assert (foldl stopSession_started (calls, st) (sessionId :: ids)
            = foldl stopSession_started
                (calls ++ [StopCall.mk sessionId (drop 1 (session_files sessionId st))], st1)
                ids) as ->.
    { simpl. unfold stopSession_started at 2. simpl. rewrite Hstart. reflexivity. }
    destruct IH as (IHc & IHs & IHp & IHe & IHu & IHh & IHr).
    assert (forall k, session_files k st1 = session_files k st) as Hfiles.
    { intros k. apply (session_files_flagged k st st1 r Hs Hh). }
    split; [|split; [|split; [|split; [|split; [|split]]]]].
    + rewrite IHc, <- app_assoc. simpl. do 2 f_equal.
      apply list_fmap_ext. intros _ k _. rewrite Hfiles. reflexivity.
    + rewrite IHs. exact Hs.
    + rewrite IHp. exact Hp.
    + rewrite IHe, He, <- app_assoc. reflexivity.
    + rewrite IHu, Hu, <- app_assoc. simpl. do 2 f_equal.
      f_equal. apply list_fmap_ext. intros _ k _. rewrite Hfiles. reflexivity.
    + intros r0. rewrite IHh, Hs, Hh, list_lookup_alter.
      destruct (decide (Exists (λ k, sessions st !! k = Some r0) ids)) as [Hin|Hout];
        destruct (decide (Exists (λ k, sessions st !! k = Some r0) (sessionId :: ids)))
          as [Hin'|Hout'];
        destruct (decide (r = r0)) as [->|Hne]; try reflexivity.
      * destruct (heap st !! r0); reflexivity.
      * contradiction Hout'. right. exact Hin.
      * contradiction Hout'. right. exact Hin.
      * apply Exists_cons in Hin' as [Hhere | Hthere]; [congruence | contradiction].
      * contradiction Hout'. left. exact Hreg.
    + eapply rtc_l; [|exact IHr]. rewrite Hh. constructor. constructor.
Qed.

(** The settlement of started stops: the remaining removals and the
    deletions. *)
Lemma settle_fields calls : forall st,
  sessions (settle calls st)
  = foldl (λ m k, delete k m) (sessions st) (StopCall.sessionId <$> calls)
  /\ heap (settle calls st) = heap st
  /\ pending (settle calls st) = pending st
  /\ emitted (settle calls st) = emitted st
  /\ unlinked (settle calls st) = unlinked st ++ concat (StopCall.remaining <$> calls).
Proof.
  induction calls as [|call calls IH]; intros st; simpl.
  - rewrite app_nil_r. repeat split; reflexivity.
  - destruct (IH (stopSession_resume call st)) as (Hs & Hh & Hp & He & Hu).
    unfold settle in *. rewrite Hs, Hh, Hp, He, Hu. simpl.
    rewrite <- app_assoc. repeat split; reflexivity.
Qed.

Lemma elem_of_sessionsToCleanup now st k :
  k ∈ sessionsToCleanup now st
  <-> exists r, sessions st !! k = Some r /\ sweep_selects now st r = true.
Proof.
  unfold sessionsToCleanup. rewrite list_elem_of_fmap. split.
  - intros ([k' r] & -> & Hin). apply list_elem_of_filter in Hin as [Hsel Hin].
    apply elem_of_map_to_list in Hin. exists r. split; assumption.
  - intros (r & Hreg & Hsel). exists (k, r). split; [reflexivity|].
    apply list_elem_of_filter. split; [exact Hsel|]. apply elem_of_map_to_list. exact Hreg.
Qed.

Lemma sessionsToCleanup_registered now st :
  Forall (λ sessionId, is_Some (sessions st !! sessionId)) (sessionsToCleanup now st).
Proof.
  apply Forall_forall. intros k Hin.
  apply elem_of_sessionsToCleanup in Hin as (r & Hreg & _). eauto.
Qed.

(** A pass of the sweeper, field by field: when it returns, and once the
    stops it has started have settled. *)
Lemma cleanupInactiveSessions_fields now st :
  let ids := sessionsToCleanup now st in
  let calls := (cleanupInactiveSessions now st).1 in
  let returned := (cleanupInactiveSessions now st).2 in
  calls = (λ sessionId,
             StopCall.mk sessionId (drop 1 (session_files sessionId st))) <$> ids
  /\ sessions returned = sessions st
  /\ pending returned = pending st
  /\ emitted returned = emitted st ++ (Event.sessionStopped <$> ids)
  /\ unlinked returned
     = unlinked st ++ concat ((λ sessionId, take 1 (session_files sessionId st)) <$> ids)
  /\ (forall r,
        heap returned !! r
        = if decide (Exists (λ sessionId, sessions st !! sessionId = Some r) ids)
          then StreamingSession.set_isActive false <$> heap st !! r
          else heap st !! r)
  /\ rtc heap_step (heap st) (heap returned)
  /\ sessions (settle calls returned) = foldl (λ m k, delete k m) (sessions st) ids
  /\ heap (settle calls returned) = heap returned
  /\ pending (settle calls returned) = pending st
  /\ emitted (settle calls returned) = emitted returned
  /\ unlinked (settle calls returned)
     = unlinked returned
       ++ concat ((λ sessionId, drop 1 (session_files sessionId st)) <$> ids).
Proof.
  cbv zeta. unfold cleanupInactiveSessions.
  destruct (stopSession_started_fold (sessionsToCleanup now st) [] st
              (sessionsToCleanup_registered now st))
    as (Hc & Hs & Hp & He & Hu & Hh & Hr).
  cbv zeta in Hc, Hs, Hp, He, Hu, Hh, Hr. simpl in Hc.
  destruct (settle_fields
              (foldl stopSession_started ([], st) (sessionsToCleanup now st)).1
              (foldl stopSession_started ([], st) (sessionsToCleanup now st)).2)
    as (Hs' & Hh' & Hp' & He' & Hu').
  repeat split; try assumption.
  - rewrite Hs', Hs, Hc, <- list_fmap_compose. f_equal.
    generalize (sessionsToCleanup now st). intros ids.
    induction ids as [|k ids IH]; simpl; [reflexivity | f_equal; exact IH].
  - rewrite Hp'. exact Hp.
  - rewrite Hu', Hc, <- list_fmap_compose. reflexivity.
Qed.

(** Every transition rewrites the store by a sequence of such changes. *)
Lemma step_heap i st : rtc heap_step (heap st) (heap (step i st)).
Proof.
  destruct i as [options trackData sessionId now | sessionId position rnd
                | sessionId | now | k answer]; simpl.
  - apply rtc_once.
    destruct (createStreamingSession_fields options trackData sessionId now st)
      as (_ & _ & Hh & _).
    simpl in Hh. rewrite Hh. constructor.
  - destruct (updateSessionPosition sessionId position rnd st) as [st'|e] eqn:Hup;
      simpl; [|constructor].
    apply rtc_once. eapply updateSessionPosition_heap; eauto.
  - destruct (stopSession_step_heap st sessionId) as [-> | Hstep];
      [constructor | apply rtc_once; exact Hstep].
  - destruct (cleanupInactiveSessions_fields now st)
      as (_ & _ & _ & _ & _ & _ & Hsteps & _ & -> & _).
    exact Hsteps.
  - unfold resume. destruct (pending st !! k) as [t|]; [|constructor].
    destruct (resume_task_heap t answer (StreamingService.set_pending (delete k (pending st)) st))
      as [Heq | Hstep].
    + rewrite Heq. constructor.
    + apply rtc_once. exact Hstep.
Qed.

(** A property of session objects that every in-place rewrite keeps and
    every new object has holds of all objects of a reachable state. *)
Lemma heap_invariant (P : StreamingSession.t -> Prop) :
  (forall f, mutator f -> forall session, P session -> P (f session)) ->
  (forall options trackData sessionId now, P (new_session options trackData sessionId now)) ->
  forall st, reachable st -> Forall P (heap st).
Proof.
  intros Hmut Hnew st Hst. induction Hst as [|i st _ IH]; [constructor|].
  pose proof (step_heap i st) as Hsteps.
  induction Hsteps as [h | h1 h2 h3 Hstep _ IH']; [exact IH|].
  apply IH'. destruct Hstep as [h f r Hf | h options trackData sessionId now].
  - apply Forall_alter; [exact IH|]. intros session _ HP. apply Hmut; assumption.
  - apply Forall_app. split; [exact IH|]. constructor; [apply Hnew | constructor].
Qed.

(** ** The buffer bound *)

Lemma after_update_buffer session position rnd :
  StreamingSession.musicSegments (after_update session position rnd).1
  = StreamingSession.musicSegments session
  /\ StreamingSession.bufferSize (after_update session position rnd).1
     = StreamingSession.bufferSize session
  /\ StreamingSession.currentSegmentIndex (after_update session position rnd).1
     = StreamingSession.currentSegmentIndex session
  /\ StreamingSession.id (after_update session position rnd).1
     = StreamingSession.id session
  /\ StreamingSession.startTime (after_update session position rnd).1
     = StreamingSession.startTime session
  /\ StreamingSession.isActive (after_update session position rnd).1
     = StreamingSession.isActive session.
Proof.
  unfold after_update, triggerAffirmation. case_decide; simpl.
  - destruct (StreamingSession.affirmations session); simpl; repeat split; reflexivity.
  - repeat split; reflexivity.
Qed.

Lemma push_segment_fields session newSegment :
  StreamingSession.bufferSize (push_segment session newSegment).1
  = StreamingSession.bufferSize session
  /\ StreamingSession.currentSegmentIndex (push_segment session newSegment).1
     = StreamingSession.currentSegmentIndex session
  /\ StreamingSession.id (push_segment session newSegment).1
     = StreamingSession.id session.
Proof.
  unfold push_segment. case_decide;
    [destruct (StreamingSession.musicSegments session ++ [newSegment])|];
    simpl; repeat split; reflexivity.
Qed.

(** The push and the eviction of [generateNextSegment], spelled out. *)
Lemma push_segment_segments session newSegment :
  let segments := StreamingSession.musicSegments session in
  if decide (StreamingSession.bufferSize session + 2 < Z.of_nat (length segments) + 1)
  then exists oldSegment,
      head (segments ++ [newSegment]) = Some oldSegment
      /\ StreamingSession.musicSegments (push_segment session newSegment).1
         = tail (segments ++ [newSegment])
      /\ (push_segment session newSegment).2 = [GeneratedSegment.audioPath oldSegment]
  else StreamingSession.musicSegments (push_segment session newSegment).1
       = segments ++ [newSegment]
       /\ (push_segment session newSegment).2 = [].
Proof.
  simpl. unfold push_segment. rewrite length_app. simpl.
  replace (Z.of_nat (length (StreamingSession.musicSegments session) + 1))
    with (Z.of_nat (length (StreamingSession.musicSegments session)) + 1) by lia.
  case_decide.
  - destruct (StreamingSession.musicSegments session) as [|first rest]; simpl;
      eexists; repeat split; reflexivity.
  - split; reflexivity.
Qed.

Lemma push_segment_bounded session newSegment :
  buffer_bounded session -> buffer_bounded (push_segment session newSegment).1.
Proof.
  unfold buffer_bounded. intros Hb.
  destruct (push_segment_fields session newSegment) as (-> & _).
  intros Hsize. specialize (Hb Hsize).
  pose proof (push_segment_segments session newSegment) as Hpush. simpl in Hpush.
  case_decide.
  - destruct Hpush as (oldSegment & _ & -> & _).
    destruct (StreamingSession.musicSegments session); simpl in *;
      rewrite ?length_app; simpl; lia.
  - destruct Hpush as (-> & _). rewrite length_app. simpl. lia.
Qed.

Lemma mutator_buffer_bounded f :
  mutator f -> forall session, buffer_bounded session -> buffer_bounded (f session).
Proof.
  intros Hf session Hb. destruct Hf as [| position rnd | options draws | synthesized | newSegment].
  - exact Hb.
  - unfold buffer_bounded.
    destruct (after_update_buffer session position rnd) as (-> & -> & _). exact Hb.
  - unfold buffer_bounded. simpl. intros Hsize.
    pose proof (generateStreamingSegments_length options
                  (StreamingSession.bufferSize session) draws). lia.
  - exact Hb.
  - apply push_segment_bounded. exact Hb.
Qed.

Lemma reachable_buffer_bounded st :
  reachable st -> Forall buffer_bounded (heap st).
Proof.
  apply heap_invariant; [exact mutator_buffer_bounded|].
  intros options trackData sessionId now. unfold buffer_bounded. simpl. lia.
Qed.

(** The service never moves [currentSegmentIndex]. *)
Lemma reachable_currentSegmentIndex st :
  reachable st ->
  Forall (λ session, StreamingSession.currentSegmentIndex session = 0) (heap st).
Proof.
  apply heap_invariant; [|reflexivity].
  intros f Hf session Hs.
  destruct Hf as [| position rnd | options draws | synthesized | newSegment]; try exact Hs.
  - destruct (after_update_buffer session position rnd) as (_ & _ & -> & _). exact Hs.
  - destruct (push_segment_fields session newSegment) as (_ & -> & _). exact Hs.
Qed.

(** ** The growth trigger *)

(** C2, as the spec states it, fails: a session created with
    [segmentDuration = -1] holds, once its initial batch is generated, three
    segments of 0 seconds; the stored offsets put the end of the current
    segment at 0, the code takes 60 for a duration of 0 and computes 60; at
    position 0, past 0 - 30, no generation is requested. *)
Lemma zero_duration_segment_end_is_sixty :
  reachable zero_duration_state
  /\ exists session,
      getSession "s1" zero_duration_state = Some session
      /\ StreamingSession.isActive session = true
      /\ StreamingSession.currentSegmentIndex session = 0
      /\ GeneratedSegment.duration <$> StreamingSession.musicSegments session = [0; 0; 0]
      /\ cumulative_segment_end session = Some 0
      /\ segmentEndTime session = 60
      /\ 0 - 30 <= 0
      /\ exists st', updateSessionPosition "s1" 0 0 zero_duration_state = Ok st'
                     /\ pending st' = pending zero_duration_state
                     /\ in_flight 0 st' = 0%nat.
Proof.
  split; [apply reachable_run; constructor|].
  eexists. split; [vm_compute; reflexivity|].
  split; [reflexivity|]. split; [reflexivity|]. split; [reflexivity|].
  split; [reflexivity|]. split; [reflexivity|]. split; [lia|].
  eexists. split; [vm_compute; reflexivity|]. split; reflexivity.
Qed.

(** C2 (amended): for every active session and every position update, a new
    segment generation is requested exactly when [position >= E - 30], where
    [E = currentSegmentIndex * d + d] and [d] is the duration of the segment
    at [currentSegmentIndex], 60 when there is none or it is 0; [E] is the
    end offset given by the cumulative start offsets whenever that segment
    exists with a non-zero duration and the segments before it all have its
    duration.  In every reachable state [currentSegmentIndex] is 0, so that
    [E] is the duration of the first buffered segment, 60 when the buffer is
    empty or that duration is 0. *)
Theorem growth_trigger_uses_segmentEndTime
    (st : Service) (sessionId : string) (r : nat) (session : StreamingSession.t)
    (position : Z) (rnd : nat) :
  sessions st !! sessionId = Some r ->
  heap st !! r = Some session ->
  StreamingSession.isActive session = true ->
  (exists st',
      updateSessionPosition sessionId position rnd st = Ok st'
      /\ pending st' = pending st ++
                       (if decide (segmentEndTime session - 30 <= position)
                        then [NextSegment r] else []))
  /\ (exists d,
        d = or_default
              (GeneratedSegment.duration <$>
                 js_index (StreamingSession.musicSegments session)
                          (StreamingSession.currentSegmentIndex session)) 60
        /\ segmentEndTime session = StreamingSession.currentSegmentIndex session * d + d)
  /\ (forall segment,
        js_index (StreamingSession.musicSegments session)
                 (StreamingSession.currentSegmentIndex session) = Some segment ->
        GeneratedSegment.duration segment <> 0 ->
        Forall (λ earlier, GeneratedSegment.duration earlier = GeneratedSegment.duration segment)
               (take (Z.to_nat (StreamingSession.currentSegmentIndex session))
                     (StreamingSession.musicSegments session)) ->
        cumulative_segment_end session = Some (segmentEndTime session))
  /\ (StreamingSession.currentSegmentIndex session = 0 ->
      forall segment,
        head (StreamingSession.musicSegments session) = Some segment ->
        GeneratedSegment.duration segment <> 0 ->
        cumulative_segment_end session = Some (GeneratedSegment.duration segment)
        /\ segmentEndTime session = GeneratedSegment.duration segment)
  /\ (reachable st ->
      StreamingSession.currentSegmentIndex session = 0
      /\ segmentEndTime session
         = or_default
             (GeneratedSegment.duration <$> head (StreamingSession.musicSegments session))
             60).
Proof.
  intros Hreg Hobj Hact.
  split.
  { destruct (updateSessionPosition_active st sessionId r session position rnd Hreg Hobj Hact)
      as (st' & Hup & _ & _ & Hpend & _).
    exists st'. split; assumption. }
  split; [eexists; split; reflexivity|].
  split; [apply segmentEndTime_cumulative|].
  split.
  - intros Hzero segment Hhead Hnz.
    assert (js_index (StreamingSession.musicSegments session)
                     (StreamingSession.currentSegmentIndex session) = Some segment) as Hseg.
    { rewrite Hzero. unfold js_index. simpl.
      destruct (StreamingSession.musicSegments session); simpl in *; congruence. }
    assert (segmentEndTime session = GeneratedSegment.duration segment) as Hend.
    { unfold segmentEndTime. rewrite Hseg, Hzero. simpl.
      unfold or_default. case_decide; [contradiction|]. lia. }
    split; [|exact Hend].
    rewrite <- Hend. apply (segmentEndTime_cumulative session segment Hseg Hnz).
    rewrite Hzero. simpl. constructor.
  - intros Hst.
    pose proof (reachable_currentSegmentIndex st Hst) as Hall.
    rewrite Forall_lookup in Hall. pose proof (Hall r session Hobj) as Hzero.
    simpl in Hzero. split; [exact Hzero|].
    unfold segmentEndTime. rewrite Hzero. unfold js_index. simpl.
    destruct (StreamingSession.musicSegments session); simpl; lia.
Qed.

(** An instance: the session of the sample options holds three segments of
    20 seconds; its update to position 0, past 20 - 30, requests a
    segment. *)
Lemma growth_trigger_uses_segmentEndTime_witness :
  exists st',
    updateSessionPosition "s1" 0 0 populated_state = Ok st'
    /\ pending st' = pending populated_state ++ [NextSegment 0].
Proof.
  destruct (growth_trigger_uses_segmentEndTime populated_state "s1" 0 _ 0 0
              eq_refl eq_refl eq_refl) as ((st' & Hup & Hpend) & _).
  exists st'. split; [exact Hup|]. exact Hpend.
Defined.

(** C5, as the spec states it, fails: a session created with
    [bufferSize = -3] is registered with an empty buffer, and 0 is more
    than [bufferSize + 2 = -1]. *)
Lemma negative_bufferSize_breaks_bound :
  let st := run [Create (StreamingOptions.mk 7 "alice" None (Some (-3)) None)
                        sample_track "s1" 1000] StreamingService.init in
  reachable st
  /\ exists session,
      getSession "s1" st = Some session
      /\ StreamingSession.bufferSize session = -3
      /\ length (StreamingSession.musicSegments session) = 0%nat
      /\ ~ (Z.of_nat (length (StreamingSession.musicSegments session))
            <= StreamingSession.bufferSize session + 2).
Proof.
  cbv zeta. split; [apply reachable_run; constructor|].
  eexists. split; [vm_compute; reflexivity|].
  split; [reflexivity|]. split; [reflexivity|]. simpl. lia.
Qed.

(** C5 (amended): in every reachable state, every session whose
    [bufferSize] is at least -2 (so every session created with a positive
    or omitted [bufferSize]) holds at most [bufferSize + 2] segments; and
    for every session, whenever appending a newly generated segment makes
    the count exceed [bufferSize + 2], the oldest segment is dropped and its
    file handed to [fs.unlink] in the same step, and otherwise the segment
    is appended and nothing is released. *)
Theorem buffer_never_exceeds_bufferSize_plus_two
    (st : Service) (r : nat) (session : StreamingSession.t) :
  reachable st ->
  heap st !! r = Some session ->
  (-2 <= StreamingSession.bufferSize session ->
   Z.of_nat (length (StreamingSession.musicSegments session))
   <= StreamingSession.bufferSize session + 2)
  /\ (forall answer newSegment,
        answer ≫= generateMusicSegment nextSegmentOptions = Some newSegment ->
        let st' := generateNextSegment_resume r answer st in
        let pushed := StreamingSession.musicSegments session ++ [newSegment] in
        exists session',
          heap st' !! r = Some session'
          /\ StreamingSession.bufferSize session' = StreamingSession.bufferSize session
          /\ if decide (StreamingSession.bufferSize session + 2 < Z.of_nat (length pushed))
             then exists oldSegment,
                 head pushed = Some oldSegment
                 /\ StreamingSession.musicSegments session' = tail pushed
                 /\ unlinked_since st st' = [GeneratedSegment.audioPath oldSegment]
             else StreamingSession.musicSegments session' = pushed
                  /\ unlinked_since st st' = []).
Proof.
  intros Hst Hobj. split.
  - pose proof (reachable_buffer_bounded st Hst) as Hall.
    rewrite Forall_lookup in Hall. exact (Hall r session Hobj).
  - intros answer newSegment Hgen. cbv zeta.
    destruct (generateNextSegment_resume_success r answer st session newSegment Hobj Hgen)
      as (_ & Hheap & _ & _ & Hunl).
    exists (push_segment session newSegment).1.
    split; [rewrite Hheap; apply list_lookup_insert_eq; eapply lookup_lt_Some; eauto|].
    split; [apply push_segment_fields|].
    unfold unlinked_since. rewrite Hunl, drop_app_length.
    pose proof (push_segment_segments session newSegment) as Hpush. simpl in Hpush.
    rewrite length_app. simpl.
    replace (Z.of_nat (length (StreamingSession.musicSegments session) + 1))
      with (Z.of_nat (length (StreamingSession.musicSegments session)) + 1) by lia.
    exact Hpush.
Qed.

(** An instance: with [bufferSize = 1], the fourth generated segment evicts
    the first, and three remain. *)
Lemma buffer_never_exceeds_bufferSize_plus_two_witness :
  exists session,
    heap busy_state !! 0%nat = Some session
    /\ StreamingSession.bufferSize session = 1
    /\ unlinked busy_state = ["/tmp/generated_music/n1.wav"]
    /\ Z.of_nat (length (StreamingSession.musicSegments session))
       <= StreamingSession.bufferSize session + 2.
Proof.
  eexists. split; [reflexivity|]. split; [reflexivity|]. split; [reflexivity|].
  refine (proj1 (buffer_never_exceeds_bufferSize_plus_two busy_state 0 _ _ eq_refl) _).
  - apply reachable_run. constructor.
  - simpl. lia.
Defined.

(** ** The registry *)

Lemma mutator_id f : mutator f -> forall session,
  StreamingSession.id (f session) = StreamingSession.id session.
Proof.
  intros Hf session.
  destruct Hf as [| position rnd | options draws | synthesized | newSegment];
    try reflexivity.
  - apply after_update_buffer.
  - apply push_segment_fields.
Qed.

Lemma fmap_alter_unchanged {A B} (g : A -> B) (f : A -> A) (l : list A) i :
  (forall x, g (f x) = g x) -> g <$> alter f i l = g <$> l.
Proof.
  intros Hg. revert i. induction l as [|x l IH]; intros i; [reflexivity|].
  destruct i as [|i]; simpl.
  - rewrite Hg. reflexivity.
  - f_equal. apply IH.
Qed.

Lemma heap_steps_ids h h' :
  rtc heap_step h h' ->
  exists extra, StreamingSession.id <$> h' = (StreamingSession.id <$> h) ++ extra.
Proof.
  induction 1 as [h | h1 h2 h3 Hstep _ (extra & IH)].
  - exists []. rewrite app_nil_r. reflexivity.
  - destruct Hstep as [h f r Hf | h options trackData sessionId now].
    + exists extra. rewrite IH. f_equal.
      apply fmap_alter_unchanged. apply mutator_id. exact Hf.
    + eexists. rewrite IH, fmap_app, <- app_assoc. reflexivity.
Qed.

Lemma foldl_delete_subseteq (m : gmap string nat) ids :
  foldl (λ m k, delete k m) m ids ⊆ m.
Proof.
  revert m. induction ids as [|k ids IH]; intros m; simpl; [reflexivity|].
  etrans; [apply IH | apply delete_subseteq].
Qed.

(** Only [createStreamingSession] adds to [sessions]. *)
Lemma step_sessions_shrink i st :
  (forall options trackData sessionId now, i <> Create options trackData sessionId now) ->
  sessions (step i st) ⊆ sessions st.
Proof.
  intros Hnot.
  destruct i as [options trackData sessionId now | sessionId position rnd
                | sessionId | now | k answer]; simpl.
  - exfalso. eapply Hnot. reflexivity.
  - destruct (updateSessionPosition sessionId position rnd st) as [st'|e] eqn:Hup;
      simpl; [|reflexivity].
    apply updateSessionPosition_heap in Hup as [-> _]. reflexivity.
  - rewrite stopSession_step_sessions. apply delete_subseteq.
  - destruct (cleanupInactiveSessions_fields now st)
      as (_ & _ & _ & _ & _ & _ & _ & -> & _).
    apply foldl_delete_subseteq.
  - unfold resume. destruct (pending st !! k); [|reflexivity].
    rewrite resume_task_sessions. reflexivity.
Qed.

Lemma step_registry_ids i st : registry_ids st -> registry_ids (step i st).
Proof.
  intros Hinv k r Hk.
  pose proof (heap_steps_ids _ _ (step_heap i st)) as (extra & Hids).
  pose proof (step_sessions_shrink i st) as Hshrink.
  destruct i as [options trackData sessionId now | | | |].
  2-5: rewrite Hids; apply lookup_app_l_Some, Hinv;
       (eapply lookup_weaken; [exact Hk | apply Hshrink; discriminate]).
  clear extra Hids Hshrink.
  destruct (createStreamingSession_fields options trackData sessionId now st)
    as (_ & Hs & Hh & _).
  cbv zeta in Hs, Hh.
  change (step (Create options trackData sessionId now) st)
    with (snd (createStreamingSession options trackData sessionId now st)) in *.
  rewrite Hs in Hk. rewrite Hh, fmap_app.
  destruct (decide (sessionId = k)) as [->|Hne].
  - rewrite lookup_insert_eq in Hk. injection Hk as <-.
    apply list_lookup_middle. rewrite length_fmap. reflexivity.
  - rewrite lookup_insert_ne in Hk by exact Hne.
    apply lookup_app_l_Some, Hinv. exact Hk.
Qed.

Lemma reachable_registry_ids st : reachable st -> registry_ids st.
Proof.
  induction 1 as [|i st _ IH].
  - intros k r Hk. simpl in Hk. rewrite lookup_empty in Hk. discriminate.
  - apply step_registry_ids. exact IH.
Qed.

(** An id that is not registered stays unregistered until a session is
    created under it. *)
Lemma step_unregistered sessionId i st :
  ~ creates sessionId i ->
  sessions st !! sessionId = None ->
  sessions (step i st) !! sessionId = None.
Proof.
  intros Hnot Hnone.
  pose proof (step_sessions_shrink i st) as Hshrink.
  destruct (sessions (step i st) !! sessionId) as [r|] eqn:Hk; [|reflexivity].
  destruct i as [options trackData k now | | | |].
  2-5: exfalso; (eapply lookup_weaken in Hk; [|apply Hshrink; discriminate]); congruence.
  clear Hshrink. rewrite <- Hk.
  destruct (createStreamingSession_fields options trackData k now st) as (_ & Hs & _).
  cbv zeta in Hs.
  change (step (Create options trackData k now) st)
    with (snd (createStreamingSession options trackData k now st)).
  rewrite Hs. rewrite lookup_insert_ne; [exact Hnone|]. exact Hnot.
Qed.

Lemma run_unregistered sessionId inputs st :
  Forall (λ i, ~ creates sessionId i) inputs ->
  sessions st !! sessionId = None ->
  sessions (run inputs st) !! sessionId = None.
Proof.
  intros Hall. revert st. induction Hall as [|i inputs Hi _ IH]; intros st Hnone; simpl.
  - exact Hnone.
  - apply IH. apply step_unregistered; assumption.
Qed.

Lemma getUserSessions_listed userId st listed :
  listed ∈ getUserSessions userId st ->
  exists k r, sessions st !! k = Some r
              /\ heap st !! r = Some listed
              /\ StreamingSession.userId listed = userId
              /\ StreamingSession.isActive listed = true.
Proof.
  unfold getUserSessions. rewrite list_elem_of_filter, list_elem_of_omap.
  intros [[Hu Ha] ([k r] & Hin & Hobj)].
  apply elem_of_map_to_list in Hin. simpl in Hobj.
  exists k, r. repeat split; assumption.
Qed.

(** ** Stopping a session with a call in flight *)

(** C4, as the spec states it, fails: a generation call is in flight when
    the session is stopped; when it completes, the stopped session object
    receives the new segment and [newSegmentReady] is emitted. *)
Lemma late_completion_reaches_stopped_session :
  let st1 := run [Create sample_options sample_track "s1" 1000;
                  UpdatePosition "s1" 40 0;
                  Stop "s1"] StreamingService.init in
  let st2 := step (Resume 2 (segment_answer "late")) st1 in
  getSession "s1" st1 = None
  /\ pending st1 !! 2%nat = Some (NextSegment 0)
  /\ StreamingSession.musicSegments <$> heap st1 !! 0%nat = Some []
  /\ StreamingSession.musicSegments <$> heap st2 !! 0%nat = Some [late_segment]
  /\ emitted_since st1 st2 = [Event.newSegmentReady "s1" late_segment]
  /\ heap st2 <> heap st1
  /\ emitted st2 <> emitted st1.
Proof.
  cbv zeta. split; [reflexivity|]. split; [reflexivity|].
  split; [reflexivity|]. split; [reflexivity|]. split; [reflexivity|].
  split; intros Heq.
  - apply (f_equal (λ h : list StreamingSession.t,
                      StreamingSession.musicSegments <$> h !! 0%nat)) in Heq.
    vm_compute in Heq. discriminate.
  - apply (f_equal length) in Heq. vm_compute in Heq. discriminate.
Qed.

(** C4 (amended): once [stopSession] has returned, no resumption of a
    suspended call changes [sessions], and until a session is created under
    the same id the stopped session is not found by [getSession], serves no
    segment handle and is not listed by [getUserSessions].  A generation
    call that was in flight at stop time is not discarded: when it completes
    it still pushes its segment on the stopped session object (evicting as
    usual) and emits [newSegmentReady]. *)
Theorem stopped_session_never_reappears
    (st st1 : Service) (sessionId : string) (r : nat) (session : StreamingSession.t) :
  reachable st ->
  sessions st !! sessionId = Some r ->
  heap st !! r = Some session ->
  stopSession sessionId st = Ok st1 ->
  (forall k answer, sessions (resume k answer st1) = sessions st1)
  /\ (forall inputs,
        Forall (λ i, ~ creates sessionId i) inputs ->
        getSession sessionId (run inputs st1) = None
        /\ (forall segmentIndex,
              getStreamingUrl sessionId segmentIndex (run inputs st1)
              = Throw Session_not_found_or_inactive)
        /\ (forall userId listed,
              listed ∈ getUserSessions userId (run inputs st1) ->
              StreamingSession.id listed <> sessionId))
  /\ (forall k answer newSegment,
        pending st1 !! k = Some (NextSegment r) ->
        Answer.segment answer ≫= generateMusicSegment nextSegmentOptions = Some newSegment ->
        heap (resume k answer st1) !! r
        = Some (push_segment (StreamingSession.set_isActive false session) newSegment).1
        /\ emitted_since st1 (resume k answer st1)
           = [Event.newSegmentReady (StreamingSession.id session) newSegment]).
Proof.
  intros Hst Hreg Hobj Hstop.
  destruct (stopSession_registered sessionId st r Hreg)
    as (st1' & Hstop' & Hsess & Hheap & Hpend & Hemit & Hunl).
  rewrite Hstop in Hstop'. injection Hstop' as <-.
  assert (reachable st1) as Hst1.
  { replace st1 with (step (Stop sessionId) st); [constructor; exact Hst|].
    simpl. rewrite Hstop. reflexivity. }
  assert (heap st1 !! r = Some (StreamingSession.set_isActive false session)) as Hobj1.
  { rewrite Hheap, list_lookup_alter. case_decide; [|congruence].
    rewrite Hobj. reflexivity. }
  split; [|split].
  - intros k answer. unfold resume. destruct (pending st1 !! k); [|reflexivity].
    rewrite resume_task_sessions. reflexivity.
  - intros inputs Hinputs.
    assert (sessions (run inputs st1) !! sessionId = None) as Hnone.
    { apply run_unregistered; [exact Hinputs|]. rewrite Hsess. apply lookup_delete_eq. }
    assert (getSession sessionId (run inputs st1) = None) as Hget.
    { unfold getSession. rewrite Hnone. reflexivity. }
    split; [exact Hget|]. split.
    + intros segmentIndex. unfold getStreamingUrl. rewrite Hget. reflexivity.
    + intros userId listed Hin Hid.
      apply getUserSessions_listed in Hin as (k & r' & Hk & Hobj' & _).
      pose proof (reachable_registry_ids _ (reachable_run inputs st1 Hst1) k r' Hk) as Hids.
      rewrite list_lookup_fmap, Hobj' in Hids. simpl in Hids.
      injection Hids as Hids. congruence.
  - intros k answer newSegment Hk Hgen.
    unfold resume. rewrite Hk. simpl.
    set (st1' := StreamingService.set_pending _ st1).
    destruct (generateNextSegment_resume_success r (Answer.segment answer) st1'
                (StreamingSession.set_isActive false session) newSegment Hobj1 Hgen)
      as (_ & Hheap' & _ & Hemit' & _).
    split.
    + rewrite Hheap'. apply list_lookup_insert_eq. eapply lookup_lt_Some. exact Hobj1.
    + unfold emitted_since. rewrite Hemit'. simpl. apply drop_app_length.
Qed.

(** An instance: after the stop, a late completion, a further position
    update and a sweep leave the session unregistered and unlisted. *)
Lemma stopped_session_never_reappears_witness :
  let st := run [Create sample_options sample_track "s1" 1000;
                 UpdatePosition "s1" 40 0] StreamingService.init in
  let st1 := step (Stop "s1") st in
  let later := run [Resume 2 (segment_answer "late"); UpdatePosition "s1" 50 0;
                    Sweep 5000] st1 in
  getSession "s1" later = None
  /\ getStreamingUrl "s1" 0 later = Throw Session_not_found_or_inactive
  /\ forall listed, listed ∈ getUserSessions "alice" later ->
                    StreamingSession.id listed <> "s1".
Proof.
  cbv zeta.
  destruct (stopped_session_never_reappears
              (run [Create sample_options sample_track "s1" 1000;
                    UpdatePosition "s1" 40 0] StreamingService.init)
              (step (Stop "s1")
                 (run [Create sample_options sample_track "s1" 1000;
                       UpdatePosition "s1" 40 0] StreamingService.init))
              "s1" 0 _
              (reachable_run _ _ reachable_init) eq_refl eq_refl eq_refl)
    as (_ & Hout & _).
  destruct (Hout [Resume 2 (segment_answer "late"); UpdatePosition "s1" 50 0; Sweep 5000])
    as (Hget & Hurl & Hlist).
  - repeat constructor; simpl; auto.
  - split; [exact Hget|]. split; [apply Hurl|]. intros listed. apply Hlist.
Defined.

(** ** The affirmation scheduler *)

Lemma emitted_since_app st st' events :
  emitted st' = emitted st ++ events -> emitted_since st st' = events.
Proof. intros H. unfold emitted_since. rewrite H. apply drop_app_length. Qed.

(** What a position update does to the schedule of a session. *)
Lemma after_update_schedule session position rnd :
  let session' := (after_update session position rnd).1 in
  let events := (after_update session position rnd).2 in
  StreamingSession.currentPosition session' = position
  /\ StreamingSession.affirmationInterval session' = StreamingSession.affirmationInterval session
  /\ StreamingSession.affirmations session' = StreamingSession.affirmations session
  /\ if decide (StreamingSession.affirmationInterval session
                <= position - StreamingSession.lastAffirmationTime session
                /\ StreamingSession.affirmations session <> [])
     then StreamingSession.lastAffirmationTime session' = position
          /\ count_playAffirmation events = 1%nat
     else StreamingSession.lastAffirmationTime session'
          = StreamingSession.lastAffirmationTime session
          /\ events = [].
Proof.
  unfold after_update, triggerAffirmation. simpl.
  destruct (decide (StreamingSession.affirmationInterval session
                    <= position - StreamingSession.lastAffirmationTime session))
    as [Hdue|Hnot]; simpl.
  - destruct (StreamingSession.affirmations session) as [|first pool] eqn:Hpool; simpl.
    + rewrite decide_False by (intros [_ H]; congruence).
      repeat split; first [reflexivity | exact Hpool].
    + rewrite decide_True by (split; [exact Hdue | discriminate]).
      repeat split; first [reflexivity | exact Hpool].
  - rewrite decide_False by (intros [H _]; contradiction). repeat split; reflexivity.
Qed.

Section Schedule.
Variable sessionId : string.
Variable r : nat.

(** One update: it fires and moves [lastAffirmationTime] to the position,
    or it is silent and leaves it. *)
Lemma scheduled_step interval last st position rnd :
  scheduled sessionId r interval last st ->
  let st' := step (UpdatePosition sessionId position rnd) st in
  (interval <= position - last
   /\ count_playAffirmation (emitted_since st st') = 1%nat
   /\ scheduled sessionId r interval position st')
  \/ (count_playAffirmation (emitted_since st st') = 0%nat
      /\ scheduled sessionId r interval last st').
Proof.
  intros (session & Hreg & Hobj & Hact & Hint & Hlast). simpl.
  destruct (updateSessionPosition_active st sessionId r session position rnd Hreg Hobj Hact)
    as (st' & Hup & Hsess & Hheap & _ & Hemit & _).
  rewrite Hup. simpl.
  rewrite (emitted_since_app _ _ _ Hemit).
  assert (heap st' !! r = Some (after_update session position rnd).1) as Hobj'.
  { rewrite Hheap. apply list_lookup_insert_eq. eapply lookup_lt_Some. exact Hobj. }
  destruct (after_update_buffer session position rnd) as (_ & _ & _ & _ & _ & Hact').
  destruct (after_update_schedule session position rnd) as (_ & Hint' & _ & Hcase).
  cbv zeta in Hint', Hcase. rewrite Hint, Hlast in Hcase.
  case_decide as Hdue.
  - left. destruct Hcase as [Hl Hc]. split; [apply Hdue|]. split; [exact Hc|].
    eexists. rewrite Hsess. repeat split; eauto; congruence.
  - right. destruct Hcase as [Hl ->]. split; [reflexivity|].
    eexists. rewrite Hsess. repeat split; eauto; congruence.
Qed.

Lemma firings_spaced updates : forall interval last st,
  scheduled sessionId r interval last st ->
  StronglySorted Z.lt (updates.*1) ->
  Forall (λ f, f ∈ updates.*1) (firings sessionId updates st)
  /\ Forall (λ f, interval <= f - last) (firings sessionId updates st)
  /\ ForallOrdPairs (λ a b, interval <= b - a) (firings sessionId updates st).
Proof.
  induction updates as [|[position rnd] rest IH]; intros interval last st Hsched Hsorted.
  - simpl. repeat split; constructor.
  - simpl in Hsorted. apply StronglySorted_inv in Hsorted as [Hrest Hlater].
    cbn [firings].
    destruct (scheduled_step interval last st position rnd Hsched)
      as [(Hdue & Hcount & Hsched') | (Hcount & Hsched')];
      cbv zeta in Hcount, Hsched'; rewrite Hcount.
    + destruct (IH interval position _ Hsched' Hrest) as (Hin & Hgap & Hpairs).
      rewrite decide_True by lia. simpl.
      split; [|split].
      * constructor; [left|]. eapply Forall_impl; [exact Hin|].
        intros f Hf. right. exact Hf.
      * constructor; [exact Hdue|].
        rewrite Forall_forall in Hin, Hlater. apply Forall_forall. intros f Hf.
        specialize (Hlater f (Hin f Hf)). lia.
      * constructor; assumption.
    + destruct (IH interval last _ Hsched' Hrest) as (Hin & Hgap & Hpairs).
      rewrite decide_False by lia. simpl.
      split; [|split; assumption].
      eapply Forall_impl; [exact Hin|]. intros f Hf. right. exact Hf.
Qed.
End Schedule.

Section ScheduleWithPool.
Variable sessionId : string.
Variable r : nat.

Lemma scheduled_pool_update interval last st position rnd :
  scheduled_pool sessionId r interval last st ->
  exists st' session',
    updateSessionPosition sessionId position rnd st = Ok st'
    /\ heap st' !! r = Some session'
    /\ StreamingSession.currentPosition session' = position
    /\ (if decide (interval <= position - last)
        then count_playAffirmation (emitted_since st st') = 1%nat
             /\ StreamingSession.lastAffirmationTime session' = position
        else count_playAffirmation (emitted_since st st') = 0%nat
             /\ StreamingSession.lastAffirmationTime session' = last)
    /\ scheduled_pool sessionId r interval
         (if decide (interval <= position - last) then position else last) st'.
Proof.
  intros (session & Hreg & Hobj & Hact & Hpool & Hint & Hlast).
  destruct (updateSessionPosition_active st sessionId r session position rnd Hreg Hobj Hact)
    as (st' & Hup & Hsess & Hheap & _ & Hemit & _).
  assert (heap st' !! r = Some (after_update session position rnd).1) as Hobj'.
  { rewrite Hheap. apply list_lookup_insert_eq. eapply lookup_lt_Some. exact Hobj. }
  exists st', (after_update session position rnd).1.
  split; [exact Hup|]. split; [exact Hobj'|].
  rewrite (emitted_since_app _ _ _ Hemit).
  destruct (after_update_buffer session position rnd) as (_ & _ & _ & _ & _ & Hact').
  destruct (after_update_schedule session position rnd) as (Hpos & Hint' & Hpool' & Hcase).
  cbv zeta in Hpos, Hint', Hpool', Hcase. rewrite Hint, Hlast in Hcase.
  split; [exact Hpos|].
  destruct (decide (interval <= position - last)) as [Hdue|Hnot].
  - rewrite decide_True in Hcase by (split; assumption).
    destruct Hcase as [Hl Hc]. split; [split; assumption|].
    eexists. rewrite Hsess. repeat split; eauto; congruence.
  - rewrite decide_False in Hcase by (intros [H _]; contradiction).
    destruct Hcase as [Hl ->]. split; [split; [reflexivity|congruence]|].
    eexists. rewrite Hsess. repeat split; eauto; congruence.
Qed.

Lemma scheduled_pool_step interval last st position rnd :
  scheduled_pool sessionId r interval last st ->
  let st' := step (UpdatePosition sessionId position rnd) st in
  count_playAffirmation (emitted_since st st')
  = (if decide (interval <= position - last)%Z then 1 else 0)%nat
  /\ scheduled_pool sessionId r interval
       (if decide (interval <= position - last) then position else last) st'.
Proof.
  intros Hsched.
  destruct (scheduled_pool_update interval last st position rnd Hsched)
    as (st' & session' & Hup & _ & _ & Hcase & Hsched').
  simpl. rewrite Hup. simpl. split; [|exact Hsched'].
  case_decide; apply Hcase.
Qed.

Lemma scheduled_pool_scheduled interval last st :
  scheduled_pool sessionId r interval last st -> scheduled sessionId r interval last st.
Proof.
  intros (session & Hreg & Hobj & Hact & _ & Hint & Hlast).
  exists session. repeat split; assumption.
Qed.
End ScheduleWithPool.

(** Positions that are pairwise [interval] apart: a window of [interval]
    seconds holds at most one of them. *)
Lemma spaced_window (interval t : Z) (fired : list Z) :
  ForallOrdPairs (λ a b, interval <= b - a) fired ->
  (length (filter (λ f, (t <= f < t + interval)%Z) fired) <= 1)%nat.
Proof.
  induction 1 as [|a fired Hgap _ IH]; [simpl; lia|].
  rewrite filter_cons. case_decide as Hin; [|exact IH].
  assert (filter (λ f, t <= f < t + interval) fired = []) as ->; [|simpl; lia].
  clear IH. induction Hgap as [|b fired Hb _ IH]; [reflexivity|].
  rewrite filter_cons_False by lia. exact IH.
Qed.

(** C6: for an active session with a non-empty affirmation pool, a position
    update to [p] emits exactly one [playAffirmation] and sets
    [lastAffirmationTime = p] if [p - lastAffirmationTime >=
    affirmationInterval], and emits none and leaves it otherwise; with
    [affirmationInterval = 30] and [lastAffirmationTime = 0] the updates to
    29, 30, 59, 60 emit none, one, none, one; and along a strictly
    increasing sequence of positions any two firings are at least
    [affirmationInterval] seconds apart, so that every window of
    [affirmationInterval] seconds holds at most one. *)
Theorem affirmation_fires_once_per_interval
    (st : Service) (sessionId : string) (r : nat) (session : StreamingSession.t) :
  sessions st !! sessionId = Some r ->
  heap st !! r = Some session ->
  StreamingSession.isActive session = true ->
  StreamingSession.affirmations session <> [] ->
  (forall position rnd,
      exists st' session',
        updateSessionPosition sessionId position rnd st = Ok st'
        /\ heap st' !! r = Some session'
        /\ if decide (StreamingSession.affirmationInterval session
                      <= position - StreamingSession.lastAffirmationTime session)
           then count_playAffirmation (emitted_since st st') = 1%nat
                /\ StreamingSession.lastAffirmationTime session' = position
           else count_playAffirmation (emitted_since st st') = 0%nat
                /\ StreamingSession.lastAffirmationTime session'
                   = StreamingSession.lastAffirmationTime session)
  /\ (StreamingSession.affirmationInterval session = 30 ->
      StreamingSession.lastAffirmationTime session = 0 ->
      forall r1 r2 r3 r4,
        play_counts sessionId [(29, r1); (30, r2); (59, r3); (60, r4)] st
        = [0; 1; 0; 1]%nat)
  /\ (forall updates,
        StronglySorted Z.lt (updates.*1) ->
        ForallOrdPairs (λ a b, StreamingSession.affirmationInterval session <= b - a)
                       (firings sessionId updates st)
        /\ forall t,
            (length (filter (λ f, (t <= f < t + StreamingSession.affirmationInterval session)%Z)
                            (firings sessionId updates st)) <= 1)%nat).
Proof.
  intros Hreg Hobj Hact Hpool.
  assert (scheduled_pool sessionId r (StreamingSession.affirmationInterval session)
            (StreamingSession.lastAffirmationTime session) st) as Hsched.
  { exists session. repeat split; assumption. }
  split; [|split].
  - intros position rnd.
    destruct (scheduled_pool_update sessionId r _ _ st position rnd Hsched)
      as (st' & session' & Hup & Hobj' & _ & Hcase & _).
    exists st', session'. repeat split; assumption.
  - intros Hint Hlast r1 r2 r3 r4. rewrite Hint, Hlast in Hsched.
    cbn [play_counts].
    destruct (scheduled_pool_step sessionId r _ _ _ 29 r1 Hsched) as [-> Hs1].
    cbv zeta in Hs1. rewrite decide_False in Hs1 by lia.
    destruct (scheduled_pool_step sessionId r _ _ _ 30 r2 Hs1) as [-> Hs2].
    cbv zeta in Hs2. rewrite decide_True in Hs2 by lia.
    destruct (scheduled_pool_step sessionId r _ _ _ 59 r3 Hs2) as [-> Hs3].
    cbv zeta in Hs3. rewrite decide_False in Hs3 by lia.
    destruct (scheduled_pool_step sessionId r _ _ _ 60 r4 Hs3) as [-> _].
    rewrite (decide_False (P := 30 <= 29 - 0)) by lia.
    rewrite (decide_True (P := 30 <= 30 - 0)) by lia.
    rewrite (decide_False (P := 30 <= 59 - 30)) by lia.
    rewrite (decide_True (P := 30 <= 60 - 30)) by lia.
    reflexivity.
  - intros updates Hsorted.
    destruct (firings_spaced sessionId r updates _ _ st
                (scheduled_pool_scheduled _ _ _ _ _ Hsched) Hsorted) as (_ & _ & Hpairs).
    split; [exact Hpairs|]. intros t. apply spaced_window. exact Hpairs.
Qed.

(** An instance: the scenario on a session created by the service, and a
    longer sequence of updates whose firings are 30, 60 and 200. *)
Lemma affirmation_fires_once_per_interval_witness :
  play_counts "s1" [(29, 0%nat); (30, 1%nat); (59, 2%nat); (60, 3%nat)] scenario_state
  = [0; 1; 0; 1]%nat
  /\ firings "s1" [(10, 0%nat); (29, 0%nat); (30, 1%nat); (59, 2%nat); (60, 3%nat); (200, 4%nat)] scenario_state
     = [30; 60; 200]
  /\ ForallOrdPairs (λ a b, 30 <= b - a)
       (firings "s1" [(10, 0%nat); (29, 0%nat); (30, 1%nat); (59, 2%nat); (60, 3%nat); (200, 4%nat)]
          scenario_state).
Proof.
  destruct (affirmation_fires_once_per_interval scenario_state "s1" 0 _
              eq_refl eq_refl eq_refl
              ltac:(discriminate)) as (_ & Hscenario & Hspaced).
  split; [apply Hscenario; reflexivity|].
  split; [reflexivity|].
  apply (Hspaced [(10, 0%nat); (29, 0%nat); (30, 1%nat); (59, 2%nat); (60, 3%nat); (200, 4%nat)]).
  simpl. repeat (constructor; [|repeat constructor; lia]). constructor.
Defined.

(** ** Position updates without validation *)

(** The awaited update of a registered, active session, step by step. *)
Lemma updateSessionPosition_await_active st sessionId r session position rnd answer :
  sessions st !! sessionId = Some r ->
  heap st !! r = Some session ->
  StreamingSession.isActive session = true ->
  let written :=
    StreamingService.emit (after_update session position rnd).2
      (StreamingService.store r (after_update session position rnd).1 st) in
  updateSessionPosition_await sessionId position rnd answer st
  = if decide (segmentEndTime session - 30 <= position)
    then if generateNextSegment_rejects answer
         then Rejected Unhandled_error (generateNextSegment_resume r answer written)
         else Resolved (generateNextSegment_resume r answer written)
    else Resolved written.
Proof.
  intros Hreg Hobj Hact.
  unfold updateSessionPosition_await. rewrite Hreg. simpl. rewrite Hobj. simpl.
  rewrite Hact. simpl.
  pose proof (after_update_segmentEndTime session position rnd) as Hend.
  unfold after_update in *. simpl in *.
  destruct (if decide _ then _ else _) as [session' events]. simpl in *.
  rewrite Hend. reflexivity.
Qed.

(** The generation an update waits for is the task it has added, and the
    awaited update is the update followed by the resumption of that task. *)
Lemma updateSessionPosition_await_resume st sessionId r session position rnd answer st0 :
  sessions st !! sessionId = Some r ->
  heap st !! r = Some session ->
  StreamingSession.isActive session = true ->
  updateSessionPosition sessionId position rnd st = Ok st0 ->
  let settled :=
    if decide (segmentEndTime session - 30 <= position)
    then resume (length (pending st)) (Answer.mk None None answer) st0
    else st0 in
  updateSessionPosition_await sessionId position rnd answer st
  = if decide (segmentEndTime session - 30 <= position)
    then if generateNextSegment_rejects answer
         then Rejected Unhandled_error settled
         else Resolved settled
    else Resolved settled.
Proof.
  intros Hreg Hobj Hact Hup. cbv zeta.
  rewrite (updateSessionPosition_await_active st sessionId r session position rnd answer
             Hreg Hobj Hact). cbv zeta.
  unfold updateSessionPosition in Hup. rewrite Hreg in Hup. simpl in Hup.
  rewrite Hobj in Hup. simpl in Hup. rewrite Hact in Hup. simpl in Hup.
  pose proof (after_update_segmentEndTime session position rnd) as Hend.
  unfold after_update in *. simpl in *.
  destruct (if decide _ then _ else _) as [session' events]. simpl in *.
  rewrite Hend in Hup.
  destruct (decide (segmentEndTime session - 30 <= position)) as [Hcross|Hnot].
  - injection Hup as <-.
    assert (resume (length (pending st)) (Answer.mk None None answer)
              (generateNextSegment r
                 (StreamingService.emit events (StreamingService.store r session' st)))
            = generateNextSegment_resume r answer
                (StreamingService.emit events (StreamingService.store r session' st)))
      as ->; [|reflexivity].
    unfold resume, generateNextSegment. simpl.
    rewrite lookup_app_r by reflexivity. rewrite Nat.sub_diag. simpl.
    unfold StreamingService.set_pending. simpl.
    rewrite delete_middle, app_nil_r.
    reflexivity.
  - injection Hup as <-. reflexivity.
Qed.

Lemma push_segment_schedule session newSegment :
  StreamingSession.currentPosition (push_segment session newSegment).1
  = StreamingSession.currentPosition session
  /\ StreamingSession.lastAffirmationTime (push_segment session newSegment).1
     = StreamingSession.lastAffirmationTime session.
Proof.
  unfold push_segment. case_decide; [|split; reflexivity].
  destruct (StreamingSession.musicSegments session ++ [newSegment]); split; reflexivity.
Qed.

(** What the completion of a generation does to the session that waits
    for it. *)
Lemma generateNextSegment_resume_fields r answer st session :
  heap st !! r = Some session ->
  let st' := generateNextSegment_resume r answer st in
  sessions st' = sessions st
  /\ pending st' = pending st
  /\ (forall other, other <> r -> heap st' !! other = heap st !! other)
  /\ match answer ≫= generateMusicSegment nextSegmentOptions with
     | Some newSegment =>
         heap st' !! r = Some (push_segment session newSegment).1
         /\ emitted st'
            = emitted st ++ [Event.newSegmentReady (StreamingSession.id session) newSegment]
         /\ unlinked st' = unlinked st ++ (push_segment session newSegment).2
     | None =>
         heap st' !! r = Some session
         /\ emitted st' = emitted st ++ [Event.error (StreamingSession.id session)]
         /\ unlinked st' = unlinked st
     end.
Proof.
  intros Hobj. cbv zeta.
  destruct (answer ≫= generateMusicSegment nextSegmentOptions) as [newSegment|] eqn:Hgen.
  - destruct (generateNextSegment_resume_success r answer st session newSegment Hobj Hgen)
      as (Hs & Hh & Hp & He & Hu).
    cbv zeta in Hs, Hh, Hp, He, Hu.
    split; [exact Hs|]. split; [exact Hp|].
    split; [intros other Hne; rewrite Hh; apply list_lookup_insert_ne; congruence|].
    split; [rewrite Hh; apply list_lookup_insert_eq; eapply lookup_lt_Some; eauto|].
    split; assumption.
  - unfold generateNextSegment_resume. rewrite Hobj, Hgen. simpl.
    repeat split; assumption.
Qed.

(** C10: for every active session and every position [p], negative or
    behind [lastAffirmationTime] included, the update checks nothing: it
    sets [currentPosition = p] as given and, unless [p - lastAffirmationTime
    >= affirmationInterval], leaves [lastAffirmationTime] and emits no
    [playAffirmation].  It does not succeed for every [p], though: when [p]
    is at or past the growth trigger the update awaits the generation it
    requests, and when that generation fails the [catch] of
    [generateNextSegment] emits [error], which throws for want of a
    listener, so that the update is rejected, [currentPosition] already
    written; in every other case the update resolves. *)
Theorem updatePosition_rejected_by_failed_generation
    (st : Service) (sessionId : string) (r : nat) (session : StreamingSession.t)
    (position : Z) (rnd : nat) (answer : option SegmentDraw.t) :
  sessions st !! sessionId = Some r ->
  heap st !! r = Some session ->
  StreamingSession.isActive session = true ->
  exists st0 st' session',
    updateSessionPosition sessionId position rnd st = Ok st0
    /\ st' = (if decide (segmentEndTime session - 30 <= position)
              then resume (length (pending st)) (Answer.mk None None answer) st0
              else st0)
    /\ updateSessionPosition_await sessionId position rnd answer st
       = (if decide (segmentEndTime session - 30 <= position)
          then if generateNextSegment_rejects answer
               then Rejected Unhandled_error st'
               else Resolved st'
          else Resolved st')
    /\ heap st' !! r = Some session'
    /\ StreamingSession.currentPosition session' = position
    /\ (~ (StreamingSession.affirmationInterval session
           <= position - StreamingSession.lastAffirmationTime session) ->
        StreamingSession.lastAffirmationTime session'
        = StreamingSession.lastAffirmationTime session
        /\ count_playAffirmation (emitted_since st st') = 0%nat)
    /\ (segmentEndTime session - 30 <= position ->
        generateNextSegment_rejects answer = true ->
        emitted_since st0 st' = [Event.error (StreamingSession.id session)]
        /\ StreamingSession.musicSegments session'
           = StreamingSession.musicSegments session).
Proof.
  intros Hreg Hobj Hact.
  destruct (updateSessionPosition_active st sessionId r session position rnd Hreg Hobj Hact)
    as (st0 & Hup & Hs0 & Hh0 & Hp0 & He0 & Hu0).
  pose proof (updateSessionPosition_await_resume st sessionId r session position rnd answer
                st0 Hreg Hobj Hact Hup) as Hawait.
  cbv zeta in Hawait.
  destruct (after_update_schedule session position rnd) as (Hpos & _ & _ & Hcase).
  cbv zeta in Hpos, Hcase.
  destruct (after_update_buffer session position rnd) as (Hsegs & _ & _ & Hid & _).
  assert (heap st0 !! r = Some (after_update session position rnd).1) as Hobj0.
  { rewrite Hh0. apply list_lookup_insert_eq. eapply lookup_lt_Some; eauto. }
  destruct (decide (segmentEndTime session - 30 <= position)) as [Hcross|Hnot].
  - assert (pending st0 !! length (pending st) = Some (NextSegment r)) as Hk.
    { rewrite Hp0. apply list_lookup_middle. reflexivity. }
    set (st' := resume (length (pending st)) (Answer.mk None None answer) st0) in *.
    assert (st' = generateNextSegment_resume r answer
                    (StreamingService.set_pending (delete (length (pending st)) (pending st0))
                       st0)) as Hst'.
    { subst st'. unfold resume. rewrite Hk. reflexivity. }
    destruct (generateNextSegment_resume_fields r answer
                (StreamingService.set_pending (delete (length (pending st)) (pending st0)) st0)
                (after_update session position rnd).1 Hobj0)
      as (_ & _ & _ & Hgen).
    rewrite <- Hst' in Hgen. simpl in Hgen.
    unfold generateNextSegment_rejects in *.
    destruct (answer ≫= generateMusicSegment nextSegmentOptions) as [newSegment|] eqn:Hans.
    + destruct Hgen as (Hobj' & He' & _).
      exists st0, st', (push_segment (after_update session position rnd).1 newSegment).1.
      split; [exact Hup|]. split; [reflexivity|]. split; [exact Hawait|].
      split; [exact Hobj'|].
      destruct (push_segment_schedule (after_update session position rnd).1 newSegment)
        as [-> ->].
      split; [exact Hpos|]. split; [|discriminate].
      intros Hquiet.
      rewrite decide_False in Hcase by (intros [H _]; contradiction).
      destruct Hcase as [Hlast Hnone]. split; [exact Hlast|].
      rewrite (emitted_since_app st st'
                 [Event.newSegmentReady
                    (StreamingSession.id (after_update session position rnd).1) newSegment]).
      * reflexivity.
      * rewrite He', He0, Hnone, app_nil_r. reflexivity.
    + destruct Hgen as (Hobj' & He' & _).
      exists st0, st', (after_update session position rnd).1.
      split; [exact Hup|]. split; [reflexivity|]. split; [exact Hawait|].
      split; [exact Hobj'|]. split; [exact Hpos|]. split.
      * intros Hquiet.
        rewrite decide_False in Hcase by (intros [H _]; contradiction).
        destruct Hcase as [Hlast Hnone]. split; [exact Hlast|].
        rewrite (emitted_since_app st st'
                   [Event.error (StreamingSession.id (after_update session position rnd).1)]).
        -- reflexivity.
        -- rewrite He', He0, Hnone, app_nil_r. reflexivity.
      * intros _ _. split; [|exact Hsegs].
        rewrite <- Hid. apply emitted_since_app. exact He'.
  - exists st0, st0, (after_update session position rnd).1.
    split; [exact Hup|]. split; [reflexivity|]. split; [exact Hawait|].
    split; [exact Hobj0|]. split; [exact Hpos|]. split; [|intros; contradiction].
    intros Hquiet.
    rewrite decide_False in Hcase by (intros [H _]; contradiction).
    destruct Hcase as [Hlast Hnone]. split; [exact Hlast|].
    rewrite (emitted_since_app _ _ _ He0), Hnone. reflexivity.
Qed.

(** An instance: the session of the sample options reports position 40,
    past its growth trigger, and the generation process fails: the update
    is rejected, position 40 is stored and [error] has been emitted. *)
Lemma updatePosition_rejected_by_failed_generation_witness :
  exists st' session',
    updateSessionPosition_await "s1" 40 0 (Some failed_draw) populated_state
    = Rejected Unhandled_error st'
    /\ heap st' !! 0%nat = Some session'
    /\ StreamingSession.currentPosition session' = 40
    /\ Event.error "s1" ∈ emitted st'.
Proof.
  destruct (updatePosition_rejected_by_failed_generation populated_state "s1" 0 _ 40 0
              (Some failed_draw) eq_refl eq_refl eq_refl)
    as (st0 & st' & session' & _ & _ & Hawait & Hobj & Hpos & _ & Herr).
  exists st', session'. split; [exact Hawait|]. split; [exact Hobj|]. split; [exact Hpos|].
  destruct (Herr ltac:(vm_compute; discriminate) eq_refl) as [Hemit _].
  unfold emitted_since in Hemit.
  rewrite <- (take_drop (length (emitted st0)) (emitted st')), Hemit.
  apply elem_of_app. right. left.
Defined.

(** ** Stopping a session *)

(** C7: stopping a registered session twice in sequence succeeds the first
    time and throws "Session not found" the second time, the record having
    been removed; the first call hands each file of the session's segments
    and affirmations to [fs.unlink] once, the second call none, so no file
    is released twice. *)
Theorem stopSession_twice
    (st : Service) (sessionId : string) (r : nat) (session : StreamingSession.t) :
  sessions st !! sessionId = Some r ->
  heap st !! r = Some session ->
  NoDup (cleanupSession session) ->
  exists st1,
    stopSession sessionId st = Ok st1
    /\ sessions st1 !! sessionId = None
    /\ stopSession sessionId st1 = Throw Session_not_found
    /\ unlinked_since st st1 = cleanupSession session
    /\ unlinked_since st (or_unchanged st1 (stopSession sessionId st1))
       = cleanupSession session
    /\ NoDup (unlinked_since st (or_unchanged st1 (stopSession sessionId st1))).
Proof.
  intros Hreg Hobj Hnodup.
  destruct (stopSession_registered sessionId st r Hreg)
    as (st1 & Hstop & Hsess & _ & _ & _ & Hunl).
  exists st1. split; [exact Hstop|].
  assert (sessions st1 !! sessionId = None) as Hnone.
  { rewrite Hsess. apply lookup_delete_eq. }
  split; [exact Hnone|].
  rewrite (stopSession_unregistered _ _ Hnone). split; [reflexivity|].
  assert (unlinked_since st st1 = cleanupSession session) as Hreleased.
  { unfold unlinked_since. rewrite Hunl, Hobj. simpl. apply drop_app_length. }
  split; [exact Hreleased|]. simpl. rewrite Hreleased.
  split; [reflexivity | exact Hnodup].
Qed.

(** An instance: stopping the busy session releases its three remaining
    segment files once; the second stop throws. *)
Lemma stopSession_twice_witness :
  exists st1,
    stopSession "s1" busy_state = Ok st1
    /\ stopSession "s1" st1 = Throw Session_not_found
    /\ unlinked_since busy_state st1
       = ["/tmp/generated_music/n2.wav"; "/tmp/generated_music/n3.wav";
          "/tmp/generated_music/n4.wav"].
Proof.
  destruct (stopSession_twice busy_state "s1" 0 _ eq_refl eq_refl)
    as (st1 & Hfirst & _ & Hsecond & Hreleased & _).
  - apply (bool_decide_unpack _). vm_compute. exact I.
  - exists st1. split; [exact Hfirst|]. split; [exact Hsecond|]. exact Hreleased.
Defined.

(** ** Creating a session *)

(** C9, as the spec states it, fails: creation does not validate.  With
    [bufferSize = -1] and [affirmationInterval = -5] a session is created
    and registered with these values; with both 0 it is created with the
    defaults 3 and 30. *)
Lemma create_accepts_invalid_options :
  (exists session,
      getSession "s1"
        (step (Create (StreamingOptions.mk 7 "alice" (Some (-5)) (Some (-1)) None)
                 sample_track "s1" 1000) StreamingService.init) = Some session
      /\ StreamingSession.bufferSize session = -1
      /\ StreamingSession.affirmationInterval session = -5
      /\ StreamingSession.isActive session = true)
  /\ (exists session,
      getSession "s1"
        (step (Create (StreamingOptions.mk 7 "alice" (Some 0) (Some 0) None)
                 sample_track "s1" 1000) StreamingService.init) = Some session
      /\ StreamingSession.bufferSize session = 3
      /\ StreamingSession.affirmationInterval session = 30
      /\ StreamingSession.isActive session = true).
Proof.
  split; eexists; (split; [vm_compute; reflexivity|]); repeat split; reflexivity.
Qed.

(** C9 (amended): session creation validates nothing and never fails.  For
    every options value it registers, under the id it draws, a session with
    [isActive = true], [currentPosition = 0], [currentSegmentIndex = 0],
    [lastAffirmationTime = 0], no segments and no affirmations yet,
    [totalDuration] the track's minutes times 60, and [bufferSize] and
    [affirmationInterval] as given, 3 and 30 standing in for a missing or
    zero value; every session registered under another id stays as it
    was. *)
Theorem createStreamingSession_registers
    (options : StreamingOptions.t) (trackData : TrackData.t)
    (sessionId : string) (now : Z) (st : Service) :
  let st' := snd (createStreamingSession options trackData sessionId now st) in
  exists session,
    getSession sessionId st' = Some session
    /\ StreamingSession.id session = sessionId
    /\ StreamingSession.isActive session = true
    /\ StreamingSession.currentPosition session = 0
    /\ StreamingSession.currentSegmentIndex session = 0
    /\ StreamingSession.lastAffirmationTime session = 0
    /\ StreamingSession.musicSegments session = []
    /\ StreamingSession.affirmations session = []
    /\ StreamingSession.startTime session = now
    /\ StreamingSession.totalDuration session = TrackData.duration trackData * 60
    /\ StreamingSession.bufferSize session
       = match StreamingOptions.bufferSize options with
         | Some v => if decide (v = 0) then 3 else v
         | None => 3
         end
    /\ StreamingSession.affirmationInterval session
       = match StreamingOptions.affirmationInterval options with
         | Some v => if decide (v = 0) then 30 else v
         | None => 30
         end
    /\ (forall other, other <> sessionId -> sessions st' !! other = sessions st !! other).
Proof.
  destruct (createStreamingSession_fields options trackData sessionId now st)
    as (_ & Hs & Hh & _).
  cbv zeta in *.
  set (st' := snd (createStreamingSession options trackData sessionId now st)) in *.
  exists (new_session options trackData sessionId now).
  split.
  - unfold getSession. rewrite Hs, lookup_insert_eq, Hh.
    apply list_lookup_middle. reflexivity.
  - repeat split; try reflexivity.
    intros other Hother. rewrite Hs. apply lookup_insert_ne. congruence.
Qed.

(** An instance: the sample options on the empty service. *)
Lemma createStreamingSession_registers_witness :
  exists session,
    getSession "s1"
      (snd (createStreamingSession sample_options sample_track "s1" 1000
              StreamingService.init)) = Some session
    /\ StreamingSession.isActive session = true
    /\ StreamingSession.bufferSize session = 3
    /\ StreamingSession.affirmationInterval session = 30.
Proof.
  destruct (createStreamingSession_registers sample_options sample_track "s1" 1000
              StreamingService.init)
    as (session & Hget & _ & Hact & _ & _ & _ & _ & _ & _ & _ & Hbuf & Hint & _).
  exists session. split; [exact Hget|]. split; [exact Hact|].
  split; [exact Hbuf | exact Hint].
Defined.

(** ** The retention sweeper *)

Lemma NoDup_sessionsToCleanup now st : NoDup (sessionsToCleanup now st).
Proof.
  unfold sessionsToCleanup.
  eapply sublist_NoDup; [apply (NoDup_fst_map_to_list (sessions st))|].
  apply fmap_sublist, sublist_filter.
Qed.

Lemma lookup_foldl_delete (m : gmap string nat) ids k :
  foldl (λ m k, delete k m) m ids !! k = if decide (k ∈ ids) then None else m !! k.
Proof.
  revert m. induction ids as [|a ids IH]; intros m; cbn [foldl].
  - rewrite decide_False by apply not_elem_of_nil. reflexivity.
  - rewrite IH. destruct (decide (k ∈ ids)) as [Hin|Hnin].
    + rewrite decide_True by (right; exact Hin). reflexivity.
    + destruct (decide (a = k)) as [->|Hne].
      * rewrite decide_True by left. apply lookup_delete_eq.
      * rewrite decide_False by (rewrite elem_of_cons; intros [?|?]; congruence).
        apply lookup_delete_ne. exact Hne.
Qed.

Lemma count_sessionStopped_fmap sessionId ids :
  NoDup ids ->
  count_sessionStopped sessionId (Event.sessionStopped <$> ids)
  = if decide (sessionId ∈ ids) then 1%nat else 0%nat.
Proof.
  unfold count_sessionStopped.
  induction 1 as [|k ids Hk Hnodup IH]; [reflexivity|].
  rewrite fmap_cons, filter_cons. simpl.
  destruct (decide (k = sessionId)) as [->|Hne].
  - rewrite bool_decide_true by reflexivity. rewrite decide_True by reflexivity.
    rewrite decide_True by left. simpl. rewrite IH.
    rewrite decide_False by exact Hk. reflexivity.
  - rewrite bool_decide_false by exact Hne. rewrite decide_False by discriminate.
    rewrite IH. destruct (decide (sessionId ∈ ids)) as [Hin|Hout].
    + rewrite decide_True by (right; exact Hin). reflexivity.
    + rewrite decide_False; [reflexivity|].
      rewrite elem_of_cons. intros [?|?]; [congruence | contradiction].
Qed.

Lemma filter_calls_fmap (files : string -> list string) sessionId ids :
  NoDup ids ->
  filter (λ call, StopCall.sessionId call = sessionId)
         ((λ k, StopCall.mk k (files k)) <$> ids)
  = if decide (sessionId ∈ ids) then [StopCall.mk sessionId (files sessionId)] else [].
Proof.
  induction 1 as [|k ids Hk Hnodup IH]; [reflexivity|].
  rewrite fmap_cons, filter_cons. simpl.
  destruct (decide (k = sessionId)) as [->|Hne].
  - rewrite decide_True by left. rewrite IH.
    rewrite decide_False by exact Hk. reflexivity.
  - rewrite IH. destruct (decide (sessionId ∈ ids)) as [Hin|Hout].
    + rewrite decide_True by (right; exact Hin). reflexivity.
    + rewrite decide_False; [reflexivity|].
      rewrite elem_of_cons. intros [?|?]; [congruence | contradiction].
Qed.

Lemma elem_of_concat_fmap (files : string -> list string) ids k path :
  k ∈ ids -> path ∈ files k -> path ∈ concat (files <$> ids).
Proof.
  intros Hk Hpath. induction ids as [|k' ids IH]; [inversion Hk|].
  simpl. apply elem_of_app. apply elem_of_cons in Hk as [<- | Hk].
  - left. exact Hpath.
  - right. apply IH. exact Hk.
Qed.

Section Started.
Variable st : Service.
Variable ids : list string.
Hypothesis ids_registered : Forall (λ sessionId, is_Some (sessions st !! sessionId)) ids.
Hypothesis ids_NoDup : NoDup ids.

Local Abbreviation started := (foldl stopSession_started ([], st) ids).

(** Stops started for distinct registered ids: a session that is among
    them. *)
Lemma started_stop sessionId r session :
  sessions st !! sessionId = Some r ->
  heap st !! r = Some session ->
  sessionId ∈ ids ->
  stop_started st started sessionId r session.
Proof.
  intros Hreg Hobj Hin.
  destruct (stopSession_started_fold ids [] st ids_registered)
    as (Hc & Hs & Hp & He & Hu & Hh & _).
  cbv zeta in Hc, Hs, Hp, He, Hu, Hh. simpl in Hc.
  destruct (settle_fields started.1 started.2) as (Hs' & Hh' & _ & _ & Hu').
  assert (session_files sessionId st = cleanupSession session) as Hfiles.
  { rewrite (session_files_registered _ _ _ Hreg), Hobj. reflexivity. }
  assert (heap started.2 !! r = Some (StreamingSession.set_isActive false session)) as Hflag.
  { rewrite Hh, decide_True, Hobj; [reflexivity|].
    apply Exists_exists. exists sessionId. split; [exact Hin | exact Hreg]. }
  unfold stop_started. cbv zeta.
  split; [rewrite Hs; exact Hreg|]. split; [exact Hflag|].
  split.
  { rewrite (emitted_since_app _ _ _ He), (count_sessionStopped_fmap _ _ ids_NoDup).
    rewrite decide_True by exact Hin. reflexivity. }
  split.
  { rewrite Hc, (filter_calls_fmap (λ k, drop 1 (session_files k st)) _ _ ids_NoDup).
    rewrite decide_True by exact Hin. rewrite Hfiles. reflexivity. }
  split.
  { intros path Hpath. unfold unlinked_since. rewrite Hu, drop_app_length.
    apply (elem_of_concat_fmap (λ k, take 1 (session_files k st)) ids sessionId path Hin).
    simpl. rewrite Hfiles. exact Hpath. }
  split.
  { rewrite Hs', Hs, Hc, lookup_foldl_delete, decide_True; [reflexivity|].
    apply list_elem_of_fmap. eexists. split; [|apply list_elem_of_fmap; eauto]. reflexivity. }
  split; [rewrite Hh'; exact Hflag|].
  intros path Hpath. unfold unlinked_since.
  rewrite Hu', Hu, <- app_assoc, drop_app_length.
  rewrite <- (take_drop 1 (cleanupSession session)) in Hpath.
  apply elem_of_app in Hpath as [Hfirst | Hrest]; apply elem_of_app; [left | right].
  - apply (elem_of_concat_fmap (λ k, take 1 (session_files k st)) ids sessionId path Hin).
    simpl. rewrite Hfiles. exact Hfirst.
  - rewrite Hc, <- list_fmap_compose.
    apply (elem_of_concat_fmap (λ k, drop 1 (session_files k st)) ids sessionId path Hin).
    simpl. rewrite Hfiles. exact Hrest.
Qed.

(** A session whose object none of them names. *)
Lemma started_no_stop sessionId r session :
  sessions st !! sessionId = Some r ->
  heap st !! r = Some session ->
  (forall k, k ∈ ids -> sessions st !! k <> Some r) ->
  stop_not_started st started sessionId r session.
Proof.
  intros Hreg Hobj Hout.
  assert (sessionId ∉ ids) as Hnotin.
  { intros Hin. exact (Hout sessionId Hin Hreg). }
  destruct (stopSession_started_fold ids [] st ids_registered)
    as (Hc & Hs & Hp & He & Hu & Hh & _).
  cbv zeta in Hc, Hs, Hp, He, Hu, Hh. simpl in Hc.
  destruct (settle_fields started.1 started.2) as (Hs' & Hh' & _).
  assert (heap started.2 !! r = Some session) as Hsame.
  { rewrite Hh, decide_False; [exact Hobj|].
    intros Hex. apply Exists_exists in Hex as (k & Hk & Hkr). exact (Hout k Hk Hkr). }
  unfold stop_not_started. cbv zeta.
  split; [rewrite Hs; exact Hreg|]. split; [exact Hsame|].
  split.
  { rewrite (emitted_since_app _ _ _ He), (count_sessionStopped_fmap _ _ ids_NoDup).
    rewrite decide_False by exact Hnotin. reflexivity. }
  split.
  { rewrite Hc, (filter_calls_fmap (λ k, drop 1 (session_files k st)) _ _ ids_NoDup).
    rewrite decide_False by exact Hnotin. reflexivity. }
  split; [|rewrite Hh'; exact Hsame].
  rewrite Hs', Hs, Hc, lookup_foldl_delete, decide_False; [exact Hreg|].
  intros Hin. apply list_elem_of_fmap in Hin as (call & Hid & Hcall).
  apply list_elem_of_fmap in Hcall as (k & -> & Hk). simpl in Hid. subst k.
  contradiction.
Qed.
End Started.

(** The test of the sweeper, on a registered session. *)
Lemma sessionsToCleanup_stale now st sessionId r session :
  sessions st !! sessionId = Some r ->
  heap st !! r = Some session ->
  sessionId ∈ sessionsToCleanup now st
  <-> (StreamingSession.isActive session = false
       \/ 30 * 60 * 1000 < now - StreamingSession.startTime session).
Proof.
  intros Hreg Hobj. rewrite elem_of_sessionsToCleanup.
  unfold sweep_selects, maxInactiveTime. split.
  - intros (r' & Hr' & Hsel). rewrite Hreg in Hr'. injection Hr' as <-.
    rewrite Hobj in Hsel. apply orb_true_iff in Hsel as [Hact | Hage].
    + left. apply negb_true_iff. exact Hact.
    + right. apply bool_decide_eq_true in Hage. exact Hage.
  - intros Hstale. exists r. split; [exact Hreg|]. rewrite Hobj.
    apply orb_true_iff. destruct Hstale as [Hact | Hage].
    + left. apply negb_true_iff. exact Hact.
    + right. apply bool_decide_eq_true. exact Hage.
Qed.

Lemma sweep_stops_stale now st sessionId r session :
  sessions st !! sessionId = Some r ->
  heap st !! r = Some session ->
  sessionId ∈ sessionsToCleanup now st ->
  stop_started st (cleanupInactiveSessions now st) sessionId r session.
Proof.
  intros Hreg Hobj Hin.
  apply (started_stop st (sessionsToCleanup now st)
           (sessionsToCleanup_registered now st) (NoDup_sessionsToCleanup now st)
           sessionId r session Hreg Hobj Hin).
Qed.

Lemma sweep_spares_fresh now st sessionId r session :
  sessions st !! sessionId = Some r ->
  heap st !! r = Some session ->
  sessionId ∉ sessionsToCleanup now st ->
  stop_not_started st (cleanupInactiveSessions now st) sessionId r session.
Proof.
  intros Hreg Hobj Hout.
  apply (started_no_stop st (sessionsToCleanup now st)
           (sessionsToCleanup_registered now st) (NoDup_sessionsToCleanup now st)
           sessionId r session Hreg Hobj).
  intros k Hk Hkr. apply Hout.
  apply elem_of_sessionsToCleanup in Hk as (r' & Hr' & Hsel).
  apply elem_of_sessionsToCleanup. exists r. split; [exact Hreg|]. congruence.
Qed.

(** A position update, awaited or not, leaves the registry and the start
    time of the session. *)
Lemma updateSessionPosition_startTime st sessionId r session position rnd :
  sessions st !! sessionId = Some r ->
  heap st !! r = Some session ->
  (forall st1,
      updateSessionPosition sessionId position rnd st = Ok st1 ->
      exists session1,
        sessions st1 !! sessionId = Some r
        /\ heap st1 !! r = Some session1
        /\ StreamingSession.currentPosition session1 = position
        /\ StreamingSession.startTime session1 = StreamingSession.startTime session)
  /\ (forall answer,
        exists session1,
          sessions (settled_state (updateSessionPosition_await sessionId position rnd answer st))
            !! sessionId = Some r
          /\ heap (settled_state (updateSessionPosition_await sessionId position rnd answer st))
               !! r = Some session1
          /\ StreamingSession.startTime session1 = StreamingSession.startTime session).
Proof.
  intros Hreg Hobj.
  destruct (after_update_buffer session position rnd) as (_ & _ & _ & _ & Hstart & _).
  destruct (after_update_schedule session position rnd) as (Hpos & _).
  cbv zeta in Hpos.
  destruct (StreamingSession.isActive session) eqn:Hact.
  - destruct (updateSessionPosition_active st sessionId r session position rnd
                Hreg Hobj Hact) as (st0 & Hup & Hs0 & Hh0 & _).
    assert (heap st0 !! r = Some (after_update session position rnd).1) as Hobj0.
    { rewrite Hh0. apply list_lookup_insert_eq. eapply lookup_lt_Some; eauto. }
    split.
    + intros st1 Hup1. rewrite Hup in Hup1. injection Hup1 as <-.
      exists (after_update session position rnd).1.
      split; [rewrite Hs0; exact Hreg|]. split; [exact Hobj0|]. split; assumption.
    + intros answer.
      rewrite (updateSessionPosition_await_active st sessionId r session position rnd answer
                 Hreg Hobj Hact). cbv zeta.
      set (written := StreamingService.emit _ _).
      assert (sessions written = sessions st /\ heap written = heap st0) as [Hsw Hhw].
      { subst written. rewrite Hh0. split; reflexivity. }
      assert (exists session1,
                 sessions (generateNextSegment_resume r answer written) !! sessionId = Some r
                 /\ heap (generateNextSegment_resume r answer written) !! r = Some session1
                 /\ StreamingSession.startTime session1 = StreamingSession.startTime session)
        as Hgen.
      { rewrite <- Hhw in Hobj0.
        destruct (generateNextSegment_resume_fields r answer written _ Hobj0)
          as (Hs & _ & _ & Hcase).
        cbv zeta in Hs, Hcase. rewrite Hs, Hsw.
        destruct (answer ≫= generateMusicSegment nextSegmentOptions) as [newSegment|].
        - destruct Hcase as (Hobj' & _). eexists. split; [exact Hreg|].
          split; [exact Hobj'|]. rewrite <- Hstart. unfold push_segment.
          case_decide; [|reflexivity].
          destruct (StreamingSession.musicSegments _ ++ [newSegment]); reflexivity.
        - destruct Hcase as (Hobj' & _). eexists. split; [exact Hreg|].
          split; [exact Hobj'|]. exact Hstart. }
      case_decide; [destruct (generateNextSegment_rejects answer)|];
        cbn [settled_state]; try exact Hgen.
      exists (after_update session position rnd).1.
      split; [rewrite Hsw; exact Hreg|]. split; [rewrite Hhw; exact Hobj0|]. exact Hstart.
  - split.
    + intros st1 Hup. unfold updateSessionPosition in Hup. rewrite Hreg in Hup.
      simpl in Hup. rewrite Hobj in Hup. simpl in Hup. rewrite Hact in Hup. discriminate.
    + intros answer. unfold updateSessionPosition_await. rewrite Hreg. simpl.
      rewrite Hobj. simpl. rewrite Hact. simpl.
      exists session. split; [exact Hreg|]. split; [exact Hobj | reflexivity].
Qed.

(** C8: a sweep pass stops a registered session exactly when it is not
    active or [now - startTime] exceeds 30 minutes.  The pass starts the
    stop and does not await it: when the pass returns, a stopped session is
    flagged inactive, [sessionStopped] has been emitted for it once and its
    first file handed to [fs.unlink], and it is still registered; once the
    started stops have settled it is no longer registered and all its files
    have been handed to [fs.unlink].  A session the pass does not stop is
    left as it is.  A position update, awaited or still waiting for its
    generation, leaves [startTime] as it was, so a session created 31
    minutes before the pass is stopped by it whatever position update it
    received. *)
Theorem sweep_stops_by_age
    (st : Service) (now : Z) (sessionId : string) (r : nat) (session : StreamingSession.t) :
  sessions st !! sessionId = Some r ->
  heap st !! r = Some session ->
  let stale := StreamingSession.isActive session = false
               \/ 30 * 60 * 1000 < now - StreamingSession.startTime session in
  (sessionId ∈ sessionsToCleanup now st <-> stale)
  /\ (stale -> stop_started st (cleanupInactiveSessions now st) sessionId r session)
  /\ (~ stale -> stop_not_started st (cleanupInactiveSessions now st) sessionId r session)
  /\ (forall position rnd st1,
        updateSessionPosition sessionId position rnd st = Ok st1 ->
        exists session1,
          sessions st1 !! sessionId = Some r
          /\ heap st1 !! r = Some session1
          /\ StreamingSession.currentPosition session1 = position
          /\ StreamingSession.startTime session1 = StreamingSession.startTime session)
  /\ (now - StreamingSession.startTime session = 31 * 60 * 1000 ->
      (forall position rnd st1,
          updateSessionPosition sessionId position rnd st = Ok st1 ->
          exists session1,
            heap st1 !! r = Some session1
            /\ StreamingSession.currentPosition session1 = position
            /\ stop_started st1 (cleanupInactiveSessions now st1) sessionId r session1)
      /\ (forall position rnd answer,
            let st1 :=
              settled_state (updateSessionPosition_await sessionId position rnd answer st) in
            exists session1,
              heap st1 !! r = Some session1
              /\ stop_started st1 (cleanupInactiveSessions now st1) sessionId r session1)).
Proof.
  intros Hreg Hobj stale. subst stale.
  pose proof (sessionsToCleanup_stale now st sessionId r session Hreg Hobj) as Hselected.
  split; [exact Hselected|].
  split; [intros Hstale; apply sweep_stops_stale; [exact Hreg | exact Hobj |];
          apply Hselected; exact Hstale|].
  split; [intros Hfresh; apply sweep_spares_fresh; [exact Hreg | exact Hobj |];
          intros Hin; apply Hfresh, Hselected; exact Hin|].
  split.
  { intros position rnd.
    apply (updateSessionPosition_startTime st sessionId r session position rnd Hreg Hobj). }
  intros Hage. split.
  - intros position rnd st1 Hup.
    destruct (proj1 (updateSessionPosition_startTime st sessionId r session position rnd
                       Hreg Hobj) st1 Hup) as (session1 & Hreg1 & Hobj1 & Hpos & Hstart).
    exists session1. split; [exact Hobj1|]. split; [exact Hpos|].
    apply sweep_stops_stale; [exact Hreg1 | exact Hobj1 |].
    apply (sessionsToCleanup_stale now st1 sessionId r session1 Hreg1 Hobj1).
    right. rewrite Hstart. lia.
  - intros position rnd answer. cbv zeta.
    destruct (proj2 (updateSessionPosition_startTime st sessionId r session position rnd
                       Hreg Hobj) answer) as (session1 & Hreg1 & Hobj1 & Hstart).
    exists session1. split; [exact Hobj1|].
    apply sweep_stops_stale; [exact Hreg1 | exact Hobj1 |].
    apply (sessionsToCleanup_stale now _ sessionId r session1 Hreg1 Hobj1).
    right. rewrite Hstart. lia.
Qed.

(** An instance: a session created at time 1000 reports position 1859 and
    is stopped by the pass 31 minutes after its creation: when the pass
    returns the session is flagged and still registered, and once its stop
    has settled it is no longer registered. *)
Lemma sweep_stops_by_age_witness :
  let now := 1000 + 31 * 60 * 1000 in
  exists st1 session1,
    updateSessionPosition "s1" 1859 0 scenario_state = Ok st1
    /\ heap st1 !! 0%nat = Some session1
    /\ StreamingSession.isActive session1 = true
    /\ sessions (cleanupInactiveSessions now st1).2 !! "s1" = Some 0%nat
    /\ heap (cleanupInactiveSessions now st1).2 !! 0%nat
       = Some (StreamingSession.set_isActive false session1)
    /\ count_sessionStopped "s1" (emitted_since st1 (cleanupInactiveSessions now st1).2)
       = 1%nat
    /\ sessions (settle (cleanupInactiveSessions now st1).1
                   (cleanupInactiveSessions now st1).2) !! "s1" = None.
Proof.
  cbv zeta.
  destruct (sweep_stops_by_age scenario_state (1000 + 31 * 60 * 1000) "s1" 0 _
              eq_refl eq_refl) as (_ & _ & _ & _ & Hscenario).
  destruct (updateSessionPosition "s1" 1859 0 scenario_state) as [st1|e] eqn:Hup;
    [|vm_compute in Hup; discriminate].
  destruct (proj1 (Hscenario eq_refl) 1859 0%nat st1 Hup)
    as (session1 & Hobj1 & _ & Hreg & Hflag & Hcount & _ & _ & Hgone & _).
  exists st1, session1. split; [reflexivity|]. split; [exact Hobj1|].
  split.
  { injection Hup as <-. vm_compute in Hobj1. injection Hobj1 as <-. reflexivity. }
  split; [exact Hreg|]. split; [exact Hflag|]. split; [exact Hcount | exact Hgone].
Defined.

(** * Further properties of the code *)

(** ** The batch generator, turn by turn *)

Lemma generateStreamingSegments_loop_turns options segmentCount draws i n :
  generateStreamingSegments_loop options
    (ceil_div (MusicGenerationOptions.duration options) segmentCount) draws i n
  = batch_segment options segmentCount draws
    <$> filter (λ i, SegmentDraw.succeeded (BatchDraw.segment (draws i)) = true) (seq i n).
Proof.
  revert i. induction n as [|n IH]; intros i; [reflexivity|].
  cbn [generateStreamingSegments_loop seq]. rewrite IH, filter_cons.
  unfold generateMusicSegment.
  destruct (SegmentDraw.succeeded (BatchDraw.segment (draws i))) eqn:Hok.
  - rewrite decide_True by reflexivity. rewrite fmap_cons. reflexivity.
  - rewrite decide_False by discriminate. reflexivity.
Qed.

(** [Math.ceil] rounds up by less than one: [count] pieces overshoot
    [total] by less than [count]. *)
Lemma ceil_div_overshoot total count :
  0 < count -> count * ceil_div total count < total + count.
Proof.
  intros Hc. unfold ceil_div.
  pose proof (Z.mul_succ_div_gt (- total) count Hc). lia.
Qed.

(** X1: the batch consists of exactly the segments of the successful
    generation calls, in the order of the calls: the call of turn [i]
    contributes the segment written to [<uuid>_segment_<i>.wav] with the
    recorded duration [ceil (duration / segmentCount)], a failed call
    contributes nothing; so the batch has as many segments as calls
    succeeded. *)
Theorem generateStreamingSegments_successful_turns
    (options : MusicGenerationOptions.t) (segmentCount : Z) (draws : nat -> BatchDraw.t) :
  generateStreamingSegments options segmentCount draws
  = batch_segment options segmentCount draws
    <$> successful_turns draws (Z.to_nat segmentCount)
  /\ length (generateStreamingSegments options segmentCount draws)
     = length (successful_turns draws (Z.to_nat segmentCount))
  /\ (segmentCount <= 0 -> generateStreamingSegments options segmentCount draws = []).
Proof.
  assert (generateStreamingSegments options segmentCount draws
          = batch_segment options segmentCount draws
            <$> successful_turns draws (Z.to_nat segmentCount)) as Heq.
  { apply generateStreamingSegments_loop_turns. }
  split; [exact Heq|]. split.
  - rewrite Heq. apply length_fmap.
  - intros Hneg. rewrite Heq. unfold successful_turns.
    replace (Z.to_nat segmentCount) with 0%nat by lia. reflexivity.
Qed.

(** An instance: the batch of three whose second call fails holds the
    segments of turns 0 and 2. *)
Lemma generateStreamingSegments_successful_turns_witness :
  GeneratedSegment.audioPath
  <$> generateStreamingSegments nextSegmentOptions 3 second_fails
  = ["/tmp/generated_music/seg0_segment_0.wav"; "/tmp/generated_music/seg2_segment_2.wav"]
  /\ generateStreamingSegments nextSegmentOptions (-3) second_fails = [].
Proof.
  destruct (generateStreamingSegments_successful_turns nextSegmentOptions 3 second_fails)
    as (-> & _ & _).
  split; [reflexivity|].
  apply (generateStreamingSegments_successful_turns nextSegmentOptions (-3) second_fails).
  lia.
Defined.

(** X2: when all [segmentCount > 0] generation calls succeed, the recorded
    durations of the batch sum to at least the requested duration and to
    less than [segmentCount] seconds more. *)
Theorem generateStreamingSegments_overshoot
    (options : MusicGenerationOptions.t) (segmentCount : Z) (draws : nat -> BatchDraw.t) :
  0 < segmentCount ->
  (forall i, (i < Z.to_nat segmentCount)%nat ->
             SegmentDraw.succeeded (BatchDraw.segment (draws i)) = true) ->
  let segments := generateStreamingSegments options segmentCount draws in
  Z.of_nat (length segments) = segmentCount
  /\ MusicGenerationOptions.duration options <= sum_durations segments
  /\ sum_durations segments < MusicGenerationOptions.duration options + segmentCount.
Proof.
  intros Hpos Hok segments.
  pose proof (generateStreamingSegments_all_succeed options segmentCount draws Hok) as Hlen.
  pose proof (generateStreamingSegments_durations options segmentCount draws) as Hdur.
  fold segments in Hlen, Hdur.
  rewrite (sum_durations_uniform _ _ Hdur), Hlen, Z2Nat.id by lia.
  pose proof (ceil_div_covers (MusicGenerationOptions.duration options) segmentCount Hpos).
  pose proof (ceil_div_overshoot (MusicGenerationOptions.duration options) segmentCount Hpos).
  lia.
Qed.

(** An instance: 100 seconds in three pieces of 34 seconds. *)
Lemma generateStreamingSegments_overshoot_witness :
  sum_durations
    (generateStreamingSegments
       (MusicGenerationOptions.mk "" 100 sleep [] None) 3 all_succeed) = 102
  /\ 100 <= sum_durations
              (generateStreamingSegments
                 (MusicGenerationOptions.mk "" 100 sleep [] None) 3 all_succeed)
            < 100 + 3.
Proof.
  split; [reflexivity|].
  destruct (generateStreamingSegments_overshoot
              (MusicGenerationOptions.mk "" 100 sleep [] None) 3 all_succeed)
    as (_ & Hlow & Hhigh).
  - lia.
  - intros i Hi. reflexivity.
  - split; [exact Hlow | exact Hhigh].
Defined.

(** ** Removing old files *)

Lemma cleanup_loop_old now files path :
  path ∈ cleanup_loop now files ->
  exists entry mtime,
    entry ∈ files
    /\ path = path_join outputDir (DirEntry.file entry)
    /\ DirEntry.mtime entry = Some mtime
    /\ oneHour < now - mtime.
Proof.
  induction files as [|entry rest IH]; simpl; [intros H; inversion H|].
  destruct (DirEntry.mtime entry) as [mtime|] eqn:Hm; [|intros H; inversion H].
  case_decide as Hold.
  - destruct (DirEntry.unlinks entry); [|intros H; inversion H].
    rewrite elem_of_cons. intros [-> | Hin].
    + exists entry, mtime. repeat split; [left | assumption..].
    + destruct (IH Hin) as (e & m & He & Hrest). exists e, m. split; [right; exact He | exact Hrest].
  - intros Hin. destruct (IH Hin) as (e & m & He & Hrest).
    exists e, m. split; [right; exact He | exact Hrest].
Qed.

Lemma cleanup_loop_no_failure now files :
  Forall (λ entry, cleanup_fails now entry = false) files ->
  cleanup_loop now files
  = (λ entry, path_join outputDir (DirEntry.file entry))
    <$> filter (λ entry, is_old now entry = true) files.
Proof.
  induction 1 as [|entry rest Hentry _ IH]; [reflexivity|].
  cbn [cleanup_loop]. rewrite filter_cons.
  assert (is_old now entry
          = match DirEntry.mtime entry with
            | Some mtime => bool_decide (oneHour < now - mtime)
            | None => false
            end) as Hio by reflexivity.
  unfold cleanup_fails in Hentry.
  destruct (DirEntry.mtime entry) as [mtime|]; [|discriminate].
  destruct (decide (oneHour < now - mtime)) as [Hold|Hold].
  - rewrite bool_decide_true in Hentry, Hio by exact Hold.
    destruct (DirEntry.unlinks entry); [|discriminate].
    rewrite (decide_True (P := is_old now entry = true)) by exact Hio.
    rewrite fmap_cons, IH. reflexivity.
  - rewrite bool_decide_false in Hio by exact Hold.
    rewrite (decide_False (P := is_old now entry = true)) by (rewrite Hio; discriminate).
    exact IH.
Qed.

Lemma cleanup_loop_aborts now before entry after :
  cleanup_fails now entry = true ->
  cleanup_loop now (before ++ entry :: after) = cleanup_loop now before.
Proof.
  intros Hfails. induction before as [|e before IH]; cbn [app cleanup_loop].
  - unfold cleanup_fails in Hfails.
    destruct (DirEntry.mtime entry) as [mtime|]; [|reflexivity].
    apply andb_true_iff in Hfails as [Hold Hunl].
    apply bool_decide_eq_true in Hold. rewrite decide_True by exact Hold.
    apply negb_true_iff in Hunl. rewrite Hunl. reflexivity.
  - destruct (DirEntry.mtime e); [|reflexivity].
    case_decide; [destruct (DirEntry.unlinks e); [|reflexivity]|]; rewrite IH; reflexivity.
Qed.

(** X3: [cleanup] removes only files whose modification time is more than
    one hour before [now] (a file exactly one hour old stays); when no
    [fs.stat] or [fs.unlink] fails it removes all of them, in directory
    order; a failure on one entry ends the pass, so that nothing after that
    entry is removed; and a rejected [fs.readdir] removes nothing. *)
Theorem cleanup_removes_only_old_files (now : Z) (files : list DirEntry.t) :
  (forall path,
      path ∈ cleanup (Some files) now ->
      exists entry mtime,
        entry ∈ files
        /\ path = path_join outputDir (DirEntry.file entry)
        /\ DirEntry.mtime entry = Some mtime
        /\ 60 * 60 * 1000 < now - mtime)
  /\ (Forall (λ entry, cleanup_fails now entry = false) files ->
      cleanup (Some files) now
      = (λ entry, path_join outputDir (DirEntry.file entry))
        <$> filter (λ entry, is_old now entry = true) files)
  /\ (forall before entry after,
        files = before ++ entry :: after ->
        cleanup_fails now entry = true ->
        cleanup (Some files) now = cleanup (Some before) now)
  /\ cleanup None now = [].
Proof.
  split; [|split; [|split]].
  - intros path Hin. apply cleanup_loop_old. exact Hin.
  - apply cleanup_loop_no_failure.
  - intros before entry after -> Hfails. apply cleanup_loop_aborts. exact Hfails.
  - reflexivity.
Qed.

(** An instance: of an old file, a file exactly one hour old, an old file
    that cannot be removed and a further old file, only the first is
    removed. *)
Lemma cleanup_removes_only_old_files_witness :
  cleanup (Some sample_directory) 10000000 = ["/tmp/generated_music/a.wav"]
  /\ cleanup (Some (take 2 sample_directory)) 10000000 = ["/tmp/generated_music/a.wav"].
Proof.
  split; [reflexivity|].
  destruct (cleanup_removes_only_old_files 10000000 sample_directory)
    as (_ & _ & Habort & _).
  rewrite <- (Habort (take 2 sample_directory) (DirEntry.mk "c.wav" (Some 0) false)
                [DirEntry.mk "d.wav" (Some 0) true] eq_refl eq_refl).
  reflexivity.
Defined.

(** ** The header of the sample files *)

Lemma writeUInt32LE_in_range value offset buf :
  0 <= value <= 4294967295 ->
  (offset + 4 <= length buf)%nat ->
  writeUInt32LE value offset buf
  = Some (list_inserts offset (le_byte value <$> seq 0 4) buf).
Proof.
  intros Hv Hoff. unfold writeUInt32LE, writeUIntLE.
  rewrite decide_True by (change (2 ^ (8 * Z.of_nat 4) - 1) with 4294967295; exact Hv).
  rewrite decide_True by exact Hoff. reflexivity.
Qed.

Lemma writeUInt32LE_out_of_range value offset buf :
  ~ (0 <= value <= 4294967295) -> writeUInt32LE value offset buf = None.
Proof.
  intros Hv. unfold writeUInt32LE, writeUIntLE.
  rewrite decide_False by (change (2 ^ (8 * Z.of_nat 4) - 1) with 4294967295; exact Hv).
  reflexivity.
Qed.

Lemma writeUInt16LE_in_range value offset buf :
  0 <= value <= 65535 ->
  (offset + 2 <= length buf)%nat ->
  writeUInt16LE value offset buf
  = Some (list_inserts offset (le_byte value <$> seq 0 2) buf).
Proof.
  intros Hv Hoff. unfold writeUInt16LE, writeUIntLE.
  rewrite decide_True by (change (2 ^ (8 * Z.of_nat 2) - 1) with 65535; exact Hv).
  rewrite decide_True by exact Hoff. reflexivity.
Qed.

Ltac write_in_range :=
  first [ rewrite writeUInt32LE_in_range; [|lia|vm_compute; lia]
        | rewrite writeUInt16LE_in_range; [|lia|vm_compute; lia] ];
  cbn [mbind option_bind].

Lemma createWavHeader_bytes durationSeconds :
  0 <= durationSeconds <= 24347 ->
  createWavHeader durationSeconds
  = Some (wav_header_bytes (durationSeconds * 44100 * 2 * 2)).
Proof.
  intros Hd. unfold createWavHeader. cbv zeta.
  change (16 / 8) with 2.
  do 9 write_in_range. reflexivity.
Qed.

Lemma createWavHeader_throws durationSeconds :
  ~ (0 <= durationSeconds <= 24347) -> createWavHeader durationSeconds = None.
Proof.
  intros Hd. unfold createWavHeader. cbv zeta. change (16 / 8) with 2.
  rewrite writeUInt32LE_out_of_range by lia. reflexivity.
Qed.

(** Four little-endian bytes give the value back. *)
Lemma le_bytes_value v :
  0 <= v <= 4294967295 ->
  le_byte v 0 + 256 * (le_byte v 1 + 256 * (le_byte v 2 + 256 * (le_byte v 3 + 256 * 0))) = v.
Proof.
  intros Hv. unfold le_byte.
  change (256 ^ Z.of_nat 0) with 1. change (256 ^ Z.of_nat 1) with 256.
  change (256 ^ Z.of_nat 2) with 65536. change (256 ^ Z.of_nat 3) with 16777216.
  Z.div_mod_to_equations. lia.
Qed.

Lemma le_byte_range v i : 0 <= le_byte v i < 256.
Proof. unfold le_byte. apply Z.mod_pos_bound. lia. Qed.

Lemma wav_header_bytes_valid dataSize :
  Forall (λ b, 0 <= b < 256) (wav_header_bytes dataSize).
Proof.
  unfold wav_header_bytes.
  repeat (constructor; [first [apply le_byte_range | lia]|]). constructor.
Qed.

(** X4: [createWavHeader] returns a header exactly for a duration between
    0 and 24347 seconds (beyond that the RIFF size does not fit 32 bits and
    [writeUInt32LE] throws, as it does on a negative duration); the header
    is 44 bytes long, each between 0 and 255, and carries the tags [RIFF],
    [WAVE], [fmt ] and [data] at offsets 0, 8, 12 and 36. *)
Theorem createWavHeader_defined (durationSeconds : Z) :
  (is_Some (createWavHeader durationSeconds) <-> 0 <= durationSeconds <= 24347)
  /\ (forall header,
        createWavHeader durationSeconds = Some header ->
        length header = 44%nat
        /\ Forall (λ b, 0 <= b < 256) header
        /\ take 4 header = ascii_bytes "RIFF"
        /\ take 4 (drop 8 header) = ascii_bytes "WAVE"
        /\ take 4 (drop 12 header) = ascii_bytes "fmt "
        /\ take 4 (drop 36 header) = ascii_bytes "data").
Proof.
  destruct (decide (0 <= durationSeconds <= 24347)) as [Hd|Hd].
  - rewrite (createWavHeader_bytes _ Hd). split.
    + split; [intros _; exact Hd | intros _; eauto].
    + intros header [= <-].
      split; [reflexivity|]. split; [apply wav_header_bytes_valid|].
      repeat split; reflexivity.
  - rewrite (createWavHeader_throws _ Hd). split.
    + split; [intros [h Hh]; discriminate | intros H; contradiction].
    + intros header [=].
Qed.

(** An instance: the longest sample that fits, and the first that does
    not. *)
Lemma createWavHeader_defined_witness :
  (exists header, createWavHeader 24347 = Some header /\ length header = 44%nat)
  /\ createWavHeader 24348 = None
  /\ createWavHeader (-1) = None.
Proof.
  destruct (createWavHeader_defined 24347) as [Hdef Hshape].
  destruct (proj2 Hdef ltac:(lia)) as [header Hheader].
  split; [exists header; split; [exact Hheader | apply (Hshape header Hheader)]|].
  split.
  - destruct (createWavHeader 24348) as [h|] eqn:Hh; [|reflexivity].
    destruct (createWavHeader_defined 24348) as [Hdef' _].
    rewrite Hh in Hdef'. destruct (proj1 Hdef' ltac:(eauto)). lia.
  - destruct (createWavHeader (-1)) as [h|] eqn:Hh; [|reflexivity].
    destruct (createWavHeader_defined (-1)) as [Hdef' _].
    rewrite Hh in Hdef'. destruct (proj1 Hdef' ltac:(eauto)). lia.
Defined.

(** X5: reading the fields of a header written by [createWavHeader] gives
    back what was written: PCM format, 2 channels, 44100 Hz, 16 bits per
    sample, byte rate 176400, block align 4, a data size of 176400 bytes
    per second of duration, and a RIFF size of the data size plus 36. *)
Theorem createWavHeader_fields (durationSeconds : Z) (header : list Z) :
  createWavHeader durationSeconds = Some header ->
  readUIntLE 4 4 header = 36 + durationSeconds * 176400
  /\ readUIntLE 4 16 header = 16
  /\ readUIntLE 2 20 header = 1
  /\ readUIntLE 2 22 header = 2
  /\ readUIntLE 4 24 header = 44100
  /\ readUIntLE 4 28 header = 176400
  /\ readUIntLE 2 32 header = 4
  /\ readUIntLE 2 34 header = 16
  /\ readUIntLE 4 40 header = durationSeconds * 176400.
Proof.
  intros Hheader.
  destruct (decide (0 <= durationSeconds <= 24347)) as [Hd|Hd];
    [|rewrite (createWavHeader_throws _ Hd) in Hheader; discriminate].
  rewrite (createWavHeader_bytes _ Hd) in Hheader. injection Hheader as <-.
  pose proof (le_bytes_value (36 + durationSeconds * 44100 * 2 * 2) ltac:(lia)) as Hfile.
  pose proof (le_bytes_value (durationSeconds * 44100 * 2 * 2) ltac:(lia)) as Hdata.
  split; [|split; [|split; [|split; [|split; [|split; [|split; [|split]]]]]]];
    try reflexivity.
  - change (readUIntLE 4 4 (wav_header_bytes (durationSeconds * 44100 * 2 * 2)))
      with (le_byte (36 + durationSeconds * 44100 * 2 * 2) 0
            + 256 * (le_byte (36 + durationSeconds * 44100 * 2 * 2) 1
            + 256 * (le_byte (36 + durationSeconds * 44100 * 2 * 2) 2
            + 256 * (le_byte (36 + durationSeconds * 44100 * 2 * 2) 3 + 256 * 0)))).
    rewrite Hfile. lia.
  - change (readUIntLE 4 40 (wav_header_bytes (durationSeconds * 44100 * 2 * 2)))
      with (le_byte (durationSeconds * 44100 * 2 * 2) 0
            + 256 * (le_byte (durationSeconds * 44100 * 2 * 2) 1
            + 256 * (le_byte (durationSeconds * 44100 * 2 * 2) 2
            + 256 * (le_byte (durationSeconds * 44100 * 2 * 2) 3 + 256 * 0)))).
    rewrite Hdata. lia.
Qed.

(** An instance: the header of the 60-second samples of the mock music
    service. *)
Lemma createWavHeader_fields_witness :
  exists header,
    createWavHeader 60 = Some header
    /\ readUIntLE 4 4 header = 10584036
    /\ readUIntLE 4 40 header = 10584000.
Proof.
  destruct (createWavHeader 60) as [header|] eqn:Hheader;
    [|vm_compute in Hheader; discriminate].
  exists header. split; [reflexivity|].
  destruct (createWavHeader_fields 60 header Hheader) as (Hfile & _ & _ & _ & _ & _ & _ & _ & Hdata).
  split; [exact Hfile | exact Hdata].
Defined.

(** X6: a sample file written by [createSampleAudioFiles] is consistent
    with its header: the RIFF size field is the length of the file minus 8,
    the data size field is the number of bytes that follow the 44 bytes of
    the header, and these bytes are all 0. *)
Theorem wavFile_consistent (duration : Z) (file : list Z) :
  wavFile duration = Some file ->
  Z.of_nat (length file) = 44 + duration * 176400
  /\ readUIntLE 4 4 file = Z.of_nat (length file) - 8
  /\ readUIntLE 4 40 file = Z.of_nat (length file) - 44
  /\ drop 44 file = replicate (Z.to_nat (duration * 176400)) 0.
Proof.
  unfold wavFile. intros Hfile.
  destruct (createWavHeader duration) as [header|] eqn:Hheader; [|discriminate].
  cbn [mbind option_bind] in Hfile. injection Hfile as <-.
  destruct (createWavHeader_fields duration header Hheader)
    as (Hriff & _ & _ & _ & _ & _ & _ & _ & Hdata).
  destruct (decide (0 <= duration <= 24347)) as [Hd|Hd];
    [|rewrite (createWavHeader_throws _ Hd) in Hheader; discriminate].
  rewrite (createWavHeader_bytes _ Hd) in Hheader. injection Hheader as <-.
  replace (duration * 44100 * 2 * 2) with (duration * 176400) in * by lia.
  assert (Z.of_nat (length (wav_header_bytes (duration * 176400)
                            ++ Buffer_alloc (duration * 176400)))
          = 44 + duration * 176400) as Hlen.
  { rewrite length_app. unfold Buffer_alloc. rewrite length_replicate.
    change (length (wav_header_bytes (duration * 176400))) with 44%nat. lia. }
  split; [exact Hlen|]. rewrite Hlen.
  split; [|split].
  - change (readUIntLE 4 4 (wav_header_bytes (duration * 176400)
                            ++ Buffer_alloc (duration * 176400)))
      with (readUIntLE 4 4 (wav_header_bytes (duration * 176400))).
    rewrite Hriff. lia.
  - change (readUIntLE 4 40 (wav_header_bytes (duration * 176400)
                             ++ Buffer_alloc (duration * 176400)))
      with (le_byte (duration * 176400) 0
            + 256 * (le_byte (duration * 176400) 1
            + 256 * (le_byte (duration * 176400) 2
            + 256 * (le_byte (duration * 176400) 3
            + 256 * readUIntLE 0 0 (Buffer_alloc (duration * 176400)))))).
    change (readUIntLE 4 40 (wav_header_bytes (duration * 176400)))
      with (le_byte (duration * 176400) 0
            + 256 * (le_byte (duration * 176400) 1
            + 256 * (le_byte (duration * 176400) 2
            + 256 * (le_byte (duration * 176400) 3 + 256 * 0)))) in Hdata.
    change (readUIntLE 0 0 (Buffer_alloc (duration * 176400))) with 0.
    rewrite Hdata. lia.
  - reflexivity.
Qed.

(** An instance: the 3-second sample of the mock voice service. *)
Lemma wavFile_consistent_witness :
  exists file,
    wavFile 3 = Some file
    /\ Z.of_nat (length file) = 529244
    /\ readUIntLE 4 4 file = 529236
    /\ readUIntLE 4 40 file = 529200.
Proof.
  assert (wavFile 3
          = Some (wav_header_bytes (3 * 44100 * 2 * 2) ++ Buffer_alloc (3 * 44100 * 2 * 2)))
    as Hfile.
  { unfold wavFile. rewrite createWavHeader_bytes by lia. reflexivity. }
  eexists. split; [exact Hfile|].
  destruct (wavFile_consistent 3 _ Hfile) as (Hlen & Hriff & Hdata & _).
  split; [lia|]. split; lia.
Defined.

(** ** The registry of a reachable state *)

Lemma reachable_registry_injective st : reachable st -> registry_injective st.
Proof.
  intros Hst k1 k2 r H1 H2.
  pose proof (reachable_registry_ids st Hst k1 r H1) as E1.
  pose proof (reachable_registry_ids st Hst k2 r H2) as E2.
  congruence.
Qed.

Lemma reachable_registered_object st k r :
  reachable st -> sessions st !! k = Some r ->
  exists session, heap st !! r = Some session /\ StreamingSession.id session = k.
Proof.
  intros Hst Hk. pose proof (reachable_registry_ids st Hst k r Hk) as Hid.
  rewrite list_lookup_fmap in Hid.
  destruct (heap st !! r) as [session|]; [|discriminate].
  exists session. split; [reflexivity|]. simpl in Hid. congruence.
Qed.

Lemma getSession_Some sessionId st session :
  getSession sessionId st = Some session <->
  exists r, sessions st !! sessionId = Some r /\ heap st !! r = Some session.
Proof.
  unfold getSession. destruct (sessions st !! sessionId) as [r|]; simpl.
  - split; [intros H; exists r; split; [reflexivity | exact H]|].
    intros (r' & [= <-] & H). exact H.
  - split; [discriminate | intros (r' & [=] & _)].
Qed.

(** X7: in every reachable state the session found under an id carries
    that id, an id is found exactly when it is registered, and two
    different ids never name the same session object. *)
Theorem registry_is_consistent (st : Service) :
  reachable st ->
  (forall sessionId session,
      getSession sessionId st = Some session ->
      StreamingSession.id session = sessionId)
  /\ (forall sessionId,
        is_Some (getSession sessionId st) <-> is_Some (sessions st !! sessionId))
  /\ registry_injective st.
Proof.
  intros Hst. split; [|split].
  - intros sessionId session Hget.
    apply getSession_Some in Hget as (r & Hr & Hobj).
    destruct (reachable_registered_object st sessionId r Hst Hr) as (s & Hs & Hid).
    congruence.
  - intros sessionId. split.
    + intros [session Hget]. apply getSession_Some in Hget as (r & Hr & _). eauto.
    + intros [r Hr].
      destruct (reachable_registered_object st sessionId r Hst Hr) as (s & Hs & _).
      exists s. apply getSession_Some. eauto.
  - apply reachable_registry_injective. exact Hst.
Qed.

(** An instance: the state of the scenario. *)
Lemma registry_is_consistent_witness :
  (exists session,
      getSession "s1" busy_state = Some session
      /\ StreamingSession.id session = "s1")
  /\ (is_Some (getSession "s2" busy_state) <-> is_Some (sessions busy_state !! "s2")).
Proof.
  destruct (registry_is_consistent busy_state) as (Hid & Hfound & _).
  { apply reachable_run. constructor. }
  split; [|apply Hfound].
  eexists. split; [reflexivity|]. apply Hid. reflexivity.
Defined.

(** ** What an operation on one session leaves alone *)

(** X8: an awaited position update of an active session writes to that
    session object only.  It sets [currentPosition] to the position and
    [lastAffirmationTime] to the position or leaves it; the buffer is as the
    generation the update awaited leaves it: untouched when no generation
    was requested or the generation failed, and otherwise the new segment
    pushed and, over the bound, the oldest segment evicted and its file
    handed to [fs.unlink].  The other fields of the session, every other
    session object and the registry are as before, no other file is
    released, and no call is left in flight. *)
Theorem updateSessionPosition_frame
    (st : Service) (sessionId : string) (r : nat) (session : StreamingSession.t)
    (position : Z) (rnd : nat) (answer : option SegmentDraw.t) :
  sessions st !! sessionId = Some r ->
  heap st !! r = Some session ->
  StreamingSession.isActive session = true ->
  let st' := settled_state (updateSessionPosition_await sessionId position rnd answer st) in
  exists last,
    (last = StreamingSession.lastAffirmationTime session \/ last = position)
    /\ sessions st' = sessions st
    /\ pending st' = pending st
    /\ (forall other, other <> r -> heap st' !! other = heap st !! other)
    /\ let moved :=
         StreamingSession.set_lastAffirmationTime last
           (StreamingSession.set_currentPosition position session) in
       if decide (segmentEndTime session - 30 <= position)
       then match answer ≫= generateMusicSegment nextSegmentOptions with
            | Some newSegment =>
                heap st' !! r = Some (push_segment moved newSegment).1
                /\ unlinked st' = unlinked st ++ (push_segment moved newSegment).2
            | None => heap st' !! r = Some moved /\ unlinked st' = unlinked st
            end
       else heap st' !! r = Some moved /\ unlinked st' = unlinked st.
Proof.
  intros Hreg Hobj Hact. cbv zeta.
  rewrite (updateSessionPosition_await_active st sessionId r session position rnd answer
             Hreg Hobj Hact). cbv zeta.
  exists (StreamingSession.lastAffirmationTime (after_update session position rnd).1).
  assert ((after_update session position rnd).1
          = StreamingSession.set_lastAffirmationTime
              (StreamingSession.lastAffirmationTime (after_update session position rnd).1)
              (StreamingSession.set_currentPosition position session)) as Hmoved.
  { unfold after_update, triggerAffirmation.
    case_decide; [|destruct session; reflexivity].
    destruct (StreamingSession.affirmations
                (StreamingSession.set_currentPosition position session));
      destruct session; reflexivity. }
  rewrite <- Hmoved.
  split.
  { destruct (after_update_schedule session position rnd) as (_ & _ & _ & Hcase).
    cbv zeta in Hcase. case_decide; [right | left]; apply Hcase. }
  set (written := StreamingService.emit _ _).
  assert (heap written !! r = Some (after_update session position rnd).1) as Hobj1.
  { subst written. simpl. apply list_lookup_insert_eq. eapply lookup_lt_Some; eauto. }
  assert (forall other, other <> r -> heap written !! other = heap st !! other) as Hothers.
  { intros other Hne. subst written. simpl. apply list_lookup_insert_ne. congruence. }
  destruct (generateNextSegment_resume_fields r answer written _ Hobj1)
    as (Hs & Hp & Hh & Hcase).
  cbv zeta in Hs, Hp, Hh, Hcase.
  destruct (decide (segmentEndTime session - 30 <= position)) as [Hcross|Hnot].
  - assert (settled_state
              (if generateNextSegment_rejects answer
               then Rejected Unhandled_error (generateNextSegment_resume r answer written)
               else Resolved (generateNextSegment_resume r answer written))
            = generateNextSegment_resume r answer written) as ->.
    { destruct (generateNextSegment_rejects answer); reflexivity. }
    split; [rewrite Hs; reflexivity|]. split; [rewrite Hp; reflexivity|].
    split; [intros other Hne; rewrite Hh by exact Hne; apply Hothers; exact Hne|].
    destruct (answer ≫= generateMusicSegment nextSegmentOptions) as [newSegment|];
      destruct Hcase as (Hobj' & _ & Hunl); split; assumption.
  - cbn [settled_state]. split; [reflexivity|]. split; [reflexivity|].
    split; [exact Hothers|]. split; [exact Hobj1 | reflexivity].
Qed.

(** An instance: the update of the scenario to position 30 awaits a
    generation, which succeeds; its segment is the only one of the buffer
    and no file is released. *)
Lemma updateSessionPosition_frame_witness :
  let st' :=
    settled_state
      (updateSessionPosition_await "s1" 30 0 (Some (SegmentDraw.mk "n1" "ambient" 0 true))
         scenario_state) in
  sessions st' = sessions scenario_state
  /\ pending st' = pending scenario_state
  /\ unlinked st' = unlinked scenario_state
  /\ StreamingSession.musicSegments <$> heap st' !! 0%nat = Some [sample_late "n1"].
Proof.
  cbv zeta.
  destruct (updateSessionPosition_frame scenario_state "s1" 0 _ 30 0
              (Some (SegmentDraw.mk "n1" "ambient" 0 true)) eq_refl eq_refl eq_refl)
    as (last & _ & Hsess & Hpend & _).
  split; [exact Hsess|]. split; [exact Hpend|].
  split; vm_compute; reflexivity.
Defined.

Lemma resume_task_heap_other t answer st other :
  other <> task_session t ->
  heap (resume_task t answer st) !! other = heap st !! other.
Proof.
  intros Hother. destruct t as [r trackData d | r texts | r]; simpl in *.
  - unfold generateInitialSegments_resume.
    destruct (heap st !! r); [|reflexivity].
    destruct (Answer.batch answer); [|reflexivity].
    simpl. apply list_lookup_insert_ne. congruence.
  - unfold generateAffirmationsForSession_resume.
    destruct (heap st !! r); [|reflexivity].
    destruct (Answer.voices answer); [|reflexivity].
    simpl. apply list_lookup_insert_ne. congruence.
  - destruct (heap st !! r) as [session|] eqn:Hobj.
    + destruct (Answer.segment answer ≫= generateMusicSegment nextSegmentOptions)
        as [newSegment|] eqn:Hgen.
      * destruct (generateNextSegment_resume_success r _ st session newSegment Hobj Hgen)
          as (_ & -> & _).
        apply list_lookup_insert_ne. congruence.
      * unfold generateNextSegment_resume. rewrite Hobj, Hgen. reflexivity.
    + unfold generateNextSegment_resume. rewrite Hobj. reflexivity.
Qed.

(** X9: in a reachable state, stopping a session and resuming a suspended
    call leave every other session as it was: after [stopSession] of one
    id, [getSession] of any other id returns what it returned before, and
    the completion of a call changes no session object but the one the call
    captured. *)
Theorem other_sessions_untouched (st : Service) (sessionId other : string) :
  reachable st ->
  other <> sessionId ->
  (forall st', stopSession sessionId st = Ok st' ->
               getSession other st' = getSession other st)
  /\ (forall k answer t r,
        pending st !! k = Some t ->
        sessions st !! other = Some r ->
        r <> task_session t ->
        getSession other (resume k answer st) = getSession other st)
  /\ (forall k answer t,
        pending st !! k = Some t ->
        sessions st !! sessionId = Some (task_session t) ->
        getSession other (resume k answer st) = getSession other st).
Proof.
  intros Hst Hne.
  assert (forall k answer t r,
             pending st !! k = Some t ->
             sessions st !! other = Some r ->
             r <> task_session t ->
             getSession other (resume k answer st) = getSession other st) as Hresume.
  { intros k answer t r Hk Hr Hcapt. unfold resume, getSession. rewrite Hk.
    rewrite resume_task_sessions. simpl. rewrite Hr. simpl.
    etrans; [apply (resume_task_heap_other t answer _ r Hcapt) | reflexivity]. }
  split; [|split].
  - intros st' Hstop.
    destruct (sessions st !! sessionId) as [r|] eqn:Hreg;
      [|rewrite (stopSession_unregistered _ _ Hreg) in Hstop; discriminate].
    destruct (stopSession_registered sessionId st r Hreg) as (st1 & Hstop' & Hsess & Hheap & _).
    rewrite Hstop in Hstop'. injection Hstop' as <-.
    unfold getSession. rewrite Hsess, lookup_delete_ne by congruence.
    destruct (sessions st !! other) as [r'|] eqn:Hother; [|reflexivity].
    simpl. rewrite Hheap. apply list_lookup_alter_ne.
    intros ->. apply Hne. symmetry.
    exact (reachable_registry_injective st Hst _ _ _ Hreg Hother).
  - exact Hresume.
  - intros k answer t Hk Hcapt.
    destruct (sessions st !! other) as [r|] eqn:Hother.
    + apply (Hresume k answer t r Hk eq_refl).
      intros ->. apply Hne.
      exact (reachable_registry_injective st Hst _ _ _ Hother Hcapt).
    + unfold resume, getSession. rewrite Hk, resume_task_sessions. simpl.
      rewrite Hother. reflexivity.
Qed.

(** An instance: with two sessions registered, stopping the first and
    completing its initial batch leave the second as it was. *)
Lemma other_sessions_untouched_witness :
  (forall st', stopSession "s1" two_sessions = Ok st' ->
               getSession "s2" st' = getSession "s2" two_sessions)
  /\ getSession "s2" (resume 0 (batch_answer all_succeed) two_sessions)
     = getSession "s2" two_sessions.
Proof.
  destruct (other_sessions_untouched two_sessions "s1" "s2") as (Hstop & _ & Hresume).
  - apply reachable_run. constructor.
  - discriminate.
  - split; [exact Hstop|].
    apply (Hresume 0%nat (batch_answer all_succeed) (InitialSegments 0 sample_track 60));
      reflexivity.
Defined.

(** ** After a sweep, after [destroy] *)

Lemma filter_none {A} (P : A -> Prop) `{forall x, Decision (P x)} (l : list A) :
  Forall (λ x, ~ P x) l -> filter P l = [].
Proof.
  induction 1 as [|x l Hx _ IH]; [reflexivity|].
  rewrite filter_cons_False by exact Hx. exact IH.
Qed.

Lemma count_sessionStopped_app sessionId events1 events2 :
  count_sessionStopped sessionId (events1 ++ events2)
  = (count_sessionStopped sessionId events1 + count_sessionStopped sessionId events2)%nat.
Proof. unfold count_sessionStopped. rewrite filter_app, length_app. reflexivity. Qed.

(** The sessions left once the stops of a pass have settled. *)
Lemma cleanupInactiveSessions_kept now st k r :
  let first := cleanupInactiveSessions now st in
  sessions (settle first.1 first.2) !! k = Some r ->
  sessions st !! k = Some r
  /\ sweep_selects now st r = false
  /\ heap (settle first.1 first.2) !! r = heap st !! r.
Proof.
  cbv zeta. intros Hk.
  destruct (cleanupInactiveSessions_fields now st)
    as (_ & _ & _ & _ & _ & Hh & _ & Hs' & Hh' & _).
  cbv zeta in Hh, Hs', Hh'.
  rewrite Hs', lookup_foldl_delete in Hk. case_decide as Hin; [discriminate|].
  assert (sweep_selects now st r = false) as Hsel.
  { destruct (sweep_selects now st r) eqn:Hsel; [|reflexivity].
    exfalso. apply Hin. apply elem_of_sessionsToCleanup. eauto. }
  split; [exact Hk|]. split; [exact Hsel|].
  rewrite Hh', Hh, decide_False; [reflexivity|].
  intros Hex. apply Exists_exists in Hex as (k' & Hk' & Hr).
  apply elem_of_sessionsToCleanup in Hk' as (r' & Hr' & Hsel'). congruence.
Qed.

(** X10: the sweeper does not await the stops it starts, so a stale session
    is still registered, and inactive, when the pass returns: a second pass
    that runs before these stops have settled, at whatever time, selects
    the session again, starts a second stop of it and emits a second
    [sessionStopped] for it.  Once the stops of a pass have settled, a
    session the pass did not select is as it was, active and at most 30
    minutes old, and a further pass at the same time finds nothing to
    stop. *)
Theorem second_sweep_stops_again
    (st : Service) (now later : Z) (sessionId : string) (r : nat)
    (session : StreamingSession.t) :
  sessions st !! sessionId = Some r ->
  heap st !! r = Some session ->
  let first := cleanupInactiveSessions now st in
  let second := cleanupInactiveSessions later first.2 in
  let settled := settle first.1 first.2 in
  (sessionId ∈ sessionsToCleanup now st ->
   sessionId ∈ sessionsToCleanup later first.2
   /\ stop_started first.2 second sessionId r
        (StreamingSession.set_isActive false session)
   /\ count_sessionStopped sessionId (emitted_since st second.2) = 2%nat)
  /\ (sessionId ∉ sessionsToCleanup now st ->
      getSession sessionId settled = Some session
      /\ StreamingSession.isActive session = true
      /\ now - StreamingSession.startTime session <= 30 * 60 * 1000)
  /\ sessionsToCleanup now settled = []
  /\ cleanupInactiveSessions now settled = ([], settled).
Proof.
  intros Hreg Hobj. cbv zeta.
  assert (sessionsToCleanup now
            (settle (cleanupInactiveSessions now st).1 (cleanupInactiveSessions now st).2)
          = []) as Hnone.
  { unfold sessionsToCleanup at 1. rewrite filter_none; [reflexivity|].
    apply Forall_forall. intros [k r'] Hin. apply elem_of_map_to_list in Hin.
    destruct (cleanupInactiveSessions_kept now st k r' Hin) as (_ & Hsel & Hheap).
    simpl. unfold sweep_selects in *. rewrite Hheap, Hsel. discriminate. }
  split; [|split; [|split; [exact Hnone|]]].
  - intros Hin.
    destruct (sweep_stops_stale now st sessionId r session Hreg Hobj Hin)
      as (Hreg1 & Hobj1 & _).
    cbv zeta in Hreg1, Hobj1.
    assert (sessionId
            ∈ sessionsToCleanup later (cleanupInactiveSessions now st).2) as Hagain.
    { apply (sessionsToCleanup_stale later _ sessionId r _ Hreg1 Hobj1).
      left. reflexivity. }
    split; [exact Hagain|].
    split; [apply sweep_stops_stale; assumption|].
    destruct (cleanupInactiveSessions_fields now st) as (_ & _ & _ & He1 & _).
    destruct (cleanupInactiveSessions_fields later (cleanupInactiveSessions now st).2)
      as (_ & _ & _ & He2 & _).
    cbv zeta in He1, He2.
    rewrite (emitted_since_app st _
               ((Event.sessionStopped <$> sessionsToCleanup now st)
                ++ (Event.sessionStopped
                    <$> sessionsToCleanup later (cleanupInactiveSessions now st).2)))
      by (rewrite He2, He1, <- app_assoc; reflexivity).
    rewrite count_sessionStopped_app.
    rewrite !count_sessionStopped_fmap by apply NoDup_sessionsToCleanup.
    rewrite !decide_True by assumption. reflexivity.
  - intros Hout.
    destruct (sweep_spares_fresh now st sessionId r session Hreg Hobj Hout)
      as (_ & _ & _ & _ & Hreg' & Hobj').
    cbv zeta in Hreg', Hobj'.
    split; [apply getSession_Some; eauto|].
    pose proof (sessionsToCleanup_stale now st sessionId r session Hreg Hobj) as Hstale.
    destruct (StreamingSession.isActive session) eqn:Hact.
    + split; [reflexivity|].
      destruct (decide (30 * 60 * 1000 < now - StreamingSession.startTime session))
        as [Hold|Hyoung]; [|lia].
      exfalso. apply Hout, Hstale. right. exact Hold.
    + exfalso. apply Hout, Hstale. left. reflexivity.
  - unfold cleanupInactiveSessions at 1. rewrite Hnone. reflexivity.
Qed.

(** An instance: the pass at time 2000000 stops the first of two sessions
    (created at time 1000) and leaves the second (created at time 300000);
    a second pass before the stop has settled emits [sessionStopped] for
    the first session a second time. *)
Lemma second_sweep_stops_again_witness :
  let first := cleanupInactiveSessions 2000000 staggered_sessions in
  let second := cleanupInactiveSessions 2000001 first.2 in
  emitted second.2 = [Event.sessionStopped "s1"; Event.sessionStopped "s1"]
  /\ count_sessionStopped "s1" (emitted_since staggered_sessions second.2) = 2%nat
  /\ sessions first.2 !! "s1" = Some 0%nat
  /\ sessions (settle first.1 first.2) !! "s1" = None.
Proof.
  cbv zeta.
  destruct (second_sweep_stops_again staggered_sessions 2000000 2000001 "s1" 0 _
              eq_refl eq_refl) as (Hagain & _).
  cbv zeta in Hagain.
  destruct Hagain as (_ & _ & Hcount).
  { apply (sessionsToCleanup_stale 2000000 staggered_sessions "s1" 0 _ eq_refl eq_refl).
    right. vm_compute. reflexivity. }
  split; [vm_compute; reflexivity|]. split; [exact Hcount|].
  split; vm_compute; reflexivity.
Defined.

(** X11: [destroy] starts a stop of every registered session and awaits
    none.  When it returns every session is still registered and flagged
    inactive, so that no user has a session listed, and one [sessionStopped]
    has been emitted for each registered id and nothing else; once the
    started stops have settled no id is registered and every file of every
    session has been handed to [fs.unlink]. *)
Theorem destroy_stops_every_session (st : Service) :
  let returned := (destroy st).2 in
  let settled := settle (destroy st).1 returned in
  sessions returned = sessions st
  /\ (forall sessionId r session,
        sessions st !! sessionId = Some r ->
        heap st !! r = Some session ->
        stop_started st (destroy st) sessionId r session)
  /\ (forall userId, getUserSessions userId returned = [])
  /\ emitted_since st returned ≡ₚ Event.sessionStopped <$> (map_to_list (sessions st)).*1
  /\ length (destroy st).1 = size (sessions st)
  /\ sessions settled = ∅.
Proof.
  cbv zeta.
  assert (Forall (λ sessionId, is_Some (sessions st !! sessionId))
                 (map_to_list (sessions st)).*1) as Hall.
  { apply Forall_forall. intros k Hk.
    apply list_elem_of_fmap in Hk as ([k' r] & -> & Hin).
    apply elem_of_map_to_list in Hin. eauto. }
  assert (forall k r, sessions st !! k = Some r -> k ∈ (map_to_list (sessions st)).*1)
    as Hkeys.
  { intros k r Hk. apply list_elem_of_fmap. exists (k, r).
    split; [reflexivity|]. apply elem_of_map_to_list. exact Hk. }
  destruct (stopSession_started_fold _ [] st Hall) as (Hc & Hs & _ & He & _ & Hh & _).
  cbv zeta in Hc, Hs, He, Hh. simpl in Hc.
  destruct (settle_fields (destroy st).1 (destroy st).2) as (Hs' & _).
  fold (destroy st) in Hc, Hs, He, Hh.
  split; [exact Hs|]. split; [|split; [|split; [|split]]].
  - intros sessionId r session Hreg Hobj.
    apply (started_stop st _ Hall (NoDup_fst_map_to_list (sessions st))
             sessionId r session Hreg Hobj).
    exact (Hkeys sessionId r Hreg).
  - intros userId. unfold getUserSessions. apply filter_none.
    apply Forall_forall. intros listed Hin.
    apply list_elem_of_omap in Hin as ([k r] & Hkr & Hobj).
    apply elem_of_map_to_list in Hkr. rewrite Hs in Hkr. simpl in Hobj.
    rewrite Hh, decide_True in Hobj
      by (apply Exists_exists; exists k; split; [exact (Hkeys k r Hkr) | exact Hkr]).
    destruct (heap st !! r) as [session|]; [|discriminate].
    injection Hobj as <-. intros [_ Hact]. discriminate Hact.
  - rewrite (emitted_since_app _ _ _ He). reflexivity.
  - rewrite Hc, length_fmap, length_fmap. apply length_map_to_list.
  - apply map_eq. intros k.
    rewrite Hs', Hs, Hc, lookup_foldl_delete, lookup_empty.
    case_decide as Hin; [reflexivity|].
    destruct (sessions st !! k) as [r|] eqn:Hk; [|reflexivity].
    exfalso. apply Hin. rewrite <- list_fmap_compose.
    apply list_elem_of_fmap. exists k. split; [reflexivity|]. exact (Hkeys k r Hk).
Qed.

(** ** A failed generation *)

(** X12: a generation call of [generateNextSegment] fails exactly when the
    services cannot be loaded or [generateMusicSegment] throws; its
    completion then leaves every session object, the registry and the files
    as they were and emits one [error] notification for the session. *)
Theorem failed_generation_is_contained
    (st : Service) (k r : nat) (session : StreamingSession.t) (answer : Answer.t) :
  pending st !! k = Some (NextSegment r) ->
  heap st !! r = Some session ->
  (Answer.segment answer ≫= generateMusicSegment nextSegmentOptions = None
   <-> Answer.segment answer = None
       \/ exists draw, Answer.segment answer = Some draw
                       /\ SegmentDraw.succeeded draw = false)
  /\ (Answer.segment answer ≫= generateMusicSegment nextSegmentOptions = None ->
      sessions (resume k answer st) = sessions st
      /\ heap (resume k answer st) = heap st
      /\ unlinked (resume k answer st) = unlinked st
      /\ pending (resume k answer st) = delete k (pending st)
      /\ emitted_since st (resume k answer st)
         = [Event.error (StreamingSession.id session)]).
Proof.
  intros Hk Hobj. split.
  - destruct (Answer.segment answer) as [draw|]; simpl.
    + unfold generateMusicSegment. destruct (SegmentDraw.succeeded draw) eqn:Hok.
      * split; [discriminate|]. intros [H | (d & [= <-] & H)]; congruence.
      * split; [|reflexivity]. intros _. right. exists draw. split; [reflexivity | exact Hok].
    + split; [intros _; left; reflexivity | reflexivity].
  - intros Hfail. unfold resume. rewrite Hk. cbn [resume_task].
    unfold generateNextSegment_resume. cbn [heap StreamingService.set_pending].
    rewrite Hobj, Hfail. cbn.
    repeat split. unfold emitted_since. cbn. apply drop_app_length.
Qed.

(** An instance: in the state of the counterexample of C3, the first call
    answers with a failure. *)
Lemma failed_generation_is_contained_witness :
  let st := run [Create sample_options sample_track "s1" 1000;
                 UpdatePosition "s1" 40 0] StreamingService.init in
  let answer := Answer.mk None None (Some (SegmentDraw.mk "x" "ambient" 0 false)) in
  heap (resume 2 answer st) = heap st
  /\ emitted_since st (resume 2 answer st) = [Event.error "s1"].
Proof.
  cbv zeta.
  destruct (failed_generation_is_contained
              (run [Create sample_options sample_track "s1" 1000;
                    UpdatePosition "s1" 40 0] StreamingService.init)
              2 0 _ (Answer.mk None None (Some (SegmentDraw.mk "x" "ambient" 0 false)))
              eq_refl eq_refl) as (_ & Hfail).
  destruct (Hfail eq_refl) as (_ & Hheap & _ & _ & Hemit).
  split; [exact Hheap | exact Hemit].
Defined.

(** ** The initial population *)

(** X13: when the initial population completes it replaces the buffer of
    the session by the batch, whatever the buffer held (segments pushed by
    [generateNextSegment] in the meantime are dropped), hands no file to
    [fs.unlink] and emits [segmentsReady] with the batch; when every
    generation call of the batch fails, the buffer is left empty and
    [segmentsReady] is still emitted, with an empty list and without an
    [error] notification. *)
Theorem initial_population_replaces_buffer
    (st : Service) (k r : nat) (session : StreamingSession.t)
    (trackData : TrackData.t) (segmentDuration : Z)
    (answer : Answer.t) (draws : nat -> BatchDraw.t) :
  pending st !! k = Some (InitialSegments r trackData segmentDuration) ->
  heap st !! r = Some session ->
  Answer.batch answer = Some draws ->
  exists batch,
    heap (resume k answer st) !! r
    = Some (StreamingSession.set_musicSegments batch session)
    /\ length batch
       = length (successful_turns draws (Z.to_nat (StreamingSession.bufferSize session)))
    /\ unlinked (resume k answer st) = unlinked st
    /\ emitted_since st (resume k answer st)
       = [Event.segmentsReady (StreamingSession.id session) batch]
    /\ ((forall i, (i < Z.to_nat (StreamingSession.bufferSize session))%nat ->
                   SegmentDraw.succeeded (BatchDraw.segment (draws i)) = false) ->
        batch = []).
Proof.
  intros Hk Hobj Hanswer.
  set (options := MusicGenerationOptions.mk "" segmentDuration
                    (TrackData.trackType trackData)
                    (default ["peaceful"; "calm"] (TrackData.moodTags trackData)) None).
  exists (generateStreamingSegments options (StreamingSession.bufferSize session) draws).
  unfold resume. rewrite Hk. cbn [resume_task].
  set (st1 := StreamingService.set_pending (delete k (pending st)) st).
  assert (heap st1 !! r = Some session) as Hobj1 by exact Hobj.
  rewrite Hanswer.
  split; [apply (generateInitialSegments_resume_segments r trackData segmentDuration draws
                   st1 session Hobj1)|].
  pose proof (generateStreamingSegments_loop_turns options
                (StreamingSession.bufferSize session) draws 0
                (Z.to_nat (StreamingSession.bufferSize session))) as Hturns.
  fold (generateStreamingSegments options (StreamingSession.bufferSize session) draws)
    in Hturns.
  split; [rewrite Hturns; apply length_fmap|].
  unfold generateInitialSegments_resume. rewrite Hobj1. cbn.
  split; [reflexivity|]. split.
  - unfold emitted_since. cbn. apply drop_app_length.
  - intros Hfail. fold options. rewrite Hturns.
    rewrite filter_none; [reflexivity|].
    apply Forall_forall. intros i Hi. apply elem_of_seq in Hi.
    rewrite Hfail by lia. discriminate.
Qed.

(** An instance: the initial batch of the busy session arrives after four
    segments were pushed, every one of its calls failing: the buffer is
    emptied. *)
Lemma initial_population_replaces_buffer_witness :
  let answer := batch_answer (λ i, sample_draw "x" false) in
  StreamingSession.musicSegments <$> heap busy_state !! 0%nat
  = Some [sample_late "n2"; sample_late "n3"; sample_late "n4"]
  /\ StreamingSession.musicSegments <$> heap (resume 0 answer busy_state) !! 0%nat
     = Some []
  /\ unlinked (resume 0 answer busy_state) = unlinked busy_state
  /\ emitted_since busy_state (resume 0 answer busy_state)
     = [Event.segmentsReady "s1" []].
Proof.
  cbv zeta.
  destruct (initial_population_replaces_buffer busy_state 0 0 _ sample_track 60
              (batch_answer (λ i, sample_draw "x" false)) (λ i, sample_draw "x" false)
              eq_refl eq_refl eq_refl) as (batch & Hheap & _ & Hunl & Hemit & Hempty).
  rewrite (Hempty ltac:(intros i _; reflexivity)) in Hheap, Hemit.
  split; [reflexivity|]. split; [rewrite Hheap; reflexivity|].
  split; [exact Hunl | exact Hemit].
Defined.

(** ** The affirmation that is played *)

Lemma nth_mod_elem {A} (l : list A) (rnd : nat) (d : A) :
  l <> [] -> nth (rnd mod length l) l d ∈ l.
Proof.
  intros Hl. apply list_elem_of_In, nth_In, Nat.mod_upper_bound.
  destruct l; [congruence | discriminate].
Qed.

Lemma triggerAffirmation_selected session rnd sessionId selected :
  Event.playAffirmation sessionId selected ∈ (triggerAffirmation session rnd).2 ->
  sessionId = StreamingSession.id session
  /\ selected ∈ StreamingSession.affirmations session.
Proof.
  unfold triggerAffirmation.
  destruct (StreamingSession.affirmations session) as [|first pool] eqn:Hpool.
  - intros H. inversion H.
  - cbv zeta. cbn [snd]. intros H. apply list_elem_of_singleton in H.
    pose proof (nth_mod_elem (first :: pool) rnd first ltac:(discriminate)) as Hsel.
    injection H as -> ->. split; [reflexivity | exact Hsel].
Qed.

Lemma getAffirmationUrl_found sessionId affirmationId st session :
  getSession sessionId st = Some session ->
  StreamingSession.isActive session = true ->
  getAffirmationUrl sessionId affirmationId st
  = match list_find (λ a, SynthesizedAudio.id a = affirmationId)
                    (StreamingSession.affirmations session) with
    | Some (_, affirmation) => Ok (SynthesizedAudio.audioPath affirmation)
    | None => Throw Affirmation_not_found
    end.
Proof.
  intros Hget Hact. unfold getAffirmationUrl. rewrite Hget, Hact. reflexivity.
Qed.

(** X14: the affirmation announced by a [playAffirmation] notification of a
    position update is one of the affirmations of the session, is announced
    under the id of the session, and can be fetched right after the update:
    [getAffirmationUrl] with its id returns the path of an affirmation of
    the session with that id. *)
Theorem played_affirmation_is_served
    (st st' : Service) (sessionId : string) (r : nat) (session : StreamingSession.t)
    (position : Z) (rnd : nat) (announced : string) (selected : SynthesizedAudio.t) :
  sessions st !! sessionId = Some r ->
  heap st !! r = Some session ->
  updateSessionPosition sessionId position rnd st = Ok st' ->
  Event.playAffirmation announced selected ∈ emitted_since st st' ->
  announced = StreamingSession.id session
  /\ selected ∈ StreamingSession.affirmations session
  /\ exists served,
      served ∈ StreamingSession.affirmations session
      /\ SynthesizedAudio.id served = SynthesizedAudio.id selected
      /\ getAffirmationUrl sessionId (SynthesizedAudio.id selected) st'
         = Ok (SynthesizedAudio.audioPath served).
Proof.
  intros Hreg Hobj Hup Hin.
  destruct (StreamingSession.isActive session) eqn:Hact.
  2:{ unfold updateSessionPosition in Hup. rewrite Hreg in Hup. simpl in Hup.
      rewrite Hobj in Hup. simpl in Hup. rewrite Hact in Hup. discriminate. }
  destruct (updateSessionPosition_active st sessionId r session position rnd Hreg Hobj Hact)
    as (st1 & Hup' & Hsess & Hheap & _ & Hemit & _).
  rewrite Hup in Hup'. injection Hup' as <-.
  rewrite (emitted_since_app _ _ _ Hemit) in Hin.
  destruct (after_update_schedule session position rnd) as (_ & _ & Hpool & _).
  destruct (after_update_buffer session position rnd) as (_ & _ & _ & _ & _ & Hact').
  cbv zeta in Hpool.
  assert (announced = StreamingSession.id session
          /\ selected ∈ StreamingSession.affirmations session) as [Hid Hsel].
  { unfold after_update in Hin. case_decide; [|inversion Hin].
    apply triggerAffirmation_selected in Hin. exact Hin. }
  split; [exact Hid|]. split; [exact Hsel|].
  assert (getSession sessionId st' = Some (after_update session position rnd).1) as Hget.
  { apply getSession_Some. exists r. rewrite Hsess. split; [exact Hreg|].
    rewrite Hheap. apply list_lookup_insert_eq. eapply lookup_lt_Some. exact Hobj. }
  rewrite (getAffirmationUrl_found _ _ _ _ Hget) by congruence.
  rewrite Hpool.
  destruct (list_find_elem_of (λ a, SynthesizedAudio.id a = SynthesizedAudio.id selected)
              (StreamingSession.affirmations session) selected Hsel eq_refl)
    as [[i served] Hfind].
  rewrite Hfind. apply list_find_Some in Hfind as (Hi & Hserved & _).
  exists served. split; [eapply list_elem_of_lookup_2; exact Hi|].
  split; [exact Hserved | reflexivity].
Qed.

(** An instance: the affirmation played at position 30 of the scenario. *)
Lemma played_affirmation_is_served_witness :
  exists st' served,
    updateSessionPosition "s1" 30 1 scenario_state = Ok st'
    /\ getAffirmationUrl "s1" "a2" st' = Ok (SynthesizedAudio.audioPath served).
Proof.
  destruct (updateSessionPosition "s1" 30 1 scenario_state) as [st'|e] eqn:Hup;
    [|vm_compute in Hup; discriminate].
  destruct (played_affirmation_is_served scenario_state st' "s1" 0 _ 30 1 "s1"
              (sample_voice "a2") eq_refl eq_refl Hup)
    as (_ & _ & served & _ & _ & Hserved).
  - vm_compute in Hup. injection Hup as <-. vm_compute. left.
  - exists st', served. split; [reflexivity | exact Hserved].
Defined.

(** ** A session without affirmations *)

Lemma empty_pool_step sessionId r session st position rnd :
  sessions st !! sessionId = Some r ->
  heap st !! r = Some session ->
  StreamingSession.affirmations session = [] ->
  let st' := step (UpdatePosition sessionId position rnd) st in
  emitted_since st st' = []
  /\ exists session',
      sessions st' !! sessionId = Some r
      /\ heap st' !! r = Some session'
      /\ StreamingSession.affirmations session' = []
      /\ StreamingSession.lastAffirmationTime session'
         = StreamingSession.lastAffirmationTime session.
Proof.
  intros Hreg Hobj Hpool. cbn [step].
  destruct (StreamingSession.isActive session) eqn:Hact.
  - destruct (updateSessionPosition_active st sessionId r session position rnd Hreg Hobj Hact)
      as (st' & -> & Hsess & Hheap & _ & Hemit & _).
    cbn [or_unchanged].
    destruct (after_update_schedule session position rnd) as (_ & _ & Hpool' & Hcase).
    cbv zeta in Hpool', Hcase.
    rewrite decide_False in Hcase by (intros [_ H]; contradiction).
    destruct Hcase as [Hlast Hnone].
    split; [rewrite (emitted_since_app _ _ _ Hemit); exact Hnone|].
    exists (after_update session position rnd).1.
    split; [rewrite Hsess; exact Hreg|].
    split; [rewrite Hheap; apply list_lookup_insert_eq; eapply lookup_lt_Some; eauto|].
    split; [congruence | exact Hlast].
  - assert (updateSessionPosition sessionId position rnd st
            = Throw Session_not_found_or_inactive) as ->.
    { unfold updateSessionPosition. rewrite Hreg. simpl. rewrite Hobj. simpl.
      rewrite Hact. reflexivity. }
    cbn [or_unchanged]. split; [apply drop_all|].
    exists session. repeat split; assumption.
Qed.

(** X15: a session whose affirmation pool is empty never plays: along any
    sequence of position updates no [playAffirmation] is emitted, whatever
    the positions, and [lastAffirmationTime] stays what it was. *)
Theorem empty_pool_never_plays
    (st : Service) (sessionId : string) (r : nat) (session : StreamingSession.t)
    (updates : list (Z * nat)) :
  sessions st !! sessionId = Some r ->
  heap st !! r = Some session ->
  StreamingSession.affirmations session = [] ->
  play_counts sessionId updates st = replicate (length updates) 0%nat
  /\ firings sessionId updates st = []
  /\ exists session',
      heap (run_updates sessionId updates st) !! r = Some session'
      /\ StreamingSession.lastAffirmationTime session'
         = StreamingSession.lastAffirmationTime session.
Proof.
  revert st session. induction updates as [|[position rnd] updates IH];
    intros st session Hreg Hobj Hpool.
  - split; [reflexivity|]. split; [reflexivity|]. exists session. split; [exact Hobj | reflexivity].
  - destruct (empty_pool_step sessionId r session st position rnd Hreg Hobj Hpool)
      as (Hquiet & session' & Hreg' & Hobj' & Hpool' & Hlast').
    cbv zeta in Hquiet, Hreg', Hobj'.
    destruct (IH _ session' Hreg' Hobj' Hpool') as (Hcounts & Hfirings & session'' & Hfinal & Hlast'').
    cbn [play_counts firings length replicate]. rewrite Hquiet, Hcounts, Hfirings.
    split; [reflexivity|]. split; [reflexivity|].
    exists session''. split; [exact Hfinal | congruence].
Qed.

(** An instance: a new session, whose affirmations are not yet
    synthesized, passes positions 30, 60 and 90 in silence. *)
Lemma empty_pool_never_plays_witness :
  let st := run [Create sample_options sample_track "s1" 1000] StreamingService.init in
  play_counts "s1" [(30, 0%nat); (60, 0%nat); (90, 0%nat)] st = [0; 0; 0]%nat
  /\ firings "s1" [(30, 0%nat); (60, 0%nat); (90, 0%nat)] st = [].
Proof.
  cbv zeta.
  destruct (empty_pool_never_plays
              (run [Create sample_options sample_track "s1" 1000] StreamingService.init)
              "s1" 0 _ [(30, 0%nat); (60, 0%nat); (90, 0%nat)] eq_refl eq_refl eq_refl)
    as (Hcounts & Hfirings & _).
  split; [exact Hcounts | exact Hfirings].
Defined.

(** ** Handles *)

(** X16: for an active session, [getAffirmationUrl] returns the path of the
    first affirmation of the pool that has the given id, and throws
    "Affirmation not found" exactly when no affirmation of the pool has
    it. *)
Theorem getAffirmationUrl_first_with_id
    (st : Service) (sessionId affirmationId : string) (session : StreamingSession.t) :
  getSession sessionId st = Some session ->
  StreamingSession.isActive session = true ->
  (forall path,
      getAffirmationUrl sessionId affirmationId st = Ok path <->
      exists i affirmation,
        StreamingSession.affirmations session !! i = Some affirmation
        /\ SynthesizedAudio.id affirmation = affirmationId
        /\ SynthesizedAudio.audioPath affirmation = path
        /\ forall j earlier,
            StreamingSession.affirmations session !! j = Some earlier ->
            (j < i)%nat -> SynthesizedAudio.id earlier <> affirmationId)
  /\ (getAffirmationUrl sessionId affirmationId st = Throw Affirmation_not_found <->
      forall affirmation,
        affirmation ∈ StreamingSession.affirmations session ->
        SynthesizedAudio.id affirmation <> affirmationId).
Proof.
  intros Hget Hact. rewrite (getAffirmationUrl_found _ _ _ _ Hget Hact).
  destruct (list_find (λ a, SynthesizedAudio.id a = affirmationId)
              (StreamingSession.affirmations session)) as [[i found]|] eqn:Hfind.
  - apply list_find_Some in Hfind as (Hi & Hid & Hfirst).
    split.
    + intros path. split.
      * intros [= <-]. exists i, found. repeat split; assumption.
      * intros (i' & a & Hi' & Hid' & Hpath & Hfirst').
        destruct (Nat.lt_trichotomy i i') as [Hlt | [-> | Hgt]].
        -- exfalso. exact (Hfirst' i found Hi Hlt Hid).
        -- rewrite Hi in Hi'. injection Hi' as ->. rewrite Hpath. reflexivity.
        -- exfalso. exact (Hfirst i' a Hi' Hgt Hid').
    + split; [discriminate|]. intros Hnone. exfalso.
      apply (Hnone found); [eapply list_elem_of_lookup_2; exact Hi | exact Hid].
  - apply list_find_None in Hfind. rewrite Forall_forall in Hfind.
    split.
    + intros path. split; [discriminate|].
      intros (i & a & Hi & Hid & _). exfalso.
      apply (Hfind a); [eapply list_elem_of_lookup_2; exact Hi | exact Hid].
    + split; [intros _; exact Hfind | reflexivity].
Qed.

(** An instance: the pool of the scenario. *)
Lemma getAffirmationUrl_first_with_id_witness :
  getAffirmationUrl "s1" "a2" scenario_state = Ok "/tmp/synthesized_voice/a2.wav"
  /\ getAffirmationUrl "s1" "a9" scenario_state = Throw Affirmation_not_found.
Proof.
  split; [reflexivity|].
  destruct (getAffirmationUrl_first_with_id scenario_state "s1" "a9" _ eq_refl eq_refl)
    as (_ & Hnone).
  apply Hnone. intros affirmation Hin.
  apply list_elem_of_In in Hin. simpl in Hin.
  destruct Hin as [<- | [<- | []]]; discriminate.
Defined.

Lemma getStreamingUrl_active sessionId segmentIndex st session :
  getSession sessionId st = Some session ->
  StreamingSession.isActive session = true ->
  getStreamingUrl sessionId segmentIndex st
  = match js_index (StreamingSession.musicSegments session) segmentIndex with
    | Some segment => Ok (GeneratedSegment.audioPath segment)
    | None => Throw Segment_not_found
    end.
Proof.
  intros Hget Hact. unfold getStreamingUrl. rewrite Hget, Hact. reflexivity.
Qed.

(** X17: segment indices are positions in the current buffer.  When a
    generated segment is appended without eviction, every index served
    before serves the same handle and the new segment is served at the next
    index; when the append evicts the oldest segment, index [i] serves what
    index [i + 1] served before and the new segment is served at the last
    index of the old buffer.  A negative index is never served. *)
Theorem segment_indices_follow_buffer
    (st : Service) (sessionId : string) (k r : nat) (session : StreamingSession.t)
    (answer : Answer.t) (newSegment : GeneratedSegment.t) :
  sessions st !! sessionId = Some r ->
  heap st !! r = Some session ->
  StreamingSession.isActive session = true ->
  pending st !! k = Some (NextSegment r) ->
  Answer.segment answer ≫= generateMusicSegment nextSegmentOptions = Some newSegment ->
  let st' := resume k answer st in
  let n := Z.of_nat (length (StreamingSession.musicSegments session)) in
  (forall i, i < 0 -> getStreamingUrl sessionId i st' = Throw Segment_not_found)
  /\ if decide (StreamingSession.bufferSize session + 2 < n + 1)
     then (forall i, 0 <= i -> i + 1 < n ->
                     getStreamingUrl sessionId i st' = getStreamingUrl sessionId (i + 1) st)
          /\ (1 <= n ->
              getStreamingUrl sessionId (n - 1) st'
              = Ok (GeneratedSegment.audioPath newSegment))
          /\ (forall i, n <= i -> getStreamingUrl sessionId i st' = Throw Segment_not_found)
     else (forall i, 0 <= i < n ->
                     getStreamingUrl sessionId i st' = getStreamingUrl sessionId i st)
          /\ getStreamingUrl sessionId n st' = Ok (GeneratedSegment.audioPath newSegment)
          /\ (forall i, n < i -> getStreamingUrl sessionId i st' = Throw Segment_not_found).
Proof.
  intros Hreg Hobj Hact Hk Hgen st' n.
  set (segments := StreamingSession.musicSegments session) in *.
  assert (getSession sessionId st = Some session) as Hget.
  { apply getSession_Some. eauto. }
  assert (getSession sessionId st' = Some (push_segment session newSegment).1) as Hget'.
  { subst st'. unfold resume. rewrite Hk. cbn [resume_task].
    set (st1 := StreamingService.set_pending (delete k (pending st)) st).
    destruct (generateNextSegment_resume_success r (Answer.segment answer) st1
                session newSegment Hobj Hgen) as (Hsess & Hheap & _).
    apply getSession_Some. exists r. rewrite Hsess. split; [exact Hreg|].
    rewrite Hheap. apply list_lookup_insert_eq. eapply lookup_lt_Some. exact Hobj. }
  assert (StreamingSession.isActive (push_segment session newSegment).1 = true) as Hact'.
  { unfold push_segment. case_decide;
      [destruct (StreamingSession.musicSegments session ++ [newSegment])|]; exact Hact. }
  assert (forall i, getStreamingUrl sessionId i st'
                    = match js_index (StreamingSession.musicSegments
                                        (push_segment session newSegment).1) i with
                      | Some segment => Ok (GeneratedSegment.audioPath segment)
                      | None => Throw Segment_not_found
                      end) as Hafter.
  { intros i. apply getStreamingUrl_active; assumption. }
  assert (forall i, getStreamingUrl sessionId i st
                    = match js_index segments i with
                      | Some segment => Ok (GeneratedSegment.audioPath segment)
                      | None => Throw Segment_not_found
                      end) as Hbefore.
  { intros i. apply getStreamingUrl_active; assumption. }
  split.
  { intros i Hi. rewrite Hafter. unfold js_index. rewrite decide_False by lia. reflexivity. }
  pose proof (push_segment_segments session newSegment) as Hpush. cbv zeta in Hpush.
  fold segments in Hpush. fold n in Hpush.
  destruct (decide (StreamingSession.bufferSize session + 2 < n + 1)) as [Hevict|Hkeep].
  - destruct Hpush as (oldSegment & _ & Hsegs & _).
    assert (forall i, 0 <= i ->
              js_index (StreamingSession.musicSegments (push_segment session newSegment).1) i
              = (segments ++ [newSegment]) !! S (Z.to_nat i)) as Hshift.
    { intros i Hi. rewrite Hsegs. unfold js_index. rewrite decide_True by exact Hi.
      apply lookup_tail. }
    split; [|split].
    + intros i Hi Hin. rewrite Hafter, Hbefore, (Hshift i Hi).
      unfold js_index. rewrite decide_True by lia.
      replace (Z.to_nat (i + 1)) with (S (Z.to_nat i)) by lia.
      rewrite lookup_app_l by (subst n; lia). reflexivity.
    + intros Hn. rewrite Hafter, (Hshift (n - 1)) by lia.
      replace (S (Z.to_nat (n - 1))) with (length segments) by (subst n; lia).
      rewrite list_lookup_middle by reflexivity. reflexivity.
    + intros i Hi. rewrite Hafter, (Hshift i) by (subst n; lia).
      rewrite lookup_ge_None_2; [reflexivity|].
      rewrite length_app. simpl. subst n. lia.
  - destruct Hpush as (Hsegs & _).
    assert (forall i, 0 <= i ->
              js_index (StreamingSession.musicSegments (push_segment session newSegment).1) i
              = (segments ++ [newSegment]) !! Z.to_nat i) as Hsame.
    { intros i Hi. rewrite Hsegs. unfold js_index. rewrite decide_True by exact Hi.
      reflexivity. }
    split; [|split].
    + intros i Hi. rewrite Hafter, Hbefore, (Hsame i) by lia.
      unfold js_index. rewrite decide_True by lia.
      rewrite lookup_app_l by (subst n; lia). reflexivity.
    + rewrite Hafter, (Hsame n) by (subst n; lia).
      replace (Z.to_nat n) with (length segments) by (subst n; lia).
      rewrite list_lookup_middle by reflexivity. reflexivity.
    + intros i Hi. rewrite Hafter, (Hsame i) by (subst n; lia).
      rewrite lookup_ge_None_2; [reflexivity|].
      rewrite length_app. simpl. subst n. lia.
Qed.

(** An instance: the buffer of the busy session is full; the next segment
    evicts the oldest, index 0 now serves what index 1 served, and the new
    segment is served at index 2. *)
Lemma segment_indices_follow_buffer_witness :
  let st' := resume 2 (segment_answer "n5") full_state in
  getStreamingUrl "s1" 1 full_state = Ok "/tmp/generated_music/n3.wav"
  /\ getStreamingUrl "s1" 0 st' = getStreamingUrl "s1" 1 full_state
  /\ getStreamingUrl "s1" 2 st' = Ok "/tmp/generated_music/n5.wav"
  /\ getStreamingUrl "s1" (-1) st' = Throw Segment_not_found.
Proof.
  cbv zeta.
  destruct (segment_indices_follow_buffer full_state "s1" 2 0 _
              (segment_answer "n5") (sample_late "n5")
              eq_refl eq_refl eq_refl eq_refl eq_refl) as (Hneg & Hcase).
  cbv zeta in Hcase.
  match type of Hcase with
  | context [decide ?P] => destruct (decide P) as [_|Hno]
  end; [|exfalso; apply Hno; vm_compute; reflexivity].
  destruct Hcase as (Hshift & Hlast & _).
  split; [reflexivity|].
  split; [apply (Hshift 0); [lia | vm_compute; reflexivity]|].
  split; [apply Hlast; vm_compute; discriminate|].
  apply Hneg. lia.
Defined.

(** ** The growth trigger in the reachable states *)

(** X18: the service never moves [currentSegmentIndex] from 0, so in every
    reachable state the end of the current segment is the duration of the
    first buffered segment (60 when the buffer is empty or that duration is
    0), and a position update of an active session issues a generation call
    exactly when the position is at least that duration minus 30. *)
Theorem growth_threshold_is_first_segment
    (st : Service) (sessionId : string) (r : nat) (session : StreamingSession.t) :
  reachable st ->
  sessions st !! sessionId = Some r ->
  heap st !! r = Some session ->
  StreamingSession.isActive session = true ->
  let first :=
    or_default (GeneratedSegment.duration <$> head (StreamingSession.musicSegments session))
               60 in
  StreamingSession.currentSegmentIndex session = 0
  /\ segmentEndTime session = first
  /\ forall position rnd,
      exists st',
        updateSessionPosition sessionId position rnd st = Ok st'
        /\ (in_flight r st' = S (in_flight r st) <-> first - 30 <= position)
        /\ (in_flight r st' = in_flight r st <-> position < first - 30).
Proof.
  intros Hst Hreg Hobj Hact first.
  pose proof (reachable_currentSegmentIndex st Hst) as Hall.
  rewrite Forall_lookup in Hall. pose proof (Hall r session Hobj) as Hzero.
  simpl in Hzero.
  assert (segmentEndTime session = first) as Hend.
  { unfold segmentEndTime. rewrite Hzero. unfold js_index. simpl.
    subst first. destruct (StreamingSession.musicSegments session); simpl; lia. }
  split; [exact Hzero|]. split; [exact Hend|].
  intros position rnd.
  destruct (updateSessionPosition_active st sessionId r session position rnd Hreg Hobj Hact)
    as (st' & Hup & _ & _ & Hpend & _).
  exists st'. split; [exact Hup|].
  unfold in_flight. rewrite Hpend, Hend, filter_app, length_app. clear Hpend.
  destruct (decide (first - 30 <= position)) as [Hcross|Hcross].
  - rewrite filter_cons. simpl. rewrite bool_decide_true by reflexivity.
    rewrite decide_True by reflexivity. simpl. split; split; intros; lia.
  - simpl. split; split; intros; lia.
Qed.

(** An instance: once the initial batch of three segments of 20 seconds is
    in the buffer, the updates at positions 0 and 5 issue a generation
    call, the update at position -11 does not. *)
Lemma growth_threshold_is_first_segment_witness :
  let st := run [Create sample_options sample_track "s1" 1000;
                 Resume 0 (batch_answer all_succeed)] StreamingService.init in
  exists st0 st5 stm,
    updateSessionPosition "s1" 0 0 st = Ok st0 /\ in_flight 0 st0 = 1%nat
    /\ updateSessionPosition "s1" 5 0 st0 = Ok st5 /\ in_flight 0 st5 = 2%nat
    /\ updateSessionPosition "s1" (-11) 0 st = Ok stm /\ in_flight 0 stm = 0%nat.
Proof.
  cbv zeta.
  destruct (growth_threshold_is_first_segment
              (run [Create sample_options sample_track "s1" 1000;
                    Resume 0 (batch_answer all_succeed)] StreamingService.init)
              "s1" 0 _ (reachable_run _ _ reachable_init) eq_refl eq_refl eq_refl)
    as (_ & _ & Hupdate).
  destruct (Hupdate 0 0%nat) as (st0 & Hup0 & Hyes0 & _).
  destruct (Hupdate (-11) 0%nat) as (stm & Hupm & _ & Hnom).
  exists st0.
  destruct (updateSessionPosition "s1" 5 0 st0) as [st5|e] eqn:Hup5.
  2:{ vm_compute in Hup0. injection Hup0 as <-. vm_compute in Hup5. discriminate. }
  exists st5, stm.
  split; [exact Hup0|]. split; [rewrite (proj2 Hyes0); [reflexivity | vm_compute; discriminate]|].
  split; [reflexivity|].
  split; [vm_compute in Hup0; injection Hup0 as <-; vm_compute in Hup5;
          injection Hup5 as <-; reflexivity|].
  split; [exact Hupm|]. rewrite (proj2 Hnom); [reflexivity | vm_compute; reflexivity].
Defined.

(** ** Listing *)

Lemma getUserSessions_elem userId st session :
  session ∈ getUserSessions userId st <->
  exists k r, sessions st !! k = Some r
              /\ heap st !! r = Some session
              /\ StreamingSession.userId session = userId
              /\ StreamingSession.isActive session = true.
Proof.
  split; [apply getUserSessions_listed|].
  intros (k & r & Hk & Hobj & Hu & Ha).
  unfold getUserSessions. apply list_elem_of_filter. split; [split; assumption|].
  apply list_elem_of_omap. exists (k, r). split; [|exact Hobj].
  apply elem_of_map_to_list. exact Hk.
Qed.

(** X19: in a reachable state, creating a session under an id that is not
    registered adds exactly the new session to the list of its user and
    changes the list of no other user. *)
Theorem created_session_is_listed
    (st : Service) (options : StreamingOptions.t) (trackData : TrackData.t)
    (sessionId : string) (now : Z) :
  reachable st ->
  sessions st !! sessionId = None ->
  let st' := snd (createStreamingSession options trackData sessionId now st) in
  forall userId session,
    session ∈ getUserSessions userId st' <->
    session ∈ getUserSessions userId st
    \/ (userId = StreamingOptions.userId options
        /\ session = new_session options trackData sessionId now).
Proof.
  intros Hst Hfresh st' userId session.
  destruct (createStreamingSession_fields options trackData sessionId now st)
    as (_ & Hs & Hh & _).
  cbv zeta in Hs, Hh. fold st' in Hs, Hh.
  rewrite !getUserSessions_elem. split.
  - intros (k & r & Hk & Hobj & Hu & Ha). rewrite Hs in Hk. rewrite Hh in Hobj.
    destruct (decide (sessionId = k)) as [->|Hne].
    + rewrite lookup_insert_eq in Hk. injection Hk as <-.
      rewrite list_lookup_middle in Hobj by reflexivity. injection Hobj as <-.
      right. split; [symmetry; exact Hu | reflexivity].
    + rewrite lookup_insert_ne in Hk by exact Hne.
      destruct (reachable_registered_object st k r Hst Hk) as (s & Hs' & _).
      rewrite (lookup_app_l_Some _ _ _ _ Hs') in Hobj. injection Hobj as <-.
      left. exists k, r. repeat split; assumption.
  - intros [(k & r & Hk & Hobj & Hu & Ha) | [-> ->]].
    + exists k, r. rewrite Hs, Hh.
      split; [rewrite lookup_insert_ne by congruence; exact Hk|].
      split; [apply lookup_app_l_Some; exact Hobj|]. split; assumption.
    + exists sessionId, (length (heap st)). rewrite Hs, Hh, lookup_insert_eq.
      split; [reflexivity|]. split; [apply list_lookup_middle; reflexivity|].
      split; reflexivity.
Qed.

(** An instance: bob's session joins alice's in the service; alice's list
    is unchanged. *)
Lemma created_session_is_listed_witness :
  let st := run [Create sample_options sample_track "s1" 1000] StreamingService.init in
  let options := StreamingOptions.mk 8 "bob" None None None in
  let st' := snd (createStreamingSession options sample_track "s2" 2000 st) in
  new_session options sample_track "s2" 2000 ∈ getUserSessions "bob" st'
  /\ forall session, session ∈ getUserSessions "alice" st' ->
                     session ∈ getUserSessions "alice" st.
Proof.
  cbv zeta.
  pose proof (created_session_is_listed
                (run [Create sample_options sample_track "s1" 1000] StreamingService.init)
                (StreamingOptions.mk 8 "bob" None None None) sample_track "s2" 2000
                (reachable_run _ _ reachable_init) eq_refl) as Hlisted.
  cbv zeta in Hlisted. split.
  - apply Hlisted. right. split; reflexivity.
  - intros session Hin. apply Hlisted in Hin as [Hold | [Hbob _]]; [exact Hold|].
    discriminate Hbob.
Defined.

(** ** The streaming routes *)

Lemma access_denied_owner userId sessionId st session :
  getSession sessionId st = Some session ->
  access_denied userId sessionId st
  = negb (bool_decide (StreamingSession.userId session = userId)).
Proof. intros Hget. unfold access_denied. rewrite Hget. reflexivity. Qed.

Lemma listed_ids_registered st userId entry :
  reachable st ->
  entry ∈ summary <$> getUserSessions userId st ->
  exists session,
    getSession (SessionSummary.id entry) st = Some session
    /\ StreamingSession.userId session = userId
    /\ entry = summary session.
Proof.
  intros Hst Hin. apply list_elem_of_fmap in Hin as (session & -> & Hin).
  apply getUserSessions_elem in Hin as (k & r & Hk & Hobj & Hu & _).
  destruct (reachable_registered_object st k r Hst Hk) as (s & Hs & Hid).
  assert (s = session) as -> by congruence.
  exists session. split; [|split; [exact Hu | reflexivity]].
  simpl. rewrite Hid. apply getSession_Some. eauto.
Qed.

(** X20: a user can neither move, stop nor see another user's session: on a
    session owned by someone else the position route and the stop route
    answer 403 "Access denied" and leave the service as it is, and the
    list of the sessions route never contains it. *)
Theorem routes_isolate_users
    (st : Service) (userId sessionId : string) (session : StreamingSession.t) :
  reachable st ->
  getSession sessionId st = Some session ->
  StreamingSession.userId session <> userId ->
  (forall position rnd answer,
      stream_position userId sessionId position rnd answer st
      = ((403%nat, Message "Access denied"), st))
  /\ stream_stop userId sessionId st = ((403%nat, Message "Access denied"), st)
  /\ exists listed,
      stream_sessions userId st = (200%nat, Sessions listed)
      /\ forall entry, entry ∈ listed -> SessionSummary.id entry <> sessionId.
Proof.
  intros Hst Hget Hother.
  assert (access_denied userId sessionId st = true) as Hdenied.
  { rewrite (access_denied_owner _ _ _ _ Hget).
    rewrite bool_decide_false by exact Hother. reflexivity. }
  split; [|split].
  - intros position rnd answer. unfold stream_position. rewrite Hdenied. reflexivity.
  - unfold stream_stop. rewrite Hdenied. reflexivity.
  - eexists. split; [reflexivity|].
    intros entry Hin Hid.
    destruct (listed_ids_registered st userId entry Hst Hin) as (s & Hs & Hu & _).
    rewrite Hid in Hs. congruence.
Qed.

(** An instance: bob on alice's session. *)
Lemma routes_isolate_users_witness :
  stream_stop "bob" "s1" two_sessions = ((403%nat, Message "Access denied"), two_sessions)
  /\ stream_position "bob" "s1" 10 0 None two_sessions
     = ((403%nat, Message "Access denied"), two_sessions).
Proof.
  destruct (routes_isolate_users two_sessions "bob" "s1" _
              (reachable_run _ _ reachable_init) eq_refl ltac:(discriminate))
    as (Hposition & Hstop & _).
  split; [exact Hstop | apply Hposition].
Defined.

(** X21: when its owner stops a session through the stop route, the route
    answers 200 and the session is gone for the owner too: a second stop
    and any position update answer 403 "Access denied", not 404, and the
    sessions route no longer lists it. *)
Theorem stopped_session_is_denied
    (st : Service) (userId sessionId : string) (session : StreamingSession.t) :
  reachable st ->
  getSession sessionId st = Some session ->
  StreamingSession.userId session = userId ->
  exists st1,
    stream_stop userId sessionId st
    = ((200%nat, Message "Streaming session stopped"), st1)
    /\ stream_stop userId sessionId st1 = ((403%nat, Message "Access denied"), st1)
    /\ (forall position rnd answer,
          stream_position userId sessionId position rnd answer st1
          = ((403%nat, Message "Access denied"), st1))
    /\ exists listed,
        stream_sessions userId st1 = (200%nat, Sessions listed)
        /\ forall entry, entry ∈ listed -> SessionSummary.id entry <> sessionId.
Proof.
  intros Hst Hget Howner.
  pose proof Hget as Hget0. apply getSession_Some in Hget0 as (r & Hreg & Hobj).
  destruct (stopSession_registered sessionId st r Hreg) as (st1 & Hstop & Hsess & _).
  assert (getSession sessionId st1 = None) as Hgone.
  { unfold getSession. rewrite Hsess, lookup_delete_eq. reflexivity. }
  assert (access_denied userId sessionId st1 = true) as Hdenied.
  { unfold access_denied. rewrite Hgone. reflexivity. }
  assert (reachable st1) as Hst1.
  { replace st1 with (step (Stop sessionId) st); [constructor; exact Hst|].
    simpl. rewrite Hstop. reflexivity. }
  exists st1. split; [|split; [|split]].
  - unfold stream_stop. rewrite (access_denied_owner _ _ _ _ Hget).
    rewrite bool_decide_true by exact Howner. simpl. rewrite Hstop. reflexivity.
  - unfold stream_stop. rewrite Hdenied. reflexivity.
  - intros position rnd answer. unfold stream_position. rewrite Hdenied. reflexivity.
  - eexists. split; [reflexivity|].
    intros entry Hin Hid.
    destruct (listed_ids_registered st1 userId entry Hst1 Hin) as (s & Hs & _).
    rewrite Hid in Hs. congruence.
Qed.

(** An instance: alice stops her session. *)
Lemma stopped_session_is_denied_witness :
  exists st1,
    stream_stop "alice" "s1" two_sessions
    = ((200%nat, Message "Streaming session stopped"), st1)
    /\ stream_stop "alice" "s1" st1 = ((403%nat, Message "Access denied"), st1)
    /\ stream_position "alice" "s1" 10 0 None st1
       = ((403%nat, Message "Access denied"), st1).
Proof.
  destruct (stopped_session_is_denied two_sessions "alice" "s1" _
              (reachable_run _ _ reachable_init) eq_refl eq_refl)
    as (st1 & Hfirst & Hsecond & Hposition & _).
  exists st1. split; [exact Hfirst|]. split; [exact Hsecond | apply Hposition].
Defined.

(** X22: the start route creates a session only for a track of the caller.
    It answers 200 exactly when the body names a track id and the stored
    track belongs to the caller; the answer then carries the new session's
    id, and that session is registered for the caller, so the position and
    stop routes accept it.  In every other case nothing is created: the
    service is unchanged. *)
Theorem stream_start_checks_ownership
    (userId : string) (trackId affirmationInterval bufferSize segmentDuration : option Z)
    (fetched : option (option Track.t)) (uuid : string) (now : Z) (st : Service) :
  let reply :=
    fst (stream_start userId trackId affirmationInterval bufferSize segmentDuration
           fetched uuid now st) in
  let st' :=
    snd (stream_start userId trackId affirmationInterval bufferSize segmentDuration
           fetched uuid now st) in
  (fst reply = 200%nat <->
   exists id track,
     trackId = Some id /\ id <> 0
     /\ fetched = Some (Some track) /\ Track.userId track = userId)
  /\ (fst reply <> 200%nat -> st' = st)
  /\ (fst reply = 200%nat ->
      exists session,
        reply = (200%nat,
                 Started uuid (StreamingSession.affirmationInterval session)
                   (StreamingSession.totalDuration session))
        /\ getSession uuid st' = Some session
        /\ StreamingSession.userId session = userId
        /\ StreamingSession.isActive session = true
        /\ access_denied userId uuid st' = false).
Proof.
  cbv zeta. unfold stream_start.
  destruct trackId as [id|]; simpl;
    [|split; [split; [discriminate | intros (? & ? & ? & _); discriminate]
             |split; [reflexivity | discriminate]]].
  destruct (decide (id = 0)) as [Hzero|Hid]; simpl;
    [split; [split; [discriminate | intros (? & ? & [= <-] & ? & _); contradiction]
            |split; [reflexivity | discriminate]]|].
  destruct fetched as [[track|]|]; simpl;
    [|split; [split; [discriminate | intros (? & ? & _ & _ & ? & _); discriminate]
             |split; [reflexivity | discriminate]]..].
  destruct (decide (Track.userId track = userId)) as [Hown|Hforeign]; simpl;
    [|split; [split; [discriminate | intros (? & ? & _ & _ & [= <-] & ?); contradiction]
             |split; [reflexivity | discriminate]]].
  rewrite list_lookup_middle by reflexivity. simpl.
  split; [split; [intros _; exists id, track; repeat split; assumption | reflexivity]|].
  split; [intros Hne; contradiction Hne; reflexivity|].
  intros _.
  exists (new_session
            (StreamingOptions.mk id userId affirmationInterval bufferSize segmentDuration)
            (Track.data track) uuid now).
  split; [reflexivity|].
  assert (getSession uuid
            (snd (createStreamingSession
                    (StreamingOptions.mk id userId affirmationInterval bufferSize
                       segmentDuration) (Track.data track) uuid now st))
          = Some (new_session
                    (StreamingOptions.mk id userId affirmationInterval bufferSize
                       segmentDuration) (Track.data track) uuid now)) as Hget.
  { apply getSession_Some. exists (length (heap st)). simpl.
    rewrite lookup_insert_eq. split; [reflexivity|].
    apply list_lookup_middle. reflexivity. }
  simpl in Hget.
  split; [exact Hget|]. split; [reflexivity|]. split; [reflexivity|].
  unfold access_denied. rewrite Hget. simpl.
  rewrite bool_decide_true by reflexivity. reflexivity.
Qed.

(** ** The cleanup of the mock voice service *)

Lemma list_ascii_of_string_app (a b : string) :
  String.list_ascii_of_string (a +:+ b)
  = String.list_ascii_of_string a ++ String.list_ascii_of_string b.
Proof. induction a as [|c a IH]; simpl; [reflexivity | rewrite IH; reflexivity]. Qed.

Lemma endsWith_path_join dir file : endsWith (path_join dir file) file = true.
Proof.
  unfold endsWith, path_join. apply bool_decide_eq_true.
  rewrite !list_ascii_of_string_app, app_assoc. apply suffix_app_r. reflexivity.
Qed.

Lemma is_sample_path_join samples dir file :
  path_join dir file ∈ samples ->
  MockVoiceSynthesisService.is_sample samples file = true.
Proof.
  intros Hin. unfold MockVoiceSynthesisService.is_sample.
  apply existsb_exists. exists (path_join dir file).
  split; [apply list_elem_of_In; exact Hin | apply endsWith_path_join].
Qed.

(** X23: the cleanup of the mock voice service never removes one of its
    sample files: every path it removes is outside [sampleVoiceFiles], and
    belongs to an entry more than one hour old that no sample path ends
    with.  Such an entry is skipped before [fs.stat], so it has no effect
    on the pass, whatever the file system would answer for it. *)
Theorem mock_cleanup_keeps_sample_files
    (dir : string) (sampleVoiceFiles : list string) (now : Z) (files : list DirEntry.t) :
  (forall path,
      path ∈ MockVoiceSynthesisService.cleanup dir sampleVoiceFiles (Some files) now ->
      (path ∉ sampleVoiceFiles)
      /\ exists entry mtime,
          entry ∈ files
          /\ path = path_join dir (DirEntry.file entry)
          /\ MockVoiceSynthesisService.is_sample sampleVoiceFiles (DirEntry.file entry)
             = false
          /\ DirEntry.mtime entry = Some mtime
          /\ 60 * 60 * 1000 < now - mtime)
  /\ (forall before entry after,
        files = before ++ entry :: after ->
        MockVoiceSynthesisService.is_sample sampleVoiceFiles (DirEntry.file entry)
        = true ->
        MockVoiceSynthesisService.cleanup dir sampleVoiceFiles (Some files) now
        = MockVoiceSynthesisService.cleanup dir sampleVoiceFiles
            (Some (before ++ after)) now).
Proof.
  split.
  - intros path Hin.
    assert (exists entry mtime,
              entry ∈ files
              /\ path = path_join dir (DirEntry.file entry)
              /\ MockVoiceSynthesisService.is_sample sampleVoiceFiles
                   (DirEntry.file entry) = false
              /\ DirEntry.mtime entry = Some mtime
              /\ oneHour < now - mtime) as Hentry.
    { simpl in Hin. induction files as [|entry rest IH]; simpl in Hin;
        [inversion Hin|].
      destruct (MockVoiceSynthesisService.is_sample sampleVoiceFiles
                  (DirEntry.file entry)) eqn:Hsample.
      { destruct (IH Hin) as (e & m & He & Hrest). exists e, m.
        split; [right; exact He | exact Hrest]. }
      destruct (DirEntry.mtime entry) as [mtime|] eqn:Hm; [|inversion Hin].
      destruct (decide (oneHour < now - mtime)) as [Hold|Hyoung].
      - destruct (DirEntry.unlinks entry); [|inversion Hin].
        apply elem_of_cons in Hin as [-> | Hin].
        + exists entry, mtime. split; [left|]. repeat split; assumption.
        + destruct (IH Hin) as (e & m & He & Hrest). exists e, m.
          split; [right; exact He | exact Hrest].
      - destruct (IH Hin) as (e & m & He & Hrest). exists e, m.
        split; [right; exact He | exact Hrest]. }
    split; [|exact Hentry].
    destruct Hentry as (entry & mtime & _ & -> & Hsample & _).
    intros Hin'. apply is_sample_path_join in Hin'. congruence.
  - intros before entry after -> Hsample. simpl.
    induction before as [|e before IH]; simpl.
    + rewrite Hsample. reflexivity.
    + rewrite IH. reflexivity.
Qed.
